(** * Research Planner: the task-line codec, identifier migration,
      week store and change watcher of [src/App.tsx]

    A shallow embedding of the TypeScript source.  JavaScript strings are
    sequences of UTF-16 code units; the regular expressions of the source
    are transcribed as abstract syntax and run by a backtracking matcher
    with the priorities of the ECMAScript one (leftmost start, greedy
    quantifiers, ordered alternation).  File-system calls, React state and
    the random source of [genTaskId] are threaded through an explicit
    world. *)

From Stdlib Require Import ZArith Lia.
From stdpp Require Import base option list strings gmap.

Set Default Proof Using "Type".
Open Scope N_scope.
Open Scope nat_scope.
Open Scope list_scope.

(** ** Strings *)

(** A JavaScript string: a list of 16-bit code units. *)
Abbreviation jsstring := (list N) (only parsing).

(** An ASCII literal of the source as a code-unit list. *)
Definition str (s : string) : jsstring :=
  map Byte.to_N (String.list_byte_of_string s).

(** The emoji of the metadata markers; each is a single code unit. *)
Definition HOURGLASS_FLOWING : N := 0x23F3%N.  (* U+23F3, before est: *)
Definition HOURGLASS_DONE : N := 0x231B%N.     (* U+231B, before act: *)
Definition WRITING_HAND : N := 0x270D%N.       (* U+270D, before reason: *)
Definition VARIATION_16 : N := 0xFE0F%N.       (* U+FE0F, emoji presentation *)

Definition LF : N := 10%N.

(** [\s]: WhiteSpace and LineTerminator code units of ECMAScript; also the
    set removed by [trim]. *)
Definition isSpace (c : N) : bool :=
  ((9 <=? c) && (c <=? 13) || (c =? 32) || (c =? 160) || (c =? 0x1680)
   || (0x2000 <=? c) && (c <=? 0x200A) || (c =? 0x2028) || (c =? 0x2029)
   || (c =? 0x202F) || (c =? 0x205F) || (c =? 0x3000) || (c =? 0xFEFF))%N.

(** [\S]. *)
Definition nonSpace (c : N) : bool := negb (isSpace c).

(** LineTerminator: the code units that [.] refuses. *)
Definition isLineTerminator (c : N) : bool :=
  ((c =? 10) || (c =? 13) || (c =? 0x2028) || (c =? 0x2029))%N.

(** [.] without the [s] flag. *)
Definition dot (c : N) : bool := negb (isLineTerminator c).

(** [\d]. *)
Definition isDigit (c : N) : bool := ((48 <=? c) && (c <=? 57))%N.

(** [[a-fA-F0-9]]. *)
Definition isHex (c : N) : bool :=
  ((48 <=? c) && (c <=? 57) || (97 <=? c) && (c <=? 102)
   || (65 <=? c) && (c <=? 70))%N.

(** A single literal code unit. *)
Definition isChar (a : N) (c : N) : bool := (c =? a)%N.

(** [String.prototype.trimStart], [trimEnd], [trim]. *)
Fixpoint trimStart (s : jsstring) : jsstring :=
  match s with
  | c :: s' => if isSpace c then trimStart s' else s
  | [] => []
  end.

Fixpoint trimEnd (s : jsstring) : jsstring :=
  match s with
  | c :: s' =>
      match trimEnd s' with
      | [] => if isSpace c then [] else [c]
      | t => c :: t
      end
  | [] => []
  end.

Definition trim (s : jsstring) : jsstring := trimEnd (trimStart s).

(** [s.split("\n")]: never empty; the empty string gives one empty line. *)
Fixpoint split_lines (s : jsstring) : list jsstring :=
  match s with
  | [] => [[]]
  | c :: s' =>
      if (c =? LF)%N then [] :: split_lines s'
      else match split_lines s' with
           | l :: ls => (c :: l) :: ls
           | [] => [[c]]
           end
  end.

(** [lines.join("\n")]. *)
Fixpoint join_lines (ls : list jsstring) : jsstring :=
  match ls with
  | [] => []
  | [l] => l
  | l :: ls' => l ++ LF :: join_lines ls'
  end.

(** [parts.join(" ")]. *)
Fixpoint join_space (ls : list jsstring) : jsstring :=
  match ls with
  | [] => []
  | [l] => l
  | l :: ls' => l ++ 32%N :: join_space ls'
  end.

(** [String.prototype.toLowerCase] on the code units whose lower case the
    comparisons of the source can observe: the ASCII capitals, and the two
    code units outside ASCII whose lower case contains an ASCII letter
    (U+212A KELVIN SIGN gives k, U+0130 gives i followed by U+0307).
    Every other code unit lowers to a code unit outside ASCII and is kept
    as it is. *)
Definition lowerUnit (c : N) : jsstring :=
  if ((65 <=? c) && (c <=? 90))%N then [(c + 32)%N]
  else if (c =? 0x212A)%N then [107%N]
  else if (c =? 0x0130)%N then [105%N; 0x0307%N]
  else [c].

Definition toLowerCase (s : jsstring) : jsstring := concat (map lowerUnit s).

(** Equality of strings, [===]. *)
Fixpoint streq (a b : jsstring) : bool :=
  match a, b with
  | [], [] => true
  | x :: a', y :: b' => (x =? y)%N && streq a' b'
  | _, _ => false
  end.

(** ** Numbers

    The minutes of a task are non-negative integers; [Number] and
    [String] are modelled on exact integers, which is what a double holds
    below 2^53. *)

Inductive number :=
| Num (n : N)   (* an integer that is >= 0 (negative zero included) *)
| NaN
| OtherNumber.  (* negative, fractional or infinite *)

Definition digitVal (c : N) : N := (c - 48)%N.

Definition hexVal (c : N) : N :=
  if isDigit c then (c - 48)%N
  else if ((97 <=? c) && (c <=? 102))%N then (c - 87)%N
  else (c - 55)%N.

(** Value of a run of digits in base [b]. *)
Definition radixVal (b : N) (val : N -> N) (s : jsstring) : N :=
  fold_left (fun a c => (a * b + val c)%N) s 0%N.

Definition decimalVal (s : jsstring) : N := radixVal 10 digitVal s.

(** Digits of [n] in base [b] (2 to 16), most significant first, by
    [fuel] divisions. *)
Fixpoint digitsFuel (b : N) (fuel : nat) (n : N) (tail : jsstring) : jsstring :=
  match fuel with
  | O => tail
  | S f =>
      let r := (n mod b)%N in
      let d := if (r <? 10)%N then (48 + r)%N else (87 + r)%N in
      if (n <? b)%N then d :: tail else digitsFuel b f (n / b)%N (d :: tail)
  end.

Definition toRadix (b : N) (n : N) : jsstring :=
  digitsFuel b (S (N.to_nat (N.log2 n))) n [].

(** [String(n)] / template interpolation of a non-negative integer. *)
Definition String_ (n : N) : jsstring := toRadix 10 n.

Fixpoint allb (p : N -> bool) (s : jsstring) : bool :=
  match s with
  | [] => true
  | c :: s' => p c && allb p s'
  end.

Fixpoint span (p : N -> bool) (s : jsstring) : jsstring * jsstring :=
  match s with
  | c :: s' => if p c then let '(a, b) := span p s' in (c :: a, b) else ([], s)
  | [] => ([], [])
  end.

(** The StrDecimalLiteral of a StringNumericLiteral, sign removed:
    digits, optional fraction, optional exponent.  The result is the
    exact value when that value is an integer. *)
Definition decimalLiteral (s : jsstring) : number :=
  let '(ip, r1) := span isDigit s in
  let '(fp, r2) :=
    match r1 with
    | 46%N :: r => span isDigit r
    | _ => ([], r1)
    end in
  if match ip, fp with [], [] => true | _, _ => false end then NaN
  else
    let mant := decimalVal (ip ++ fp) in
    let finish (neg : bool) (e : N) :=
      (* value = mant * 10^(e') with e' = (neg ? -e : e) - |fp| *)
      let fl := N.of_nat (length fp) in
      if neg then
        let q := (10 ^ (e + fl))%N in
        if (mant mod q =? 0)%N then Num (mant / q) else OtherNumber
      else if (fl <=? e)%N then Num (mant * 10 ^ (e - fl))
      else
        let q := (10 ^ (fl - e))%N in
        if (mant mod q =? 0)%N then Num (mant / q) else OtherNumber in
    match r2 with
    | [] => finish false 0%N
    | e :: r3 =>
        if negb ((e =? 101) || (e =? 69))%N then NaN
        else
          let '(neg, ds) :=
            match r3 with
            | 45%N :: d => (true, d)
            | 43%N :: d => (false, d)
            | d => (false, d)
            end in
          match ds with
          | [] => NaN
          | _ => if allb isDigit ds then finish neg (decimalVal ds) else NaN
          end
    end.

Definition INFINITY : jsstring := str "Infinity".

(** [Number(s)] on a string: StringToNumber. *)
Definition Number (s0 : jsstring) : number :=
  let s := trim s0 in
  match s with
  | [] => Num 0
  | 48%N :: x :: ds =>
      let radix (b : N) (p : N -> bool) (val : N -> N) :=
        match ds with
        | [] => NaN
        | _ => if allb p ds then Num (radixVal b val ds) else NaN
        end in
      if ((x =? 120) || (x =? 88))%N then radix 16%N isHex hexVal
      else if ((x =? 111) || (x =? 79))%N then
        radix 8%N (fun c => (48 <=? c) && (c <=? 55))%N digitVal
      else if ((x =? 98) || (x =? 66))%N then
        radix 2%N (fun c => (48 <=? c) && (c <=? 49))%N digitVal
      else decimalLiteral s
  | 45%N :: r =>
      if streq r INFINITY then OtherNumber
      else match decimalLiteral r with
           | Num 0 => Num 0
           | Num _ => OtherNumber
           | v => v
           end
  | 43%N :: r => if streq r INFINITY then OtherNumber else decimalLiteral r
  | _ => if streq s INFINITY then OtherNumber else decimalLiteral s
  end.

(** ** Regular expressions

    The fragment of ECMAScript regular expressions that the source uses:
    literals, character classes, greedy quantifiers on a character class
    ([\s*], [\s+], [\S+], [.*], [[a-fA-F0-9]{6,32}], [\d+]), sequence,
    ordered alternation, the assertions [^] and [$] (no [m] flag),
    positive lookahead and capture groups.  The lookaheads of the source
    contain no group, so a lookahead leaves the captures as they are. *)

Inductive regex :=
| Eps
| Chr (p : N -> bool)
| Lit (l : jsstring)
| Seq (a b : regex)
| Alt (a b : regex)
| Rep (p : N -> bool) (lo : nat) (hi : option nat)
| Bol
| Eol
| Ahead (a : regex)
| Grp (n : nat) (a : regex).

Fixpoint cat (rs : list regex) : regex :=
  match rs with
  | [] => Eps
  | [r] => r
  | r :: rs' => Seq r (cat rs')
  end.

Definition star (p : N -> bool) : regex := Rep p 0 None.
Definition plus (p : N -> bool) : regex := Rep p 1 None.

(** Captures, most recent first. *)
Definition caps : Type := list (nat * jsstring).

(** End index, matched text since the innermost open group (or the start
    of the match), rest of the input, captures. *)
Definition mstate : Type := (nat * jsstring * jsstring * caps)%type.

Definition cont : Type := nat -> jsstring -> jsstring -> caps -> option mstate.

Fixpoint strip_prefix (l s : jsstring) : option jsstring :=
  match l, s with
  | [], _ => Some s
  | x :: l', y :: s' => if (x =? y)%N then strip_prefix l' s' else None
  | _ :: _, [] => None
  end.

Definition hi_open (hi : option nat) : bool :=
  match hi with Some O => false | _ => true end.

(** Greedy repetition of a character class: one more unit first, and the
    continuation on what was taken only when that fails. *)
Fixpoint rep (p : N -> bool) (lo : nat) (hi : option nat)
    (i : nat) (acc s : jsstring) (c : caps) (k : cont) : option mstate :=
  match s with
  | x :: s' =>
      if p x && hi_open hi then
        match rep p (pred lo) (pred <$> hi) (S i) (acc ++ [x]) s' c k with
        | Some r => Some r
        | None => match lo with O => k i acc s c | S _ => None end
        end
      else match lo with O => k i acc s c | S _ => None end
  | [] => match lo with O => k i acc s c | S _ => None end
  end.

(** The continuation of a finished match. *)
Definition accept : cont := fun i acc s c => Some (i, acc, s, c).

(** The backtracking matcher, in continuation-passing style: [i] is the
    index of the next code unit in the whole input, [s] the input from
    there on. *)
Fixpoint run (r : regex) (i : nat) (acc s : jsstring) (c : caps) (k : cont)
    : option mstate :=
  match r with
  | Eps => k i acc s c
  | Chr p =>
      match s with
      | x :: s' => if p x then k (S i) (acc ++ [x]) s' c else None
      | [] => None
      end
  | Lit l =>
      match strip_prefix l s with
      | Some s' => k (i + length l) (acc ++ l) s' c
      | None => None
      end
  | Seq a b => run a i acc s c (fun i' acc' s' c' => run b i' acc' s' c' k)
  | Alt a b =>
      match run a i acc s c k with
      | Some r => Some r
      | None => run b i acc s c k
      end
  | Rep p lo hi => rep p lo hi i acc s c k
  | Bol => match i with O => k i acc s c | S _ => None end
  | Eol => match s with [] => k i acc s c | _ :: _ => None end
  | Ahead a =>
      match run a i [] s c accept with
      | Some _ => k i acc s c
      | None => None
      end
  | Grp n a =>
      run a i [] s c (fun i' acc' s' c' => k i' (acc ++ acc') s' ((n, acc') :: c'))
  end.

(** Match attempt at one start position. *)
Definition run_at (r : regex) (i : nat) (s : jsstring) : option mstate :=
  run r i [] s [] accept.

(** A successful match: [m.index], [m[0]], the input after the match,
    and the groups. *)
Record Match := {
  index : nat;
  matched : jsstring;
  after : jsstring;
  groups : caps }.

(** The leftmost match, from index [i] where the input still holds [s]. *)
Fixpoint search (r : regex) (i : nat) (s : jsstring) : option Match :=
  match run_at r i s with
  | Some (_, m, rest, c) =>
      Some {| index := i; matched := m; after := rest; groups := c |}
  | None =>
      match s with
      | [] => None
      | _ :: s' => search r (S i) s'
      end
  end.

(** [s.match(r)] for a regex without the [g] flag. *)
Definition match_ (r : regex) (s : jsstring) : option Match := search r 0 s.

(** [r.test(s)]. *)
Definition test (r : regex) (s : jsstring) : bool :=
  match match_ r s with Some _ => true | None => false end.

(** [m[n]]; every group of the source takes part in every match. *)
Fixpoint group (n : nat) (c : caps) : jsstring :=
  match c with
  | [] => []
  | (k, v) :: c' => if (k =? n)%nat then v else group n c'
  end.

(** [s.replace(r, by)] without the [g] flag. *)
Definition replace (r : regex) (by_ : jsstring) (s : jsstring) : jsstring :=
  match match_ r s with
  | Some m => take (index m) s ++ by_ ++ after m
  | None => s
  end.

(** [s.replace(r, by)] with the [g] flag: [s] is the input from index [i]
    on; an empty match steps over one code unit. *)
Fixpoint replace_from (fuel : nat) (r : regex) (by_ : jsstring)
    (i : nat) (s : jsstring) : jsstring :=
  match fuel with
  | O => s
  | S fuel' =>
      match search r i s with
      | None => s
      | Some m =>
          take (index m - i) s ++ by_ ++
          match matched m, after m with
          | [], x :: rest => x :: replace_from fuel' r by_ (S (index m)) rest
          | [], [] => []
          | _ :: _, rest =>
              replace_from fuel' r by_ (index m + length (matched m)) rest
          end
      end
  end.

Definition replace_all (r : regex) (by_ : jsstring) (s : jsstring) : jsstring :=
  replace_from (S (length s)) r by_ 0 s.

(** ** The task-line codec and the identifier manager *)

Definition SP : regex := star isSpace.

(** "/<!--\s*tid:([a-fA-F0-9]{6,32})\s*-->\s*$/"  *)
Definition TASK_ID_HTML_RE : regex :=
  cat [Lit (str "<!--"); SP; Lit (str "tid:"); Grp 1 (Rep isHex 6 (Some 32));
       SP; Lit (str "-->"); SP; Eol].

(** "/\{#t:([a-fA-F0-9]{6,32})\}\s*$/"  *)
Definition TASK_ID_LEGACY_RE : regex :=
  cat [Lit (str "{#t:"); Grp 1 (Rep isHex 6 (Some 32)); Lit (str "}"); SP; Eol].

Definition extractTaskId (text : jsstring) : option jsstring :=
  match match_ TASK_ID_HTML_RE text with
  | Some html => Some (group 1 (groups html))
  | None =>
      match match_ TASK_ID_LEGACY_RE text with
      | Some legacy => Some (group 1 (groups legacy))
      | None => None
      end
  end.

Definition hasCanonicalTaskId (text : jsstring) : bool :=
  test TASK_ID_HTML_RE text.

(** "/\s*<!--\s*tid:[a-fA-F0-9]{6,32}\s*-->\s*$/"  *)
Definition STRIP_HTML_RE : regex :=
  cat [SP; Lit (str "<!--"); SP; Lit (str "tid:"); Rep isHex 6 (Some 32);
       SP; Lit (str "-->"); SP; Eol].

(** "/\s*\{#t:[a-fA-F0-9]{6,32}\}\s*$/"  *)
Definition STRIP_LEGACY_RE : regex :=
  cat [SP; Lit (str "{#t:"); Rep isHex 6 (Some 32); Lit (str "}"); SP; Eol].

Definition stripTaskIdToken (text : jsstring) : jsstring :=
  trim (replace STRIP_LEGACY_RE [] (replace STRIP_HTML_RE [] text)).

Definition taskIdToken (id : jsstring) : jsstring :=
  str "<!-- tid:" ++ id ++ str " -->".

Definition ensureTaskIdOnLine (line id : jsstring) : jsstring :=
  trimEnd (stripTaskIdToken line ++ str " " ++ taskIdToken id).

(** [new RegExp(`<!--\\s*tid:${id}\\s*-->`)] and [new RegExp(`\\{#t:${id}\\}`)]:
    the identifier is spliced into the pattern; identifiers are runs of
    hexadecimal digits, which a pattern reads as literals. *)
Definition lineHasTaskId (line id : jsstring) : bool :=
  test (cat [Lit (str "<!--"); SP; Lit (str "tid:"); Lit id; SP; Lit (str "-->")]) line
  || test (cat [Lit (str "{#t:"); Lit id; Lit (str "}")]) line.

Record TaskMeta := {
  meta_estMin : option N;
  meta_actMin : option N;
  meta_reason : jsstring }.

(** [(?:^|\s)] *)
Definition BOUNDARY : regex := Alt Bol (Chr isSpace).

(** [(?=\s|$)] *)
Definition LOOK_END : regex := Ahead (Alt (Chr isSpace) Eol).

Definition EST_MARK : jsstring := HOURGLASS_FLOWING :: str "est:".
Definition ACT_MARK : jsstring := HOURGLASS_DONE :: str "act:".

(** "/(?:^|\s)⏳est:(\S+)(?=\s|$)/" ; the replacing copy has no group,
    which changes nothing in what it matches. *)
Definition EST_RE : regex :=
  cat [BOUNDARY; Lit EST_MARK; Grp 1 (plus nonSpace); LOOK_END].

(** "/(?:^|\s)⌛act:(\S+)(?=\s|$)/"  *)
Definition ACT_RE : regex :=
  cat [BOUNDARY; Lit ACT_MARK; Grp 1 (plus nonSpace); LOOK_END].

(** "/(?:^|\s)(?:✍️|✍)reason:(.* )$/"  (in these comments a group that
    ends in a star is closed after a space) *)
Definition REASON_RE : regex :=
  cat [BOUNDARY;
       Alt (Lit [WRITING_HAND; VARIATION_16]) (Lit [WRITING_HAND]);
       Lit (str "reason:"); Grp 1 (star dot); Eol].

(** [Number.isInteger(value) && value >= 0] after [Number(m[1])]. *)
Definition minutesOf (m : Match) : option N :=
  match Number (group 1 (groups m)) with
  | Num n => Some n
  | _ => None
  end.

Definition parseMeta (text : jsstring) : TaskMeta * jsstring :=
  let cleaned := stripTaskIdToken text in
  let estMin :=
    match match_ EST_RE cleaned with
    | Some estMatch => minutesOf estMatch
    | None => None
    end in
  let cleaned := replace_all EST_RE [32%N] cleaned in
  let actMin :=
    match match_ ACT_RE cleaned with
    | Some actMatch => minutesOf actMatch
    | None => None
    end in
  let cleaned := replace_all ACT_RE [32%N] cleaned in
  let '(reason, cleaned) :=
    match match_ REASON_RE cleaned with
    | Some reasonMatch =>
        (trim (group 1 (groups reasonMatch)),
         trim (take (index reasonMatch) cleaned))
    | None => ([], cleaned)
    end in
  let cleaned := trim (replace_all (plus isSpace) [32%N] cleaned) in
  ({| meta_estMin := estMin; meta_actMin := actMin; meta_reason := reason |},
   cleaned).

Definition cleanedText (text : jsstring) : jsstring := snd (parseMeta text).

Definition REASON_MARK : jsstring :=
  WRITING_HAND :: VARIATION_16 :: str "reason:".

Definition nonEmpty (s : jsstring) : bool :=
  match s with [] => false | _ :: _ => true end.

Definition buildTaskLine (checked : bool) (cleanedText_ : jsstring)
    (meta : TaskMeta) (id : jsstring) : jsstring :=
  let parts := [str "- [" ++ (if checked then str "x" else str " ") ++ str "]"] in
  let baseText := cleanedText cleanedText_ in
  let parts := if nonEmpty baseText then parts ++ [baseText] else parts in
  let parts :=
    match meta_estMin meta with
    | Some n => parts ++ [EST_MARK ++ String_ n]
    | None => parts
    end in
  let parts :=
    match meta_actMin meta with
    | Some n => parts ++ [ACT_MARK ++ String_ n]
    | None => parts
    end in
  let reason := trim (meta_reason meta) in
  let parts := if nonEmpty reason then parts ++ [REASON_MARK ++ reason] else parts in
  let parts := parts ++ [taskIdToken id] in
  join_space parts.

Record Task := {
  t_id : jsstring;
  t_lineIndex : nat;
  t_text : jsstring;
  t_done : bool;
  t_hasId : bool;
  t_estMin : option N;
  t_actMin : option N;
  t_reason : jsstring }.

Definition isMark (c : N) : bool := ((c =? 32) || (c =? 120) || (c =? 88))%N.

(** "/^\s*-\s*\[( |x|X)\]\s+(.* )$/"  *)
Definition TASK_RE : regex :=
  cat [Bol; SP; Lit (str "-"); SP; Lit (str "["); Grp 1 (Chr isMark);
       Lit (str "]"); plus isSpace; Grp 2 (star dot); Eol].

(** "/^\s*-\s*\[( |x|X)\]\s+/"  *)
Definition TASK_PREFIX_RE : regex :=
  cat [Bol; SP; Lit (str "-"); SP; Lit (str "["); Grp 1 (Chr isMark);
       Lit (str "]"); plus isSpace].

(** "/^(\s*-\s*\[)( |x|X)(\]\s+.* )$/"  *)
Definition TOGGLE_RE : regex :=
  cat [Bol; Grp 1 (cat [SP; Lit (str "-"); SP; Lit (str "[")]);
       Grp 2 (Chr isMark);
       Grp 3 (cat [Lit (str "]"); plus isSpace; star dot]); Eol].

(** The random source of [crypto.getRandomValues]: an unbounded stream of
    bytes, read from a cursor. *)
Definition entropy : Type := nat -> N.

Definition hexDigit (d : N) : N := if (d <? 10)%N then (48 + d)%N else (87 + d)%N.

(** [b.toString(16).padStart(2, "0")] for a byte. *)
Definition hexByte (b : N) : jsstring :=
  let b := (b mod 256)%N in [hexDigit (b / 16); hexDigit (b mod 16)].

(** [genTaskId]: four fresh bytes, eight hexadecimal digits; returns the
    advanced cursor. *)
Definition genTaskId (rnd : entropy) (pos : nat) : jsstring * nat :=
  (hexByte (rnd pos) ++ hexByte (rnd (pos + 1)) ++ hexByte (rnd (pos + 2))
   ++ hexByte (rnd (pos + 3)), pos + 4).

(** The body of the loop of [parseTasks] for line [i]. *)
Definition parseLine (rnd : entropy) (pos : nat) (i : nat) (line : jsstring)
    : option Task * nat :=
  match match_ TASK_RE line with
  | None => (None, pos)
  | Some m =>
      let done := streq (toLowerCase (group 1 (groups m))) (str "x") in
      let rest := trim (group 2 (groups m)) in
      let existingId := extractTaskId rest in
      let '(id, pos') :=
        match existingId with
        | Some id => (id, pos)
        | None => genTaskId rnd pos
        end in
      let hasId := hasCanonicalTaskId rest in
      let '(parsedMeta, displayText) := parseMeta rest in
      (Some {| t_id := id; t_lineIndex := i; t_text := displayText;
               t_done := done; t_hasId := hasId;
               t_estMin := meta_estMin parsedMeta;
               t_actMin := meta_actMin parsedMeta;
               t_reason := meta_reason parsedMeta |}, pos')
  end.

Fixpoint parseLines (rnd : entropy) (pos : nat) (i : nat) (lines : list jsstring)
    : list Task * nat :=
  match lines with
  | [] => ([], pos)
  | line :: lines' =>
      let '(t, pos1) := parseLine rnd pos i line in
      let '(ts, pos2) := parseLines rnd pos1 (S i) lines' in
      (match t with Some t => t :: ts | None => ts end, pos2)
  end.

Definition parseTasks (rnd : entropy) (pos : nat) (md : jsstring)
    : list Task * nat :=
  parseLines rnd pos 0 (split_lines md).

(** ** Dates

    A [Date] in local time: the number of the local calendar day, counted
    from 1970-01-01, and the milliseconds since local midnight.  Time
    zones and daylight saving are outside the model. *)

Record Date := { dayNumber : Z; msOfDay : Z }.

(** Days from 1970-01-01 to the given civil date (month 1..12), as
    MakeDay of ECMAScript computes them for a month in range. *)
Definition daysFromCivil (y m d : Z) : Z :=
  let y := (if m <=? 2 then y - 1 else y)%Z in
  let era := (y / 400)%Z in
  let yoe := (y - era * 400)%Z in
  let mp := (if 2 <? m then m - 3 else m + 9)%Z in
  let doy := ((153 * mp + 2) / 5 + d - 1)%Z in
  let doe := (yoe * 365 + yoe / 4 - yoe / 100 + doy)%Z in
  (era * 146097 + doe - 719468)%Z.

(** Year and month (1..12) of a day number. *)
Definition civilYearMonth (days : Z) : Z * Z :=
  let z := (days + 719468)%Z in
  let era := (z / 146097)%Z in
  let doe := (z - era * 146097)%Z in
  let yoe := ((doe - doe / 1460 + doe / 36524 - doe / 146096) / 365)%Z in
  let doy := (doe - (365 * yoe + yoe / 4 - yoe / 100))%Z in
  let mp := ((5 * doy + 2) / 153)%Z in
  let m := (if mp <? 10 then mp + 3 else mp - 9)%Z in
  ((if m <=? 2 then yoe + era * 400 + 1 else yoe + era * 400)%Z, m).

Definition getFullYear (d : Date) : Z := fst (civilYearMonth (dayNumber d)).

(** [getMonth]: 0 for January. *)
Definition getMonth (d : Date) : Z := (snd (civilYearMonth (dayNumber d)) - 1)%Z.

(** [getDate]: the day of the month, from 1. *)
Definition getDate (d : Date) : Z :=
  (dayNumber d - daysFromCivil (getFullYear d) (getMonth d + 1) 1 + 1)%Z.

(** [setDate(n)]: day [n] of the current month; [n] outside the month
    runs over into the neighbouring months. *)
Definition setDate (d : Date) (n : Z) : Date :=
  {| dayNumber := (daysFromCivil (getFullYear d) (getMonth d + 1) 1 + n - 1)%Z;
     msOfDay := msOfDay d |}.

(** [getDay]: Sunday is 0; 1970-01-01 was a Thursday. *)
Definition getDay (d : Date) : Z := ((dayNumber d + 4) mod 7)%Z.

(** [setHours(0, 0, 0, 0)]. *)
Definition setHoursZero (d : Date) : Date :=
  {| dayNumber := dayNumber d; msOfDay := 0 |}.

Definition startOfWeekMonday (d : Date) : Date :=
  let x := setHoursZero d in
  let day := getDay x in
  let diff := (if day =? 0 then -6 else 1 - day)%Z in
  setDate x (getDate x + diff).

Definition addDays (d : Date) (n : Z) : Date := setDate d (getDate d + n).

(** [String(z)] for an integer. *)
Definition String_Z (z : Z) : jsstring :=
  if (z <? 0)%Z then 45%N :: String_ (Z.to_N (- z)) else String_ (Z.to_N z).

(** [String(n).padStart(2, "0")]. *)
Definition pad2 (n : Z) : jsstring :=
  let s := String_Z n in
  match s with
  | [_] => 48%N :: s
  | _ => s
  end.

Definition toYMD (d : Date) : jsstring :=
  String_Z (getFullYear d) ++ str "-" ++ pad2 (getMonth d + 1) ++ str "-"
  ++ pad2 (getDate d).

(** ** Content hash *)

(** ToInt32. *)
Definition toInt32 (z : Z) : Z := ((z + 2 ^ 31) mod 2 ^ 32 - 2 ^ 31)%Z.

(** [h = ((h << 5) + h) ^ s.charCodeAt(i)]: the shift and the exclusive or
    work on 32-bit integers, the sum is exact. *)
Definition hashStep (h : Z) (c : N) : Z :=
  Z.lxor (toInt32 (toInt32 (h * 32) + h)) (Z.of_N c).

(** djb2, then [(h >>> 0).toString(16)]. *)
Definition hashString (s : jsstring) : jsstring :=
  toRadix 16 (Z.to_N (fold_left hashStep s 5381%Z mod 2 ^ 32)).

(** ** The world: files, React state, refs and a trace *)

Record DayData := {
  date : Date;
  ymd : jsstring;
  filePath : jsstring;
  tasks : list Task;
  missing : bool }.

Record TaskMetaDraft := {
  draft_estMin : jsstring;
  draft_actMin : jsstring;
  draft_reason : jsstring }.

(** What the error panel shows: a message of the application, or the
    text of a failed file operation. *)
Inductive notice :=
| Message (s : jsstring)
| IoFailure (path : jsstring).

(** The trace: the calls into the file-system plugin, and the entries
    into [loadWeek]. *)
Inductive event :=
| EvExists (path : jsstring)
| EvRead (path : jsstring)
| EvWrite (path content : jsstring)
| EvLoadWeek.

Record World := {
  files : gmap jsstring jsstring;
  rnd : entropy;
  rndPos : nat;
  anchor : Date;
  todoDir : jsstring;
  days : list DayData;
  busy : bool;
  error : option notice;
  newTaskByDay : gmap jsstring jsstring;
  metaDraftByTask : gmap jsstring TaskMetaDraft;
  isEditing : bool;
  lastHashes : gmap jsstring jsstring;
  trace : list event }.

Definition setFiles (v : gmap jsstring jsstring) (w : World) : World :=
  {| files := v; rnd := rnd w; rndPos := rndPos w; anchor := anchor w;
     todoDir := todoDir w; days := days w; busy := busy w; error := error w;
     newTaskByDay := newTaskByDay w; metaDraftByTask := metaDraftByTask w;
     isEditing := isEditing w; lastHashes := lastHashes w; trace := trace w |}.

Definition setRndPos (v : nat) (w : World) : World :=
  {| files := files w; rnd := rnd w; rndPos := v; anchor := anchor w;
     todoDir := todoDir w; days := days w; busy := busy w; error := error w;
     newTaskByDay := newTaskByDay w; metaDraftByTask := metaDraftByTask w;
     isEditing := isEditing w; lastHashes := lastHashes w; trace := trace w |}.

Definition setDays (v : list DayData) (w : World) : World :=
  {| files := files w; rnd := rnd w; rndPos := rndPos w; anchor := anchor w;
     todoDir := todoDir w; days := v; busy := busy w; error := error w;
     newTaskByDay := newTaskByDay w; metaDraftByTask := metaDraftByTask w;
     isEditing := isEditing w; lastHashes := lastHashes w; trace := trace w |}.

Definition setBusy (v : bool) (w : World) : World :=
  {| files := files w; rnd := rnd w; rndPos := rndPos w; anchor := anchor w;
     todoDir := todoDir w; days := days w; busy := v; error := error w;
     newTaskByDay := newTaskByDay w; metaDraftByTask := metaDraftByTask w;
     isEditing := isEditing w; lastHashes := lastHashes w; trace := trace w |}.

Definition setError (v : option notice) (w : World) : World :=
  {| files := files w; rnd := rnd w; rndPos := rndPos w; anchor := anchor w;
     todoDir := todoDir w; days := days w; busy := busy w; error := v;
     newTaskByDay := newTaskByDay w; metaDraftByTask := metaDraftByTask w;
     isEditing := isEditing w; lastHashes := lastHashes w; trace := trace w |}.

Definition setNewTaskByDay (v : gmap jsstring jsstring) (w : World) : World :=
  {| files := files w; rnd := rnd w; rndPos := rndPos w; anchor := anchor w;
     todoDir := todoDir w; days := days w; busy := busy w; error := error w;
     newTaskByDay := v; metaDraftByTask := metaDraftByTask w;
     isEditing := isEditing w; lastHashes := lastHashes w; trace := trace w |}.

Definition setMetaDraftByTask (v : gmap jsstring TaskMetaDraft) (w : World) : World :=
  {| files := files w; rnd := rnd w; rndPos := rndPos w; anchor := anchor w;
     todoDir := todoDir w; days := days w; busy := busy w; error := error w;
     newTaskByDay := newTaskByDay w; metaDraftByTask := v;
     isEditing := isEditing w; lastHashes := lastHashes w; trace := trace w |}.

Definition setLastHashes (v : gmap jsstring jsstring) (w : World) : World :=
  {| files := files w; rnd := rnd w; rndPos := rndPos w; anchor := anchor w;
     todoDir := todoDir w; days := days w; busy := busy w; error := error w;
     newTaskByDay := newTaskByDay w; metaDraftByTask := metaDraftByTask w;
     isEditing := isEditing w; lastHashes := v; trace := trace w |}.

Definition emit (e : event) (w : World) : World :=
  {| files := files w; rnd := rnd w; rndPos := rndPos w; anchor := anchor w;
     todoDir := todoDir w; days := days w; busy := busy w; error := error w;
     newTaskByDay := newTaskByDay w; metaDraftByTask := metaDraftByTask w;
     isEditing := isEditing w; lastHashes := lastHashes w;
     trace := trace w ++ [e] |}.

(** *** Asynchronous functions: state and exceptions *)

Inductive outcome (A : Type) :=
| Ok (a : A)
| Thrown (e : notice).
Arguments Ok {A} a.
Arguments Thrown {A} e.

Definition M (A : Type) : Type := World -> outcome A * World.

Definition ret {A} (a : A) : M A := fun w => (Ok a, w).

Definition bind {A B} (m : M A) (f : A -> M B) : M B :=
  fun w =>
    match m w with
    | (Ok a, w') => f a w'
    | (Thrown e, w') => (Thrown e, w')
    end.

Notation "x <- m ;; k" := (bind m (fun x => k))
  (at level 100, m at next level, right associativity).
Notation "m ;;; k" := (bind m (fun _ => k))
  (at level 100, right associativity).

(** A state update that cannot fail. *)
Definition act (f : World -> World) : M unit := fun w => (Ok tt, f w).

(** [try { body } catch (e) { handler(e) } finally { last }]. *)
Definition tryCatchFinally (body : M unit) (handler : notice -> M unit)
    (last : M unit) : M unit :=
  fun w =>
    match body w with
    | (Ok _, w1) => last w1
    | (Thrown e, w1) =>
        match handler e w1 with
        | (Ok _, w2) => last w2
        | (Thrown e', w2) =>
            match last w2 with
            | (Ok _, w3) => (Thrown e', w3)
            | r => r
            end
        end
    end.

(** The plugin calls.  [exists] and [writeTextFile] succeed; reading a
    path that holds no file is the failure of the model. *)
Definition exists_ (path : jsstring) : M bool :=
  fun w => (Ok (bool_decide (is_Some (files w !! path))), emit (EvExists path) w).

Definition readTextFile (path : jsstring) : M jsstring :=
  fun w =>
    match files w !! path with
    | Some md => (Ok md, emit (EvRead path) w)
    | None => (Thrown (IoFailure path), emit (EvRead path) w)
    end.

Definition writeTextFile (path content : jsstring) : M unit :=
  fun w => (Ok tt, emit (EvWrite path content) (setFiles (<[path := content]> (files w)) w)).

(** [parseTasks] on the world's random source. *)
Definition parseTasksM (md : jsstring) : M (list Task) :=
  fun w =>
    let '(ts, pos) := parseTasks (rnd w) (rndPos w) md in
    (Ok ts, setRndPos pos w).

Definition genTaskIdM : M jsstring :=
  fun w =>
    let '(id, pos) := genTaskId (rnd w) (rndPos w) in
    (Ok id, setRndPos pos w).

(** *** Loading a week *)

(** One round of the migration loop of [loadWeek].  A task's line index
    is always inside [lines], so the assignment never extends the array. *)
Definition migrateTask (st : list jsstring * bool) (t : Task) : list jsstring * bool :=
  let '(lines, changed) := st in
  if t_hasId t then st
  else
    let original := default [] (lines !! t_lineIndex t) in
    if test TASK_PREFIX_RE original
    then (<[t_lineIndex t := ensureTaskIdOnLine original (t_id t)]> lines, true)
    else st.

Definition migrate (lines : list jsstring) (ts : list Task) : list jsstring * bool :=
  fold_left migrateTask ts (lines, false).

(** The migration pass on the text of one file: the lines after the pass,
    whether any line changed (a file write follows exactly then), and the
    cursor of the random source. *)
Definition migrationPass (rnd : entropy) (pos : nat) (md : jsstring)
    : list jsstring * bool * nat :=
  let '(ts, pos') := parseTasks rnd pos md in
  let '(lines, changed) := migrate (split_lines md) ts in
  (lines, changed, pos').

Definition draftOfTask (t : Task) : TaskMetaDraft :=
  {| draft_estMin := match t_estMin t with None => [] | Some n => String_ n end;
     draft_actMin := match t_actMin t with None => [] | Some n => String_ n end;
     draft_reason := t_reason t |}.

Definition weekStart (w : World) : Date := startOfWeekMonday (anchor w).

(** The body of the loop over the seven days. *)
Definition loadDay (i : Z) : M DayData :=
  fun w =>
    let date := addDays (weekStart w) i in
    let ymd := toYMD date in
    let filePath := todoDir w ++ str "/" ++ ymd ++ str ".md" in
    (fileExists <- exists_ filePath ;;
     if negb fileExists
     then ret {| date := date; ymd := ymd; filePath := filePath;
                 tasks := []; missing := true |}
     else
       md <- readTextFile filePath ;;
       act (fun w => setLastHashes (<[ymd := hashString md]> (lastHashes w)) w) ;;;
       tasks <- parseTasksM md ;;
       let '(lines, changed) := migrate (split_lines md) tasks in
       (if changed
        then
          let nextMd := join_lines lines in
          writeTextFile filePath nextMd ;;;
          act (fun w => setLastHashes (<[ymd := hashString nextMd]> (lastHashes w)) w)
        else ret tt) ;;;
       tasks2 <- (if changed then parseTasksM (join_lines lines) else ret tasks) ;;
       ret {| date := date; ymd := ymd; filePath := filePath;
              tasks := tasks2; missing := false |}) w.

Fixpoint loadDays (ixs : list Z) : M (list DayData) :=
  match ixs with
  | [] => ret []
  | i :: ixs' =>
      d <- loadDay i ;;
      ds <- loadDays ixs' ;;
      ret (d :: ds)
  end.

Definition nextMetaDrafts (list_ : list DayData) : gmap jsstring TaskMetaDraft :=
  fold_left
    (fun m day => fold_left (fun m t => <[t_id t := draftOfTask t]> m) (tasks day) m)
    list_ ∅.

Definition loadWeek : M unit :=
  fun w =>
    (act (emit EvLoadWeek) ;;;
     act (setBusy true) ;;;
     act (setError None) ;;;
     if negb (nonEmpty (todoDir w))
     then
       act (setDays []) ;;;
       act (setMetaDraftByTask ∅) ;;;
       act (setBusy false)
     else
       tryCatchFinally
         (list_ <- loadDays [0; 1; 2; 3; 4; 5; 6]%Z ;;
          act (setDays list_) ;;;
          act (setMetaDraftByTask (nextMetaDrafts list_)))
         (fun e => act (setError (Some e)))
         (act (setBusy false))) w.

(** *** The change watcher *)

(** The loop of a poll tick over the days of the view. *)
Fixpoint watchDays (ds : list DayData) : M unit :=
  match ds with
  | [] => ret tt
  | day :: ds' =>
      if missing day then watchDays ds'
      else
        md <- readTextFile (filePath day) ;;
        fun w =>
          let h := hashString md in
          match lastHashes w !! ymd day with
          | Some prev =>
              if nonEmpty prev && negb (streq h prev)
              then loadWeek w
              else watchDays ds' w
          | None => watchDays ds' w
          end
  end.

(** The callback of the polling interval. *)
Definition watcherTick : M unit :=
  fun w =>
    if busy w || isEditing w then ret tt w
    else tryCatchFinally (watchDays (days w)) (fun _ => ret tt) (ret tt) w.

(** *** Mutations *)

Definition MSG_NOT_FOUND : jsstring :=
  str "Could not find this task in the file (it may have been edited in Obsidian). Reloading...".
Definition MSG_NOT_TASK : jsstring :=
  str "Selected line is not a task anymore. Reloading...".
Definition MSG_EST : jsstring := str "est must be a non-negative integer.".
Definition MSG_ACT : jsstring := str "act must be a non-negative integer.".
Definition MSG_REASON : jsstring :=
  str "reason is required when act is greater than est.".

(** [lines.findIndex(l => lineHasTaskId(l, id))]; [None] stands for -1. *)
Fixpoint findIndex (p : jsstring -> bool) (lines : list jsstring) : option nat :=
  match lines with
  | [] => None
  | l :: lines' => if p l then Some 0 else S <$> findIndex p lines'
  end.

Definition createEmptyDayFile (day : DayData) : M unit :=
  writeTextFile (filePath day) (str "## Todo" ++ [LF; LF]) ;;;
  loadWeek.

Definition toggleTask (day : DayData) (task : Task) : M unit :=
  tryCatchFinally
    (act (setBusy true) ;;;
     act (setError None) ;;;
     md <- readTextFile (filePath day) ;;
     let lines := split_lines md in
     match findIndex (fun l => lineHasTaskId l (t_id task)) lines with
     | None =>
         act (setError (Some (Message MSG_NOT_FOUND))) ;;;
         loadWeek
     | Some idx =>
         let line := default [] (lines !! idx) in
         match match_ TOGGLE_RE line with
         | None =>
             act (setError (Some (Message MSG_NOT_TASK))) ;;;
             loadWeek
         | Some m =>
             let current := streq (toLowerCase (group 2 (groups m))) (str "x") in
             let nextMark := if current then str " " else str "x" in
             let lines :=
               <[idx := group 1 (groups m) ++ nextMark ++ group 3 (groups m)]> lines in
             writeTextFile (filePath day) (join_lines lines) ;;;
             loadWeek
         end
     end)
    (fun e => act (setError (Some e)))
    (act (setBusy false)).

Definition setDraft (ymd_ value : jsstring) : M unit :=
  act (fun w => setNewTaskByDay (<[ymd_ := value]> (newTaskByDay w)) w).

Definition getDraft (w : World) (ymd_ : jsstring) : jsstring :=
  default [] (newTaskByDay w !! ymd_).

Definition getTaskMetaDraft (w : World) (task : Task) : TaskMetaDraft :=
  default (draftOfTask task) (metaDraftByTask w !! t_id task).

(** "/^\d+$/" *)
Definition DIGITS_RE : regex := cat [Bol; plus isDigit; Eol].

(** [null] is [None]; the number is [NaN] for a draft that is not a run
    of digits. *)
Definition parseDraftMinutes (raw : jsstring) : option number :=
  let value := trim raw in
  if negb (nonEmpty value) then None
  else if negb (test DIGITS_RE value) then Some NaN
  else Some (Number value).

(** Insertion index of [addTask]: behind the first line that reads
    "## todo" once trimmed and lowered, and behind the blank lines that
    follow it; the end of the file without such a line. *)
Fixpoint skipBlank (insertAt : nat) (rest : list jsstring) : nat :=
  match rest with
  | l :: rest' => if negb (nonEmpty (trim l)) then skipBlank (S insertAt) rest' else insertAt
  | [] => insertAt
  end.

Fixpoint findInsertAt (i : nat) (lines : list jsstring) : nat :=
  match lines with
  | [] => i
  | l :: lines' =>
      if streq (toLowerCase (trim l)) (str "## todo")
      then skipBlank (S i) lines'
      else findInsertAt (S i) lines'
  end.

(** [lines.splice(insertAt, 0, taskLine)]. *)
Definition spliceIn (insertAt : nat) (x : jsstring) (lines : list jsstring) : list jsstring :=
  take insertAt lines ++ x :: drop insertAt lines.

Definition addTask (day : DayData) : M unit :=
  fun w =>
    let text := trim (getDraft w (ymd day)) in
    if negb (nonEmpty text) then ret tt w
    else
      tryCatchFinally
        (act (setBusy true) ;;;
         act (setError None) ;;;
         fileExists <- exists_ (filePath day) ;;
         (if negb fileExists
          then writeTextFile (filePath day) (str "## Todo" ++ [LF; LF])
          else ret tt) ;;;
         md <- readTextFile (filePath day) ;;
         let lines := split_lines md in
         let insertAt := findInsertAt 0 lines in
         id <- genTaskIdM ;;
         let taskLine := str "- [ ] " ++ text ++ str " " ++ taskIdToken id in
         let lines := spliceIn insertAt taskLine lines in
         writeTextFile (filePath day) (join_lines lines) ;;;
         setDraft (ymd day) [] ;;;
         loadWeek)
        (fun e => act (setError (Some e)))
        (act (setBusy false)) w.

Definition isNaN (v : option number) : bool :=
  match v with Some NaN => true | _ => false end.

(** [estMin !== null && actMin !== null && actMin > estMin]. *)
Definition overrun (estMin actMin : option number) : bool :=
  match estMin, actMin with
  | Some (Num e), Some (Num a) => (e <? a)%N
  | _, _ => false
  end.

(** The minutes handed to [buildTaskLine], once [NaN] is excluded: a run
    of digits is always read as an integer. *)
Definition minutes (v : option number) : option N :=
  match v with
  | Some (Num n) => Some n
  | _ => None
  end.

Definition saveTaskMeta (day : DayData) (task : Task) : M unit :=
  fun w =>
    let draft := getTaskMetaDraft w task in
    let estMin := parseDraftMinutes (draft_estMin draft) in
    let actMin := parseDraftMinutes (draft_actMin draft) in
    let reason := trim (draft_reason draft) in
    if isNaN estMin then act (setError (Some (Message MSG_EST))) w
    else if isNaN actMin then act (setError (Some (Message MSG_ACT))) w
    else if overrun estMin actMin && negb (nonEmpty reason)
    then act (setError (Some (Message MSG_REASON))) w
    else
      tryCatchFinally
        (act (setBusy true) ;;;
         act (setError None) ;;;
         md <- readTextFile (filePath day) ;;
         let lines := split_lines md in
         match findIndex (fun l => lineHasTaskId l (t_id task)) lines with
         | None =>
             act (setError (Some (Message MSG_NOT_FOUND))) ;;;
             loadWeek
         | Some idx =>
             let line := default [] (lines !! idx) in
             match match_ TASK_RE line with
             | None =>
                 act (setError (Some (Message MSG_NOT_TASK))) ;;;
                 loadWeek
             | Some m =>
                 let checked := streq (toLowerCase (group 1 (groups m))) (str "x") in
                 let parsed := parseMeta (trim (group 2 (groups m))) in
                 let lines :=
                   <[idx := buildTaskLine checked (snd parsed)
                              {| meta_estMin := minutes estMin;
                                 meta_actMin := minutes actMin;
                                 meta_reason := reason |}
                              (t_id task)]> lines in
                 writeTextFile (filePath day) (join_lines lines) ;;;
                 loadWeek
             end
         end)
        (fun e => act (setError (Some e)))
        (act (setBusy false)) w.

Definition deleteTask (day : DayData) (task : Task) : M unit :=
  tryCatchFinally
    (act (setBusy true) ;;;
     act (setError None) ;;;
     md <- readTextFile (filePath day) ;;
     let lines := split_lines md in
     match findIndex (fun l => lineHasTaskId l (t_id task)) lines with
     | None =>
         act (setError (Some (Message MSG_NOT_FOUND))) ;;;
         loadWeek
     | Some idx =>
         let lines := take idx lines ++ drop (S idx) lines in
         writeTextFile (filePath day) (join_lines lines) ;;;
         act (fun w => setMetaDraftByTask (delete (t_id task) (metaDraftByTask w)) w) ;;;
         loadWeek
     end)
    (fun e => act (setError (Some e)))
    (act (setBusy false)).

(** ** Declarative reading of a regular expression

    [Matches r i s c u s' c']: at index [i], on the input [s] and with the
    captures [c], the expression [r] can consume [u], leaving [s'], with
    the captures [c'].  The matcher picks, among these, the one of highest
    priority. *)

Inductive Matches : regex -> nat -> jsstring -> caps -> jsstring -> jsstring -> caps -> Prop :=
| M_Eps i s c : Matches Eps i s c [] s c
| M_Chr p i x s c : p x = true -> Matches (Chr p) i (x :: s) c [x] s c
| M_Lit l i s c : Matches (Lit l) i (l ++ s) c l s c
| M_Seq a b i s c u1 s1 c1 u2 s2 c2 :
    Matches a i s c u1 s1 c1 ->
    Matches b (i + length u1) s1 c1 u2 s2 c2 ->
    Matches (Seq a b) i s c (u1 ++ u2) s2 c2
| M_AltL a b i s c u s' c' :
    Matches a i s c u s' c' -> Matches (Alt a b) i s c u s' c'
| M_AltR a b i s c u s' c' :
    Matches b i s c u s' c' -> Matches (Alt a b) i s c u s' c'
| M_Rep p lo hi i u s c :
    allb p u = true -> lo <= length u ->
    (forall h, hi = Some h -> length u <= h) ->
    Matches (Rep p lo hi) i (u ++ s) c u s c
| M_Bol s c : Matches Bol 0 s c [] s c
| M_Eol i c : Matches Eol i [] c [] [] c
| M_Ahead a i s c u s' c' :
    Matches a i s c u s' c' -> Matches (Ahead a) i s c [] s c
| M_Grp n a i s c u s' c' :
    Matches a i s c u s' c' -> Matches (Grp n a) i s c u s' ((n, u) :: c').

(** ** Notions used in the statements *)

(** The example line of the specification, as it is printed there. *)
Definition specExampleLine : jsstring :=
  str "- [ ] Buy milk est:30 act:45 reason:ran late <!-- tid:ab12cd34 -->".

(** The same line with the markers that [buildTaskLine] writes. *)
Definition markedExampleLine : jsstring :=
  str "- [ ] Buy milk " ++ EST_MARK ++ str "30 " ++ ACT_MARK ++ str "45 "
  ++ REASON_MARK ++ str "ran late <!-- tid:ab12cd34 -->".

(** A random source for the examples. *)
Definition exampleEntropy : entropy := fun n => N.of_nat (37 * n + 5).

(** The Monday-to-Sunday week of a date, counted from the week of
    Monday 1969-12-29. *)
Definition weekOf (d : Date) : Z := ((dayNumber d + 3) / 7)%Z.

(** The instant of a date in local milliseconds. *)
Definition instant (d : Date) : Z := (dayNumber d * 86400000 + msOfDay d)%Z.

(** An example: the file of Monday 2026-10-26 with two tasks, in an idle
    view of that week. *)
Definition examplePath : jsstring := str "/Users/me/todo/2026-10-26.md".

Definition exampleFile : jsstring :=
  join_lines [str "## Todo"; []; str "- [ ] write <!-- tid:abcdef12 -->";
              str "- [x] read <!-- tid:0123abcd -->"].

Definition exampleTask : Task :=
  {| t_id := str "abcdef12"; t_lineIndex := 2; t_text := str "write";
     t_done := false; t_hasId := true; t_estMin := None; t_actMin := None;
     t_reason := [] |}.

Definition exampleDay : DayData :=
  {| date := {| dayNumber := 20752; msOfDay := 0 |}; ymd := str "2026-10-26";
     filePath := examplePath; tasks := [exampleTask]; missing := false |}.

Definition exampleWorld : World :=
  {| files := {[ examplePath := exampleFile ]};
     rnd := exampleEntropy; rndPos := 0;
     anchor := {| dayNumber := 20754; msOfDay := 1000 |};
     todoDir := str "/Users/me/todo";
     days := [exampleDay]; busy := false; error := None;
     newTaskByDay := ∅; metaDraftByTask := ∅; isEditing := false;
     lastHashes := {[ str "2026-10-26" := hashString exampleFile ]};
     trace := [] |}.

(** The frame of a toggle on [line], line [idx] of the text [md] of the
    day's file: the line splits around its mark, and [toggleTask] reads
    the file, writes it back with the mark flipped and nothing else
    changed, and reloads the week. *)
Definition toggleFrame (w : World) (day : DayData) (task : Task)
    (md : jsstring) (idx : nat) (line : jsstring) : Prop :=
  exists pre c post,
    line = pre ++ [91%N] ++ [c] ++ [93%N] ++ post
    /\ isMark c = true
    /\ let c' := if (c =? 32)%N then 120%N else 32%N in
       let line' := pre ++ [91%N] ++ [c'] ++ [93%N] ++ post in
       let md' := join_lines (<[idx := line']> (split_lines md)) in
       let w1 := emit (EvRead (filePath day)) (setError None (setBusy true w)) in
       let w2 := emit (EvWrite (filePath day) md')
                   (setFiles (<[filePath day := md']> (files w1)) w1) in
       c' <> c
       /\ split_lines md' = <[idx := line']> (split_lines md)
       /\ (forall j, j <> idx -> split_lines md' !! j = split_lines md !! j)
       /\ toggleTask day task w = (Ok tt, setBusy false (snd (loadWeek w2))).

(** ** Tactics *)

(** A line holds no line feed. *)
Definition noLF (l : jsstring) : Prop := Forall (fun c => c <> LF) l.

Ltac norm_str_in H :=
  repeat match type of H with
  | context [str ?s] =>
      let v := eval vm_compute in (str s) in change (str s) with v in H
  end.

Ltac norm_str :=
  repeat match goal with
  | |- context [str ?s] =>
      let v := eval vm_compute in (str s) in change (str s) with v
  end.

Ltac inv_M :=
  repeat match goal with
  | H : Matches (Seq _ _) _ _ _ _ _ _ |- _ => inversion H; clear H; subst
  | H : Matches (Lit _) _ _ _ _ _ _ |- _ => inversion H; clear H; subst
  | H : Matches (Chr _) _ _ _ _ _ _ |- _ => inversion H; clear H; subst
  | H : Matches (Grp _ _) _ _ _ _ _ _ |- _ => inversion H; clear H; subst
  | H : Matches (Rep _ _ _) _ _ _ _ _ _ |- _ => inversion H; clear H; subst
  | H : Matches Bol _ _ _ _ _ _ |- _ => inversion H; clear H; subst
  | H : Matches Eol _ _ _ _ _ _ |- _ => inversion H; clear H; subst
  | H : Matches Eps _ _ _ _ _ _ |- _ => inversion H; clear H; subst
  | H : Matches (Ahead _) _ _ _ _ _ _ |- _ => inversion H; clear H; subst
  | H : Matches (Alt _ _) _ _ _ _ _ _ |- _ => inversion H; clear H; subst
  end.

(** A task whose identifier no line of [exampleFile] carries. *)
Definition strayTask : Task :=
  {| t_id := str "deadbeef"; t_lineIndex := 2; t_text := str "gone";
     t_done := false; t_hasId := true; t_estMin := None; t_actMin := None;
     t_reason := [] |}.

Definition isWrite (e : event) : bool :=
  match e with EvWrite _ _ => true | _ => false end.

Definition isReload (e : event) : bool :=
  match e with EvLoadWeek => true | _ => false end.

(** What a mutation leaves behind when no line carries the identifier of
    its task: no write, one reload, and the state of the error panel. *)
Definition notFoundOutcome (w' : World) : list event * nat * option notice :=
  (filter (fun e => isWrite e = true) (trace w'),
   length (filter (fun e => isReload e = true) (trace w')),
   error w').

(** A draft that reads as a non-negative integer: one or more decimal
    digits. *)
Definition isIntegerText (s : jsstring) : bool := nonEmpty s && allb isDigit s.

(** The three drafts of a task, trimmed. *)
Definition draftEst (w : World) (task : Task) : jsstring :=
  trim (draft_estMin (getTaskMetaDraft w task)).
Definition draftAct (w : World) (task : Task) : jsstring :=
  trim (draft_actMin (getTaskMetaDraft w task)).
Definition draftReason (w : World) (task : Task) : jsstring :=
  trim (draft_reason (getTaskMetaDraft w task)).

(** The minutes a trimmed draft stands for: none when it is empty. *)
Definition draftMinutes (s : jsstring) : option N :=
  if nonEmpty s then Some (decimalVal s) else None.

(** The world after [saveTaskMeta] has read the text [md] of the day's
    file and written it back with line [idx] replaced by [newLine]. *)
Definition afterSave (w : World) (day : DayData) (md : jsstring) (idx : nat)
    (newLine : jsstring) : World :=
  let w1 := emit (EvRead (filePath day)) (setError None (setBusy true w)) in
  let md' := join_lines (<[idx := newLine]> (split_lines md)) in
  emit (EvWrite (filePath day) md') (setFiles (<[filePath day := md']> (files w1)) w1).

Ltac cmpN :=
  repeat match goal with
  | |- context [(?a =? ?b)%N] => destruct (N.eqb_spec a b)
  | |- context [(?a <=? ?b)%N] => destruct (N.leb_spec a b)
  | |- context [(?a <? ?b)%N] => destruct (N.ltb_spec a b)
  | H : context [(?a =? ?b)%N] |- _ => destruct (N.eqb_spec a b)
  | H : context [(?a <=? ?b)%N] |- _ => destruct (N.leb_spec a b)
  | H : context [(?a <? ?b)%N] |- _ => destruct (N.ltb_spec a b)
  end; simpl in *; try done; try lia.

(** The example world with drafts for [exampleTask]. *)
Definition draftWorld (est act reason : jsstring) : World :=
  setMetaDraftByTask
    {[ t_id exampleTask :=
         {| draft_estMin := est; draft_actMin := act; draft_reason := reason |} ]}
    exampleWorld.

(** The heading test of [addTask]: the line reads "## todo" once trimmed
    and lowered; and its blank test. *)
Definition isTodoHeading (l : jsstring) : bool :=
  streq (toLowerCase (trim l)) (str "## todo").

Definition isBlank (l : jsstring) : bool := negb (nonEmpty (trim l)).

(** The insertion rule as the specification words it: behind the first
    line that is literally "## Todo" and the blank lines that follow it,
    else at the end of the file. *)
Fixpoint literalInsertAt (i : nat) (lines : list jsstring) : nat :=
  match lines with
  | [] => i
  | l :: lines' =>
      if streq l (str "## Todo") then skipBlank (S i) lines'
      else literalInsertAt (S i) lines'
  end.

(** [k] is the insertion point of [lines]: the end of the file when no
    line is a heading; else behind the first heading [i] and the blank
    lines that follow it directly. *)
Definition insertionPoint (lines : list jsstring) (k : nat) : Prop :=
  (forall l, l ∈ lines -> isTodoHeading l = false) /\ k = length lines
  \/ exists i h,
       i < k <= length lines
       /\ lines !! i = Some h /\ isTodoHeading h = true
       /\ (forall j l, j < i -> lines !! j = Some l -> isTodoHeading l = false)
       /\ (forall j l, i < j < k -> lines !! j = Some l -> isBlank l = true)
       /\ (forall l, lines !! k = Some l -> isBlank l = false).

Definition TEMPLATE : jsstring := str "## Todo" ++ [LF; LF].

(** The example world with a draft of a new task for the example day,
    whose file has an upper-case heading. *)
Definition upperFile : jsstring :=
  join_lines [str "## TODO"; str "- [ ] old <!-- tid:0123abcd -->"].

Definition addWorld : World :=
  setNewTaskByDay {[ ymd exampleDay := str "new" ]}
    (setFiles {[ examplePath := upperFile ]} exampleWorld).

(** The text that the first write of a trace puts into the file. *)
Definition firstWritten (tr : list event) : option jsstring :=
  match filter (fun e => isWrite e = true) tr with
  | EvWrite _ content :: _ => Some content
  | _ => None
  end.

(** A run that adds events to the trace, none of them a reload. *)
Definition quietAt {A} (m : M A) (w : World) : Prop :=
  exists evs, trace (snd (m w)) = trace w ++ evs
    /\ Forall (fun e => isReload e = false) evs.

(** A run that throws nothing and leaves the error panel alone. *)
Definition calmAt {A} (m : M A) (w : World) : Prop :=
  exists a, fst (m w) = Ok a /\ error (snd (m w)) = error w.

(** Number of reloads in a trace. *)
Definition reloadCount (tr : list event) : nat :=
  length (filter (fun e => isReload e = true) tr).

(** The world after a poll tick has read the files of the days [ds] that
    are not missing. *)
Definition reads (ds : list DayData) (w : World) : World :=
  fold_left (fun w d => if missing d then w else emit (EvRead (filePath d)) w) ds w.

(** The day's file no longer hashes to the hash recorded for the day. *)
Definition dayChanged (w : World) (day : DayData) : bool :=
  negb (missing day) &&
  match files w !! filePath day, lastHashes w !! ymd day with
  | Some md, Some prev => nonEmpty prev && negb (streq (hashString md) prev)
  | _, _ => false
  end.

(** Every day of the view that is not missing has its file. *)
Definition readable (w : World) : Prop :=
  forall day, day ∈ days w -> missing day = false ->
    is_Some (files w !! filePath day).

(** The example world after another program has appended a line to the
    file of the example day. *)
Definition editedWorld : World :=
  setFiles {[ examplePath := exampleFile ++ LF :: str "- [ ] more" ]} exampleWorld.

(** Comparisons of code units, one at a time, closing the impossible
    branch at once. *)
Ltac cmpN1 :=
  repeat (match goal with
  | |- context [(?a =? ?b)%N] => destruct (N.eqb_spec a b); try lia
  | |- context [(?a <=? ?b)%N] => destruct (N.leb_spec a b); try lia
  | |- context [(?a <? ?b)%N] => destruct (N.ltb_spec a b); try lia
  end); simpl; try done; try lia.

(** Whitespace normalisation of a display text: every run of whitespace
    becomes one space, and the ends are trimmed. *)
Fixpoint collapse (s : jsstring) : jsstring :=
  match s with
  | [] => []
  | c :: s' =>
      if isSpace c then
        match s' with
        | c' :: _ => if isSpace c' then collapse s' else 32%N :: collapse s'
        | [] => [32%N]
        end
      else c :: collapse s'
  end.

Definition normalizeWs (s : jsstring) : jsstring := trim (collapse s).

(** An identifier: 6 to 32 hexadecimal digits. *)
Definition validId (id : jsstring) : Prop :=
  6 <= length id <= 32 /\ allb isHex id = true.

(** [m] occurs in [s]. *)
Fixpoint isPrefix (m s : jsstring) : bool :=
  match m, s with
  | [], _ => true
  | x :: m', y :: s' => (x =? y)%N && isPrefix m' s'
  | _ :: _, [] => false
  end.

Fixpoint includes (m s : jsstring) : bool :=
  isPrefix m s || match s with [] => false | _ :: s' => includes m s' end.

Ltac bool_to_prop H :=
  rewrite ?orb_true_iff, ?andb_true_iff, ?N.eqb_eq, ?N.leb_le, ?N.ltb_lt in H.


(** A string without whitespace at either end. *)
Definition clean (s : jsstring) : Prop := trim s = s.

(** A part of a built line with the space that follows it; nothing for an
    empty part. *)
Definition seg (x : jsstring) : jsstring :=
  if nonEmpty x then x ++ [32%N] else [].

Definition estToken (v : option N) : jsstring :=
  match v with Some n => EST_MARK ++ String_ n | None => [] end.

Definition actToken (v : option N) : jsstring :=
  match v with Some n => ACT_MARK ++ String_ n | None => [] end.

Definition reasonToken (r : jsstring) : jsstring :=
  if nonEmpty r then REASON_MARK ++ r else [].

(** The checkbox mark of a line. *)
Definition markOf (checked : bool) : N := if checked then 120%N else 32%N.

(** The text begins outside whitespace, or is empty. *)
Definition startsNonSpace (s : jsstring) : Prop :=
  match s with [] => True | y :: _ => isSpace y = false end.

(** A metadata record whose reason breaks the line. *)
Definition brokenReasonMeta : TaskMeta :=
  {| meta_estMin := None; meta_actMin := None;
     meta_reason := str "a" ++ [LF] ++ str "b" |}.

(** Lists of code units, associated to the right. *)
Ltac norm_app := repeat first [rewrite <- app_assoc | progress cbn [app]].

(** A checkbox line whose text does not end with the canonical token:
    the lines that the migration pass rewrites. *)
Definition lacksCanonicalId (line : jsstring) : bool :=
  match match_ TASK_RE line with
  | Some m => negb (hasCanonicalTaskId (trim (group 2 (groups m))))
  | None => false
  end.

(** A line that a migration pass leaves alone. *)
Definition settled (line : jsstring) : Prop := lacksCanonicalId line = false.

(** [l'] is the line [l] rewritten by the migration pass: [l] is a checkbox
    line, and [l'] is [ensureTaskIdOnLine l id] for the identifier that the
    parser gave the task, which is the identifier of the token at the end
    of its text (of a legacy token, here) or else a fresh one. *)
Definition rewritten (rnd : entropy) (l l' : jsstring) : Prop :=
  exists m id,
    match_ TASK_RE l = Some m /\ validId id
    /\ l' = ensureTaskIdOnLine l id
    /\ (extractTaskId (trim (group 2 (groups m))) = Some id
        \/ extractTaskId (trim (group 2 (groups m))) = None
           /\ exists p, id = fst (genTaskId rnd p)).

(** How the migration pass maps a line. *)
Definition migrated (rnd : entropy) (l l' : jsstring) : Prop :=
  if lacksCanonicalId l then rewritten rnd l l' else l' = l.

(** ** Notions of the round trip *)

(** The openers of the two identifier tokens. *)
Definition HTML_OPEN : jsstring := str "<!--".
Definition LEGACY_OPEN : jsstring := str "{#t:".

(** The reason marker without the variation selector. *)
Definition REASON_MARK_PLAIN : jsstring := WRITING_HAND :: str "reason:".

(** A display text without reserved token: it holds none of the three
    markers and no opener of an identifier token. *)
Definition reservedFree (text : jsstring) : Prop :=
  includes EST_MARK text = false /\ includes ACT_MARK text = false
  /\ includes REASON_MARK text = false /\ includes REASON_MARK_PLAIN text = false
  /\ includes HTML_OPEN text = false /\ includes LEGACY_OPEN text = false.

(** A reason that the line can carry: no line terminator once trimmed, no
    estimate or actual marker, no opener of a legacy token. *)
Definition plainReason (reason : jsstring) : Prop :=
  allb dot (trim reason) = true
  /\ includes EST_MARK reason = false /\ includes ACT_MARK reason = false
  /\ includes LEGACY_OPEN reason = false.

(** A reason that holds an estimate token. *)
Definition markedReasonMeta : TaskMeta :=
  {| meta_estMin := None; meta_actMin := None;
     meta_reason := str "see " ++ EST_MARK ++ str "5" |}.

(** A part of a line with the space that precedes it; nothing for an
    empty part. *)
Definition lead (x : jsstring) : jsstring :=
  if nonEmpty x then 32%N :: x else [].

(** The space that a removed token leaves. *)
Definition gap (v : option N) : jsstring :=
  match v with Some _ => [32%N] | None => [] end.

(** The pattern of an estimate or actual token with the marker [mark]:
    [EST_RE] and [ACT_RE] are its two instances. *)
Definition MARK_RE (mark : jsstring) : regex :=
  cat [BOUNDARY; Lit mark; Grp 1 (plus nonSpace); LOOK_END].

(** The text begins with whitespace, or is empty. *)
Definition startsSpace (s : jsstring) : Prop :=
  match s with [] => True | x :: _ => isSpace x = true end.

(** The steps of [parseMeta] after the identifier token is stripped, one
    function for each: the reason and the final normalisation, the actual
    minutes before them, the estimate before those. *)
Definition reasonPart (cleaned : jsstring) : jsstring * jsstring :=
  let '(reason, cleaned) :=
    match match_ REASON_RE cleaned with
    | Some reasonMatch =>
        (trim (group 1 (groups reasonMatch)),
         trim (take (index reasonMatch) cleaned))
    | None => ([], cleaned)
    end in
  (reason, trim (replace_all (plus isSpace) [32%N] cleaned)).

Definition actPart (cleaned : jsstring) : option N * (jsstring * jsstring) :=
  (match match_ ACT_RE cleaned with
   | Some actMatch => minutesOf actMatch
   | None => None
   end,
   reasonPart (replace_all ACT_RE [32%N] cleaned)).

Definition estPart (cleaned : jsstring)
    : option N * (option N * (jsstring * jsstring)) :=
  (match match_ EST_RE cleaned with
   | Some estMatch => minutesOf estMatch
   | None => None
   end,
   actPart (replace_all EST_RE [32%N] cleaned)).

(** ** Notions of the further properties *)

(** [[0-9a-f]]: the digits that [toString(16)] prints. *)
Definition isLowerHex (c : N) : bool :=
  ((48 <=? c) && (c <=? 57) || (97 <=? c) && (c <=? 102))%N.

(** The indices, from [i] on, of the lines that are checkbox lines. *)
Fixpoint taskLineIndices (i : nat) (lines : list jsstring) : list nat :=
  match lines with
  | [] => []
  | l :: lines' =>
      if test TASK_RE l then i :: taskLineIndices (S i) lines'
      else taskLineIndices (S i) lines'
  end.

(** A display text or reason as the parser gives it: no whitespace at
    either end, and no whitespace inside but single spaces U+0020. *)
Definition singleSpaced (s : jsstring) : Prop :=
  clean s /\ Forall (fun c => isSpace c = false \/ c = 32%N) s
  /\ forall p q, s <> p ++ [32%N; 32%N] ++ q.

(** The line that [addTask] writes for the trimmed draft [text]. *)
Definition newTaskLine (text id : jsstring) : jsstring :=
  str "- [ ] " ++ text ++ str " " ++ taskIdToken id.

(** The task with its done flag flipped. *)
Definition flipDone (t : Task) : Task :=
  {| t_id := t_id t; t_lineIndex := t_lineIndex t; t_text := t_text t;
     t_done := negb (t_done t); t_hasId := t_hasId t; t_estMin := t_estMin t;
     t_actMin := t_actMin t; t_reason := t_reason t |}.

(** The line that [toggleTask] writes for a line that the toggle pattern
    matched with [m]. *)
Definition toggledLine (m : Match) : jsstring :=
  let current := streq (toLowerCase (group 2 (groups m))) (str "x") in
  let nextMark := if current then str " " else str "x" in
  group 1 (groups m) ++ nextMark ++ group 3 (groups m).

(** ** Notions of the reloads *)

(** The date string and the path of day [i] of the week view, as
    [loadWeek] forms them. *)
Definition dayYmd (w : World) (i : Z) : jsstring := toYMD (addDays (weekStart w) i).

Definition dayPath (w : World) (i : Z) : jsstring :=
  todoDir w ++ str "/" ++ dayYmd w i ++ str ".md".

(** A text that the migration pass leaves as it is. *)
Definition settledText (md : jsstring) : Prop :=
  existsb lacksCanonicalId (split_lines md) = false.

(** The writes of a trace. *)
Definition writesOf (tr : list event) : list event :=
  filter (fun e => isWrite e = true) tr.

(** The file at [q], if there is one, is a text that the migration pass
    leaves as it is. *)
Definition settledAt (w : World) (q : jsstring) : Prop :=
  forall md, files w !! q = Some md -> settledText md.

(** The hash recorded under [y] is the hash of the file at [q], if there
    is one. *)
Definition hashedAt (w : World) (q y : jsstring) : Prop :=
  forall md, files w !! q = Some md -> lastHashes w !! y = Some (hashString md).

(** What a load leaves for a day record: its date string and path are
    those of a day [i] of [ixs], and its file is there unless the record
    says that it is missing. *)
Definition dayOf (w w' : World) (ixs : list Z) (d : DayData) : Prop :=
  exists i, i ∈ ixs /\ ymd d = dayYmd w i /\ filePath d = dayPath w i
    /\ (missing d = false -> is_Some (files w' !! filePath d)).

(** The indices of the days of the week view. *)
Definition week : list Z := [0; 1; 2; 3; 4; 5; 6]%Z.

(** The day record agrees with the world: its file is there and the hash
    recorded for the day is the hash of that file, unless the record says
    that the file is missing. *)
Definition inStep (w : World) (d : DayData) : Prop :=
  missing d = false ->
  is_Some (files w !! filePath d) /\ hashedAt w (filePath d) (ymd d).

(** What identifies a task and its state: identifier, done flag, line. *)
Definition taskKey (t : Task) : jsstring * bool * nat :=
  (t_id t, t_done t, t_lineIndex t).

(** ** Editing the estimate, the actual and the reason of a task *)

(** [Partial<TaskMetaDraft>]: the fields that a patch holds. *)
Record DraftPatch := {
  patch_estMin : option jsstring;
  patch_actMin : option jsstring;
  patch_reason : option jsstring }.

(** [{ ...current, ...patch }] *)
Definition spread (current : TaskMetaDraft) (patch : DraftPatch) : TaskMetaDraft :=
  {| draft_estMin := default (draft_estMin current) (patch_estMin patch);
     draft_actMin := default (draft_actMin current) (patch_actMin patch);
     draft_reason := default (draft_reason current) (patch_reason patch) |}.

Definition emptyDraft : TaskMetaDraft :=
  {| draft_estMin := []; draft_actMin := []; draft_reason := [] |}.

Definition setTaskMetaDraft (taskId : jsstring) (patch : DraftPatch) : M unit :=
  act (fun w =>
    setMetaDraftByTask
      (<[taskId := spread (default emptyDraft (metaDraftByTask w !! taskId)) patch]>
         (metaDraftByTask w)) w).

(** The tasks of the view, day after day. *)
Definition shownTasks (w : World) : list Task := concat (map tasks (days w)).

(** The last task of a list that carries the identifier. *)
Definition lastWithId (id : jsstring) (ts : list Task) : option Task :=
  last (filter (fun t => t_id t = id) ts).

(** ** Choosing the folder *)

(** The application outside its React state: the state, and the item
    [todoDir] of [localStorage], from which the state starts. *)
Record Shell := {
  world : World;
  storedDir : option jsstring }.

(** What the folder dialog gives: a path, nothing (the dialog was
    dismissed), or a failure. *)
Inductive dialogResult :=
| Picked (selected : jsstring)
| Dismissed
| DialogFailed (e : notice).

Definition setTodoDir (v : jsstring) (w : World) : World :=
  {| files := files w; rnd := rnd w; rndPos := rndPos w; anchor := anchor w;
     todoDir := v; days := days w; busy := busy w; error := error w;
     newTaskByDay := newTaskByDay w; metaDraftByTask := metaDraftByTask w;
     isEditing := isEditing w; lastHashes := lastHashes w; trace := trace w |}.

Definition isSlash (c : N) : bool := (c =? 47)%N.

(** "/\/+$/" *)
Definition TRAILING_SLASHES_RE : regex := cat [plus isSlash; Eol].

Definition USERS : jsstring := str "/Users/".

Definition outsideHomeMessage (selected : jsstring) : jsstring :=
  str "Please choose a folder inside your Home directory." ++ [LF]
  ++ str "Selected: " ++ selected ++ [LF; LF]
  ++ str "Tip: pick something like /Users/<you>/...".

(** [chooseTodoDir], from the answer of the dialog on.  The effect that
    reloads the week when [todoDir] changes is not part of it. *)
Definition chooseTodoDir (answer : dialogResult) (sh : Shell) : Shell :=
  match answer with
  | DialogFailed e =>
      {| world := setError (Some e) (world sh); storedDir := storedDir sh |}
  | Dismissed => sh
  | Picked selected =>
      if nonEmpty (trim selected) then
        let normalized := replace TRAILING_SLASHES_RE [] selected in
        if negb (isPrefix USERS normalized) then
          {| world := setError (Some (Message (outsideHomeMessage selected))) (world sh);
             storedDir := storedDir sh |}
        else
          {| world := setTodoDir normalized (world sh);
             storedDir := Some normalized |}
      else sh
  end.

(** A path without slash at its end. *)
Definition noTrailingSlash (s : jsstring) : Prop := last s <> Some 47%N.

(** ** The statistics of the week

    The counts and the sums of minutes are integers, on which the
    arithmetic of doubles is exact.  The completion percentage divides
    two counts and multiplies the quotient by 100, each operation rounded
    to the nearest double, ties to even; that rounding is modelled here.
    A double that is no integer is a dyadic rational, [dy_mant / 2 ^ dy_shift]. *)

Record dyadic := {
  dy_mant : Z;
  dy_shift : Z }.

(** The integer nearest to [n / d], ties to the even one ([0 < d]). *)
Definition roundHalfEven (n d : Z) : Z :=
  let q := (n / d)%Z in
  let r := (n mod d)%Z in
  if (2 * r <? d)%Z then q
  else if (d <? 2 * r)%Z then (q + 1)%Z
  else if Z.even q then q else (q + 1)%Z.

(** The binade of [n / d]: the [b] with [2 ^ b <= n / d < 2 ^ (b + 1)]
    ([0 < n] and [0 < d]). *)
Definition binade (n d : Z) : Z :=
  let k := (Z.log2 n - Z.log2 d)%Z in
  if (d * 2 ^ Z.max 0 k <=? n * 2 ^ Z.max 0 (- k))%Z then k else (k - 1)%Z.

(** The double nearest to [n / d], ties to even, for [0 <= n] and [0 < d]:
    a significand of 53 bits at the binade of [n / d].  The exponent
    range of doubles is not limited here; the statistics stay far inside
    it. *)
Definition RN (n d : Z) : dyadic :=
  if (n =? 0)%Z then {| dy_mant := 0; dy_shift := 0 |}
  else
    let e := (binade n d - 52)%Z in
    if (0 <=? e)%Z
    then {| dy_mant := roundHalfEven n (d * 2 ^ e) * 2 ^ e; dy_shift := 0 |}
    else {| dy_mant := roundHalfEven (n * 2 ^ (- e)) d; dy_shift := - e |}.

(** [a / b] on two integers that doubles hold. *)
Definition fdiv (a b : Z) : dyadic := RN a b.

(** [x * c] for a double [x] and an integer [c] that doubles hold. *)
Definition fmul (x : dyadic) (c : Z) : dyadic := RN (dy_mant x * c) (2 ^ dy_shift x).

(** [Math.round(x)]: the integer nearest to [x], ties upwards. *)
Definition Math_round (x : dyadic) : Z :=
  ((2 * dy_mant x + 2 ^ dy_shift x) / 2 ^ (dy_shift x + 1))%Z.

(** [total === 0 ? 0 : Math.round((done / total) * 100)] *)
Definition percent (done total : nat) : Z :=
  if Nat.eqb total 0 then 0%Z
  else Math_round (fmul (fdiv (Z.of_nat done) (Z.of_nat total)) 100).

(** [labels[i] ?? ""] *)
Definition weekdayLabel (i : nat) : jsstring :=
  default [] ([str "Mon"; str "Tue"; str "Wed"; str "Thu"; str "Fri"; str "Sat";
               str "Sun"] !! i).

(** The values are minutes read from task lines, or null. *)
Definition sumMinutes (values : list (option N)) : N :=
  fold_left (fun s v => match v with Some n => (s + n)%N | None => s end) values 0%N.

Record DayStats := {
  st_ymd : jsstring;
  st_label : jsstring;
  st_total : nat;
  st_done : nat;
  st_pct : Z;
  st_estSum : N;
  st_actSum : N;
  st_overruns : nat }.

(** [t.estMin !== null && t.actMin !== null && t.actMin > t.estMin] *)
Definition isOverrun (t : Task) : bool :=
  match t_estMin t, t_actMin t with
  | Some est, Some act_ => (est <? act_)%N
  | _, _ => false
  end.

(** The callback of [days.map((d, i) => ...)]. *)
Definition dayStats (d : DayData) (i : nat) : DayStats :=
  let total := length (tasks d) in
  let done := length (List.filter t_done (tasks d)) in
  {| st_ymd := ymd d;
     st_label := weekdayLabel i;
     st_total := total;
     st_done := done;
     st_pct := percent done total;
     st_estSum := sumMinutes (map t_estMin (tasks d));
     st_actSum := sumMinutes (map t_actMin (tasks d));
     st_overruns := length (List.filter isOverrun (tasks d)) |}.

Fixpoint mapDayStats (i : nat) (days : list DayData) : list DayStats :=
  match days with
  | [] => []
  | d :: ds => dayStats d i :: mapDayStats (S i) ds
  end.

Record WeekStats := {
  perDay : list DayStats;
  totalTasks : nat;
  doneTasks : nat;
  weekPct : Z;
  estTotal : N;
  actTotal : N;
  overrunsTotal : nat }.

Definition computeWeekStats (days : list DayData) : WeekStats :=
  let perDay := mapDayStats 0 days in
  let totalTasks := fold_left (fun a s => a + st_total s) perDay 0 in
  let doneTasks := fold_left (fun a s => a + st_done s) perDay 0 in
  {| perDay := perDay;
     totalTasks := totalTasks;
     doneTasks := doneTasks;
     weekPct := percent doneTasks totalTasks;
     estTotal := fold_left (fun a s => (a + st_estSum s)%N) perDay 0%N;
     actTotal := fold_left (fun a s => (a + st_actSum s)%N) perDay 0%N;
     overrunsTotal := fold_left (fun a s => a + st_overruns s) perDay 0 |}.

(** The percentage [p] is within one half of [100 * done / total]. *)
Definition nearestPercent (p : Z) (done total : nat) : Prop :=
  (- Z.of_nat total <= 2 * (p * Z.of_nat total - 100 * Z.of_nat done)
   <= Z.of_nat total)%Z.

(** The tasks of a list of days, day after day. *)
Definition allTasks (days : list DayData) : list Task := concat (map tasks days).

(** [formatMin] on the sums of minutes, which are non-negative integers:
    there [Math.floor(min / 60)] and [Math.round(min % 60)] are the
    quotient and the remainder. *)
Definition formatMin (min : N) : jsstring :=
  if (min <=? 0)%N then str "0m"
  else
    let h := (min / 60)%N in
    let m := (min mod 60)%N in
    if (h <=? 0)%N then String_ m ++ str "m"
    else if (m =? 0)%N then String_ h ++ str "h"
    else String_ h ++ str "h " ++ String_ m ++ str "m".

(** The file that [addTask] leaves for a day that had none: the template,
    and the line of the task behind its blank lines. *)
Definition firstTaskFile (text id : jsstring) : jsstring :=
  join_lines [str "## Todo"; []; []; newTaskLine text id].

(** * Properties *)

(** ** The matcher against the declarative reading *)

Lemma strip_prefix_app l s : strip_prefix l (l ++ s) = Some s.
Proof. induction l as [|x l IH]; simpl; [done|]. by rewrite N.eqb_refl. Qed.

Lemma strip_prefix_Some l s s' : strip_prefix l s = Some s' -> s = l ++ s'.
Proof.
  revert s. induction l as [|x l IH]; intros s H; simpl in *.
  - by inversion H.
  - destruct s as [|y s]; [done|].
    destruct (N.eqb_spec x y) as [->|]; [|done].
    by rewrite (IH _ H).
Qed.

Lemma Matches_app r i s c u s' c' : Matches r i s c u s' c' -> s = u ++ s'.
Proof.
  induction 1 as [| | |a b i s c u1 s1 c1 u2 s2 c2 _ IH1 _ IH2| | | | | | |];
    simpl; try done.
  by rewrite <- app_assoc, <- IH2.
Qed.

Lemma rep_sound p : forall s lo hi i acc c k res,
  rep p lo hi i acc s c k = Some res ->
  exists u s', s = u ++ s' /\ allb p u = true /\ lo <= length u
    /\ (forall h, hi = Some h -> length u <= h)
    /\ k (i + length u) (acc ++ u) s' c = Some res.
Proof.
  induction s as [|x s IH]; intros lo hi i acc c k res H; simpl in H.
  - destruct lo; [|done]. exists [], []. simpl.
    rewrite Nat.add_0_r, app_nil_r. repeat split; auto; intros; lia.
  - destruct (p x && hi_open hi) eqn:E.
    + apply andb_true_iff in E as [Hp Hh].
      destruct (rep p (pred lo) (pred <$> hi) (S i) (acc ++ [x]) s c k) eqn:R.
      * inversion H; subst. apply IH in R as (u & s' & -> & Hu & Hlo & Hhi & Hk).
        exists (x :: u), s'. simpl. rewrite Hp, Hu.
        rewrite <- app_assoc in Hk. simpl in Hk.
        replace (i + S (length u)) with (S (i + length u)) by lia.
        repeat split; auto; [lia|].
        intros h ->. destruct h; [done|]. simpl in Hhi.
        specialize (Hhi h eq_refl). lia.
      * destruct lo; [|done]. exists [], (x :: s). simpl.
        rewrite Nat.add_0_r, app_nil_r. repeat split; auto; intros; lia.
    + destruct lo; [|done]. exists [], (x :: s). simpl.
      rewrite Nat.add_0_r, app_nil_r. repeat split; auto; intros; lia.
Qed.

Lemma run_sound r : forall i acc s c k res,
  run r i acc s c k = Some res ->
  exists u s' c', Matches r i s c u s' c'
    /\ k (i + length u) (acc ++ u) s' c' = Some res.
Proof.
  induction r as [|p|l|a IHa b IHb|a IHa b IHb|p lo hi| | |a IHa|n a IHa];
    intros i acc s c k res H; simpl in H.
  - exists [], s, c. simpl. rewrite Nat.add_0_r, app_nil_r. split; [constructor|done].
  - destruct s as [|x s]; [done|]. destruct (p x) eqn:Hp; [|done].
    exists [x], s, c. simpl. rewrite Nat.add_1_r. split; [by constructor|done].
  - destruct (strip_prefix l s) as [s'|] eqn:E; [|done].
    apply strip_prefix_Some in E as ->.
    exists l, s', c. split; [constructor|done].
  - apply IHa in H as (u1 & s1 & c1 & Ha & H).
    apply IHb in H as (u2 & s2 & c2 & Hb & H).
    exists (u1 ++ u2), s2, c2. split; [by econstructor|].
    by rewrite length_app, Nat.add_assoc, app_assoc.
  - destruct (run a i acc s c k) eqn:E.
    + inversion H; subst. apply IHa in E as (u & s' & c' & Ha & E).
      exists u, s', c'. split; [by apply M_AltL|done].
    + apply IHb in H as (u & s' & c' & Hb & H).
      exists u, s', c'. split; [by apply M_AltR|done].
  - apply rep_sound in H as (u & s' & -> & Hu & Hlo & Hhi & Hk).
    exists u, s', c. split; [by constructor|done].
  - destruct i; [|done]. exists [], s, c. simpl. rewrite app_nil_r.
    split; [constructor|done].
  - destruct s; [|done]. exists [], [], c. simpl.
    rewrite Nat.add_0_r, app_nil_r. split; [constructor|done].
  - destruct (run a i [] s c accept) as [[[[i' acc'] s'] c']|] eqn:E; [|done].
    apply IHa in E as (u & s'' & c'' & Ha & _).
    exists [], s, c. simpl. rewrite Nat.add_0_r, app_nil_r.
    split; [by econstructor|done].
  - apply IHa in H as (u & s' & c' & Ha & H). simpl in H.
    exists u, s', ((n, u) :: c'). split; [by constructor|done].
Qed.

Lemma rep_complete p : forall u lo hi i acc s c k x,
  allb p u = true -> lo <= length u ->
  (forall h, hi = Some h -> length u <= h) ->
  k (i + length u) (acc ++ u) s c = Some x ->
  exists y, rep p lo hi i acc (u ++ s) c k = Some y.
Proof.
  induction u as [|a u IH]; intros lo hi i acc s c k x Hu Hlo Hhi Hk; simpl in *.
  - rewrite Nat.add_0_r, app_nil_r in Hk.
    assert (lo = 0) as -> by lia.
    destruct s as [|b s]; simpl; [eauto|].
    destruct (p b && hi_open hi); [|eauto].
    destruct (rep p _ _ _ _ _ _ _); eauto.
  - apply andb_true_iff in Hu as [Ha Hu]. rewrite Ha. simpl.
    assert (hi_open hi = true) as ->.
    { destruct hi as [[|h]|]; try done. specialize (Hhi 0 eq_refl). lia. }
    assert (H1 : pred lo <= length u) by lia.
    assert (H2 : forall h, pred <$> hi = Some h -> length u <= h).
    { intros h Hh. destruct hi as [h'|]; [|done]. inversion Hh; subst.
      specialize (Hhi h' eq_refl). lia. }
    assert (H3 : k (S i + length u) ((acc ++ [a]) ++ u) s c = Some x).
    { rewrite <- app_assoc. simpl.
      by replace (i + S (length u)) with (S (i + length u)) in Hk by lia. }
    destruct (IH _ _ _ _ _ _ _ _ Hu H1 H2 H3) as [y ->]. eauto.
Qed.

Lemma run_complete r i s c u s' c' :
  Matches r i s c u s' c' ->
  forall acc k res, k (i + length u) (acc ++ u) s' c' = Some res ->
  exists y, run r i acc s c k = Some y.
Proof.
  induction 1 as [i s c|p i x s c Hp|l i s c|a b i s c u1 s1 c1 u2 s2 c2 Ha IHa Hb IHb
    |a b i s c u s' c' Ha IHa|a b i s c u s' c' Hb IHb|p lo hi i u s c Hu Hlo Hhi
    |s c|i c|a i s c u s' c' Ha IHa|n a i s c u s' c' Ha IHa];
    intros acc k res Hk; simpl in *.
  - rewrite Nat.add_0_r, app_nil_r in Hk. eauto.
  - rewrite Hp. rewrite Nat.add_1_r in Hk. eauto.
  - rewrite strip_prefix_app. eauto.
  - rewrite length_app, Nat.add_assoc, app_assoc in Hk.
    destruct (IHb _ _ _ Hk) as [y Hy].
    apply (IHa acc (fun i' acc' s' c' => run b i' acc' s' c' k) y Hy).
  - destruct (IHa _ _ _ Hk) as [y ->]. eauto.
  - destruct (run a i acc s c k); eauto.
  - by eapply rep_complete.
  - rewrite app_nil_r in Hk. eauto.
  - rewrite Nat.add_0_r, app_nil_r in Hk. eauto.
  - rewrite Nat.add_0_r, app_nil_r in Hk.
    destruct (IHa [] accept (i + length u, [] ++ u, s', c') eq_refl) as [y ->]. eauto.
  - apply (IHa [] (fun i' acc' s' c' => k i' (acc ++ acc') s' ((n, acc') :: c')) res).
    done.
Qed.

(** The greedy choice: a maximal run of the class is tried first. *)
Lemma rep_greedy p : forall u lo hi i acc s c k res,
  allb p u = true -> lo <= length u ->
  (forall h, hi = Some h -> length u <= h) ->
  match s with x :: _ => p x = false \/ hi = Some (length u) | [] => True end ->
  k (i + length u) (acc ++ u) s c = Some res ->
  rep p lo hi i acc (u ++ s) c k = Some res.
Proof.
  induction u as [|a u IH]; intros lo hi i acc s c k res Hu Hlo Hhi Hmax Hk; simpl in *.
  - rewrite Nat.add_0_r, app_nil_r in Hk.
    assert (lo = 0) as -> by lia.
    destruct s as [|b s]; simpl; [done|].
    destruct Hmax as [->| ->]; simpl; [done|]. by rewrite andb_false_r.
  - apply andb_true_iff in Hu as [Ha Hu]. rewrite Ha. simpl.
    assert (hi_open hi = true) as ->.
    { destruct hi as [[|h]|]; try done. specialize (Hhi 0 eq_refl). lia. }
    assert (H1 : pred lo <= length u) by lia.
    assert (H2 : forall h, pred <$> hi = Some h -> length u <= h).
    { intros h Hh. destruct hi as [h'|]; [|done]. inversion Hh; subst.
      specialize (Hhi h' eq_refl). lia. }
    assert (H3 : k (S i + length u) ((acc ++ [a]) ++ u) s c = Some res).
    { rewrite <- app_assoc. simpl.
      by replace (i + S (length u)) with (S (i + length u)) in Hk by lia. }
    assert (H4 : match s with
                 | x :: _ => p x = false \/ pred <$> hi = Some (length u)
                 | [] => True end).
    { destruct s; [done|]. destruct Hmax as [?| ->]; [by left|by right]. }
    by rewrite (IH _ _ _ _ _ _ _ _ Hu H1 H2 H4 H3).
Qed.

Lemma run_at_sound r i s e u rest c :
  run_at r i s = Some (e, u, rest, c) ->
  Matches r i s [] u rest c /\ e = i + length u.
Proof.
  intros H. apply run_sound in H as (u' & s' & c' & HM & H).
  unfold accept in H. simpl in H. inversion H; subst. done.
Qed.

Lemma run_at_complete r i s u rest c :
  Matches r i s [] u rest c -> exists y, run_at r i s = Some y.
Proof.
  intros H. eapply (run_complete _ _ _ _ _ _ _ H [] accept). reflexivity.
Qed.

Lemma run_at_None r i s :
  (forall u rest c, ~ Matches r i s [] u rest c) -> run_at r i s = None.
Proof.
  intros H. destruct (run_at r i s) as [[[[e u] rest] c]|] eqn:E; [|done].
  apply run_at_sound in E as [E _]. by apply H in E.
Qed.

Lemma search_Some r : forall s i m,
  search r i s = Some m ->
  exists pre, s = pre ++ matched m ++ after m /\ index m = i + length pre
    /\ Matches r (index m) (matched m ++ after m) [] (matched m) (after m) (groups m)
    /\ (forall p q, pre = p ++ q -> q <> [] ->
          run_at r (i + length p) (q ++ matched m ++ after m) = None).
Proof.
  induction s as [|x s IH]; intros i m H; simpl in H.
  - destruct (run_at r i []) as [[[[e u] rest] c]|] eqn:E; [|done].
    inversion H; subst; simpl. apply run_at_sound in E as [E _].
    pose proof (Matches_app _ _ _ _ _ _ _ E) as Happ.
    exists []. simpl. rewrite Nat.add_0_r. rewrite <- Happ. repeat split; auto.
    intros p q Hp Hq. by destruct p, q.
  - destruct (run_at r i (x :: s)) as [[[[e u] rest] c]|] eqn:E.
    + inversion H; subst; simpl. apply run_at_sound in E as [E _].
      pose proof (Matches_app _ _ _ _ _ _ _ E) as Happ.
      exists []. simpl. rewrite Nat.add_0_r. rewrite <- Happ. repeat split; auto.
      intros p q Hp Hq. by destruct p, q.
    + apply IH in H as (pre & -> & Hi & HM & Hfail).
      exists (x :: pre). simpl. repeat split; auto; [lia|].
      intros p q Hp Hq. destruct p as [|y p]; simpl in *.
      * subst q. rewrite Nat.add_0_r. done.
      * inversion Hp; subst. replace (i + S (length p)) with (S i + length p) by lia.
        by apply Hfail.
Qed.

Lemma search_first r : forall pre suf i e u rest c,
  (forall p q, pre = p ++ q -> q <> [] -> run_at r (i + length p) (q ++ suf) = None) ->
  run_at r (i + length pre) suf = Some (e, u, rest, c) ->
  search r i (pre ++ suf) =
    Some {| index := i + length pre; matched := u; after := rest; groups := c |}.
Proof.
  induction pre as [|x pre IH]; intros suf i e u rest c Hfail Hrun; simpl in *.
  - rewrite Nat.add_0_r in *. destruct suf; simpl; by rewrite Hrun.
  - pose proof (Hfail [] (x :: pre) eq_refl ltac:(done)) as H0.
    simpl in H0. rewrite Nat.add_0_r in H0. rewrite H0.
    replace (i + S (length pre)) with (S i + length pre) in * by lia.
    apply (IH _ _ e); [|done].
    intros p q -> Hq. specialize (Hfail (x :: p) q eq_refl Hq). simpl in Hfail.
    by replace (S i + length p) with (i + S (length p)) by lia.
Qed.

Lemma search_None r : forall s i,
  search r i s = None ->
  forall p q, s = p ++ q -> run_at r (i + length p) q = None.
Proof.
  induction s as [|x s IH]; intros i H p q Hs; simpl in H.
  - destruct p, q; try done. simpl. rewrite Nat.add_0_r.
    by destruct (run_at r i []) as [[[[? ?] ?] ?]|].
  - destruct (run_at r i (x :: s)) as [[[[? ?] ?] ?]|] eqn:E; [done|].
    destruct p as [|y p]; simpl in *.
    + subst q. by rewrite Nat.add_0_r.
    + inversion Hs; subst. replace (i + S (length p)) with (S i + length p) by lia.
      by apply IH.
Qed.

Lemma search_None_intro r : forall s i,
  (forall p q, s = p ++ q -> run_at r (i + length p) q = None) ->
  search r i s = None.
Proof.
  induction s as [|x s IH]; intros i H; simpl.
  - specialize (H [] [] eq_refl). simpl in H. rewrite Nat.add_0_r in H. by rewrite H.
  - pose proof (H [] (x :: s) eq_refl) as H0. simpl in H0.
    rewrite Nat.add_0_r in H0. rewrite H0. apply IH.
    intros p q ->. specialize (H (x :: p) q eq_refl). simpl in H.
    by replace (S i + length p) with (i + S (length p)) by lia.
Qed.

Lemma search_complete r p q i u rest c :
  Matches r (i + length p) q [] u rest c ->
  exists m, search r i (p ++ q) = Some m.
Proof.
  intros HM. destruct (search r i (p ++ q)) eqn:E; [eauto|].
  pose proof (search_None _ _ _ E p q eq_refl) as H.
  apply run_at_complete in HM as [y Hy]. congruence.
Qed.

Lemma test_true r s :
  test r s = true <->
  exists p q u rest c, s = p ++ q /\ Matches r (length p) q [] u rest c.
Proof.
  unfold test, match_. split.
  - destruct (search r 0 s) as [m|] eqn:E; [|done]. intros _.
    apply search_Some in E as (pre & -> & Hi & HM & _). simpl in Hi.
    exists pre, (matched m ++ after m), (matched m), (after m), (groups m).
    by rewrite <- Hi.
  - intros (p & q & u & rest & c & -> & HM).
    destruct (search_complete r p q 0 u rest c HM) as [m ->]. done.
Qed.

(** ** The example line of the specification *)

(** C2, as stated, fails: the line of the specification carries the bare
    words est:, act: and reason:, which the parser leaves in the display
    text; no estimate, actual or reason is read. *)
Lemma C2_plain_markers_not_parsed :
  exists t, fst (parseTasks exampleEntropy 0 specExampleLine) = [t]
    /\ t_text t = str "Buy milk est:30 act:45 reason:ran late"
    /\ t_text t <> str "Buy milk"
    /\ t_estMin t = None /\ t_actMin t = None /\ t_reason t = [].
Proof. eexists. vm_compute. repeat split; congruence. Qed.

(** C2, amended: with the markers of the codec (hourglass before est:
    and act:, writing hand before reason:), the line parses to the open
    task "Buy milk" with estimate 30, actual 45, reason "ran late" and the
    identifier of the line. *)
Theorem C2_marked_example_parses rnd pos :
  parseTasks rnd pos markedExampleLine =
    ([{| t_id := str "ab12cd34"; t_lineIndex := 0; t_text := str "Buy milk";
         t_done := false; t_hasId := true; t_estMin := Some 30%N;
         t_actMin := Some 45%N; t_reason := str "ran late" |}], pos).
Proof. vm_compute. reflexivity. Qed.

(** ** Week boundary *)

Lemma setDate_getDate d k :
  setDate d (getDate d + k) = {| dayNumber := (dayNumber d + k)%Z; msOfDay := msOfDay d |}.
Proof. unfold setDate, getDate. f_equal. simpl. lia. Qed.

Lemma startOfWeekMonday_day d :
  startOfWeekMonday d =
    {| dayNumber := (dayNumber d - (dayNumber d + 3) mod 7)%Z; msOfDay := 0 |}.
Proof.
  unfold startOfWeekMonday. rewrite setDate_getDate.
  unfold getDay, setHoursZero. simpl. f_equal.
  pose proof (Z.mod_pos_bound (dayNumber d + 4) 7 ltac:(lia)).
  pose proof (Z.mod_pos_bound (dayNumber d + 3) 7 ltac:(lia)).
  pose proof (Z.div_mod (dayNumber d + 4) 7 ltac:(lia)).
  pose proof (Z.div_mod (dayNumber d + 3) 7 ltac:(lia)).
  destruct (Z.eqb_spec ((dayNumber d + 4) mod 7) 0); lia.
Qed.



(** ** Lines of a file *)

Lemma split_lines_nonempty s : split_lines s <> [].
Proof.
  induction s as [|c s IH]; simpl; [done|].
  destruct (c =? LF)%N; [done|]. by destruct (split_lines s).
Qed.

Lemma split_lines_noLF s : Forall noLF (split_lines s).
Proof.
  induction s as [|c s IH]; simpl.
  - repeat constructor.
  - destruct (N.eqb_spec c LF) as [->|Hc].
    + constructor; [constructor|done].
    + destruct (split_lines s) as [|l ls]; [repeat constructor; done|].
      inversion IH; subst. constructor; [by constructor|done].
Qed.

Lemma join_split s : join_lines (split_lines s) = s.
Proof.
  induction s as [|c s IH]; simpl; [done|].
  destruct (N.eqb_spec c LF) as [->|Hc].
  - simpl. pose proof (split_lines_nonempty s).
    destruct (split_lines s); [done|]. by rewrite IH.
  - destruct (split_lines s) as [|l ls]; simpl in *; [by subst|].
    destruct ls; simpl in *; by subst.
Qed.

Lemma split_lines_app_noLF l s :
  noLF l -> split_lines (l ++ LF :: s) = l :: split_lines s.
Proof.
  induction 1 as [|c l Hc Hl IH]; simpl.
  - done.
  - destruct (N.eqb_spec c LF); [done|]. by rewrite IH.
Qed.

Lemma split_lines_single l : noLF l -> split_lines l = [l].
Proof.
  induction 1 as [|c l Hc Hl IH]; simpl; [done|].
  destruct (N.eqb_spec c LF); [done|]. by rewrite IH.
Qed.

Lemma split_join ls :
  ls <> [] -> Forall noLF ls -> split_lines (join_lines ls) = ls.
Proof.
  induction ls as [|l ls IH]; intros Hne H; [done|].
  inversion H as [|? ? Hl Hls]; subst. destruct ls as [|l' ls].
  - simpl. by apply split_lines_single.
  - change (join_lines (l :: l' :: ls)) with (l ++ LF :: join_lines (l' :: ls)).
    rewrite split_lines_app_noLF by done. by rewrite IH.
Qed.

(** ** Asynchronous functions that cannot throw *)

Lemma tryCatchFinally_ok body (f : notice -> World -> World) (g : World -> World) w :
  fst (tryCatchFinally body (fun e => act (f e)) (act g) w) = Ok tt.
Proof.
  unfold tryCatchFinally, act. destruct (body w) as [[a|e] w1]; done.
Qed.

Lemma loadWeek_ok w : fst (loadWeek w) = Ok tt.
Proof.
  unfold loadWeek, bind, act. simpl.
  destruct (nonEmpty (todoDir w)); simpl; [|done].
  apply tryCatchFinally_ok.
Qed.

Lemma loadWeek_eta w : loadWeek w = (Ok tt, snd (loadWeek w)).
Proof. rewrite <- (loadWeek_ok w). by destruct (loadWeek w). Qed.

(** ** Inversion of matches *)

Lemma length_zero_nil {A} (l : list A) : 0 = length l -> l = [].
Proof. by destruct l. Qed.

Lemma TOGGLE_RE_inv line m :
  match_ TOGGLE_RE line = Some m ->
  exists pre c post,
    line = pre ++ [91%N] ++ [c] ++ [93%N] ++ post
    /\ isMark c = true
    /\ group 1 (groups m) = pre ++ [91%N]
    /\ group 2 (groups m) = [c]
    /\ group 3 (groups m) = [93%N] ++ post.
Proof.
  intros H. apply search_Some in H as (p & -> & Hi & HM & _).
  destruct m as [ix mt af gs]. simpl in *.
  unfold TOGGLE_RE, SP, star, plus in HM. simpl in HM. norm_str_in HM.
  inv_M.
  match goal with H : 0 = length _ |- _ => apply length_zero_nil in H; subst end.
  simpl. exists (u2 ++ 45%N :: u4), x, (u3 ++ u7).
  rewrite !app_nil_r, <- !app_assoc. simpl. rewrite <- !app_assoc. done.
Qed.

Lemma isMark_cases c : isMark c = true -> c = 32%N \/ c = 120%N \/ c = 88%N.
Proof.
  unfold isMark. intros H.
  destruct (N.eqb_spec c 32); [by left|].
  destruct (N.eqb_spec c 120); [by right; left|].
  destruct (N.eqb_spec c 88); [by right; right|done].
Qed.

Lemma findIndex_Some_lookup p ls idx :
  findIndex p ls = Some idx -> exists l, ls !! idx = Some l /\ p l = true.
Proof.
  revert idx. induction ls as [|l ls IH]; intros idx H; simpl in H; [done|].
  destruct (p l) eqn:E.
  - inversion H; subst. eauto.
  - destruct (findIndex p ls) as [j|]; [|done]. inversion H; subst.
    destruct (IH j eq_refl) as (l' & ? & ?). eauto.
Qed.

(** [findIndex] returns the first line that satisfies the test. *)
Lemma findIndex_first p ls idx :
  findIndex p ls = Some idx ->
  forall j l, j < idx -> ls !! j = Some l -> p l = false.
Proof.
  revert idx. induction ls as [|l0 ls IH]; intros idx H j l Hj Hl; simpl in H; [done|].
  destruct (p l0) eqn:E.
  - inversion H; subst. lia.
  - destruct (findIndex p ls) as [k|] eqn:F; [|done]. inversion H; subst.
    destruct j as [|j]; simpl in Hl; [by inversion Hl; subst|].
    apply (IH k eq_refl j l); [lia|done].
Qed.

Lemma findIndex_None p ls :
  findIndex p ls = None -> forall l, l ∈ ls -> p l = false.
Proof.
  induction ls as [|l0 ls IH]; intros H l Hl; simpl in H; [by inversion Hl|].
  destruct (p l0) eqn:E; [done|].
  destruct (findIndex p ls) eqn:F; [done|].
  apply elem_of_cons in Hl as [->|Hl]; [done|]. by apply IH.
Qed.

(** ** Toggle *)



(** ** Mutations on a task that is not in the file *)

(** C6, on the code: a mutation of a task whose identifier no line
    carries writes nothing and reloads the week once, but the not-found
    message it sets is cleared by the reload it starts ([loadWeek] begins
    with [setError(null)]): the error panel is empty afterwards. *)
Theorem C6_not_found_message_cleared :
  findIndex (fun l => lineHasTaskId l (t_id strayTask)) (split_lines exampleFile) = None
  /\ notFoundOutcome (snd (toggleTask exampleDay strayTask exampleWorld)) = ([], 1, None)
  /\ notFoundOutcome (snd (saveTaskMeta exampleDay strayTask exampleWorld)) = ([], 1, None)
  /\ notFoundOutcome (snd (deleteTask exampleDay strayTask exampleWorld)) = ([], 1, None).
Proof. repeat split; vm_compute; reflexivity. Qed.

(** ** Character classes *)

Lemma isDigit_cases c :
  isDigit c = true ->
  c = 48%N \/ c = 49%N \/ c = 50%N \/ c = 51%N \/ c = 52%N \/ c = 53%N
  \/ c = 54%N \/ c = 55%N \/ c = 56%N \/ c = 57%N.
Proof. unfold isDigit. intros H. cmpN. Qed.

Lemma isDigit_nonSpace c : isDigit c = true -> isSpace c = false.
Proof.
  intros H.
  destruct (isDigit_cases _ H) as [->|[->|[->|[->|[->|[->|[->|[->|[->| ->]]]]]]]]];
    reflexivity.
Qed.

Lemma trimStart_id c s : isSpace c = false -> trimStart (c :: s) = c :: s.
Proof. intros H. simpl. by rewrite H. Qed.

Lemma trimEnd_all_nonSpace s : allb nonSpace s = true -> trimEnd s = s.
Proof.
  induction s as [|c s IH]; simpl; [done|].
  intros H. apply andb_true_iff in H as [Hc Hs]. rewrite (IH Hs).
  unfold nonSpace in Hc. apply negb_true_iff in Hc. rewrite Hc. by destruct s.
Qed.

Lemma allb_impl (p q : N -> bool) s :
  (forall c, p c = true -> q c = true) -> allb p s = true -> allb q s = true.
Proof.
  intros Hpq. induction s as [|c s IH]; simpl; [done|].
  intros H. apply andb_true_iff in H as [Hc Hs]. by rewrite (Hpq _ Hc), IH.
Qed.

Lemma allb_app p s t : allb p (s ++ t) = allb p s && allb p t.
Proof. induction s as [|c s IH]; simpl; [done|]. by rewrite IH, andb_assoc. Qed.

Lemma allb_Forall p s : allb p s = true <-> Forall (fun c => p c = true) s.
Proof.
  induction s as [|c s IH]; simpl.
  - split; [constructor|done].
  - rewrite andb_true_iff, IH, Forall_cons. done.
Qed.

Lemma trim_digits s : allb isDigit s = true -> trim s = s.
Proof.
  intros H. unfold trim. destruct s as [|c s]; [done|].
  simpl in H. apply andb_true_iff in H as [Hc Hs].
  rewrite trimStart_id by by apply isDigit_nonSpace.
  apply trimEnd_all_nonSpace. simpl. unfold nonSpace at 1.
  rewrite (isDigit_nonSpace _ Hc). simpl.
  eapply allb_impl; [|exact Hs]. intros x Hx. unfold nonSpace.
  by rewrite (isDigit_nonSpace _ Hx).
Qed.

Lemma span_all p s : allb p s = true -> span p s = (s, []).
Proof.
  induction s as [|c s IH]; simpl; [done|].
  intros H. apply andb_true_iff in H as [Hc Hs]. by rewrite Hc, (IH Hs).
Qed.

Lemma decimalLiteral_digits s :
  isIntegerText s = true -> decimalLiteral s = Num (decimalVal s).
Proof.
  unfold isIntegerText. intros H. apply andb_true_iff in H as [Hne Hs].
  unfold decimalLiteral. rewrite (span_all _ _ Hs). simpl.
  destruct s as [|c s]; [done|]. simpl. rewrite app_nil_r.
  by rewrite N.mul_1_r.
Qed.

Lemma Number_digits s :
  isIntegerText s = true -> Number s = Num (decimalVal s).
Proof.
  intros H. pose proof H as H'. unfold isIntegerText in H'.
  apply andb_true_iff in H' as [Hne Hs].
  unfold Number. rewrite (trim_digits _ Hs).
  destruct s as [|c s]; [done|].
  simpl in Hs. apply andb_true_iff in Hs as [Hc Hs].
  destruct (isDigit_cases _ Hc) as [->|[->|[->|[->|[->|[->|[->|[->|[->| ->]]]]]]]]];
    try (change (streq _ INFINITY) with false; cbv iota; by apply decimalLiteral_digits).
  destruct s as [|x ds]; [by apply decimalLiteral_digits|].
  simpl in Hs. apply andb_true_iff in Hs as [Hx Hds].
  assert (Hx' : ((x =? 120) || (x =? 88) = false /\ (x =? 111) || (x =? 79) = false
                 /\ (x =? 98) || (x =? 66) = false)%N).
  { unfold isDigit in Hx. repeat split; cmpN. }
  destruct Hx' as (-> & -> & ->). by apply decimalLiteral_digits.
Qed.

Lemma DIGITS_RE_test s : test DIGITS_RE s = isIntegerText s.
Proof.
  destruct (isIntegerText s) eqn:E.
  - apply test_true. unfold isIntegerText in E. apply andb_true_iff in E as [Hne Hs].
    exists [], s, s, [], []. split; [done|].
    unfold DIGITS_RE, plus. simpl.
    change s with ([] ++ s) at 2.
    eapply M_Seq; [constructor|]. simpl.
    rewrite <- (app_nil_r s) at 2. eapply M_Seq; [|constructor].
    rewrite <- (app_nil_r s) at 1. constructor; [done| |done].
    destruct s; [done|simpl; lia].
  - destruct (test DIGITS_RE s) eqn:T; [|done].
    apply test_true in T as (p & q & u & rest & c & -> & HM).
    unfold DIGITS_RE, plus in HM. simpl in HM. inv_M.
    match goal with H : 0 = length _ |- _ => apply length_zero_nil in H; subst end.
    simpl in E. rewrite app_nil_r in E. unfold isIntegerText in E.
    match goal with H : allb isDigit _ = true |- _ => rewrite H in E end.
    rewrite andb_true_r in E.
    match goal with H : 1 <= length ?v |- _ => destruct v; simpl in *; [lia|done] end.
Qed.

Lemma parseDraftMinutes_trimmed raw :
  parseDraftMinutes raw =
    if negb (nonEmpty (trim raw)) then None
    else if isIntegerText (trim raw) then Some (Num (decimalVal (trim raw)))
    else Some NaN.
Proof.
  unfold parseDraftMinutes. rewrite DIGITS_RE_test.
  destruct (nonEmpty (trim raw)); simpl; [|done].
  destruct (isIntegerText (trim raw)) eqn:E; simpl; [|done].
  by rewrite Number_digits.
Qed.

(** ** Validation before the save *)


Lemma isNaN_parseDraftMinutes raw :
  isNaN (parseDraftMinutes raw)
  = nonEmpty (trim raw) && negb (isIntegerText (trim raw)).
Proof.
  rewrite parseDraftMinutes_trimmed.
  destruct (nonEmpty (trim raw)); simpl; [|done].
  by destruct (isIntegerText (trim raw)).
Qed.

Lemma parseDraftMinutes_integer raw :
  isIntegerText (trim raw) = true ->
  parseDraftMinutes raw = Some (Num (decimalVal (trim raw))).
Proof.
  intros H. rewrite parseDraftMinutes_trimmed, H.
  unfold isIntegerText in H. apply andb_true_iff in H as [-> _]. done.
Qed.



(** ** Adding a task *)

Opaque str genTaskId taskIdToken.

(** C7, as stated, fails: a file whose heading is "## TODO" holds no
    literal "## Todo" line, so the rule of the claim appends at the end;
    [addTask] puts the new line right behind the heading. *)
Lemma C7_heading_matched_without_case :
  literalInsertAt 0 (split_lines upperFile) = 2
  /\ findInsertAt 0 (split_lines upperFile) = 1
  /\ (split_lines <$> firstWritten (trace (snd (addTask exampleDay addWorld))))
     = Some [str "## TODO"; str "- [ ] new <!-- tid:052a4f74 -->";
             str "- [ ] old <!-- tid:0123abcd -->"].
Proof. repeat split; vm_compute; reflexivity. Qed.

Lemma skipBlank_spec rest : forall n,
  exists b, skipBlank n rest = n + b /\ b <= length rest
    /\ (forall j l, j < b -> rest !! j = Some l -> isBlank l = true)
    /\ (forall l, rest !! b = Some l -> isBlank l = false).
Proof.
  induction rest as [|l0 rest IH]; intros n; simpl.
  - exists 0. split; [lia|]. split; [done|]. split; [intros; lia|done].
  - destruct (negb (nonEmpty (trim l0))) eqn:E.
    + destruct (IH (S n)) as (b & -> & Hb & H1 & H2).
      exists (S b). split; [lia|]. split; [simpl; lia|]. split; [|done].
      intros j l Hj Hl. destruct j; simpl in Hl; [by inversion Hl; subst|].
      apply (H1 j); [lia|done].
    + exists 0. split; [lia|]. split; [lia|]. split; [intros; lia|].
      intros l Hl. simpl in Hl. by inversion Hl; subst.
Qed.

Lemma findInsertAt_spec lines : forall n,
  exists k, findInsertAt n lines = n + k /\ insertionPoint lines k.
Proof.
  induction lines as [|l0 lines IH]; intros n; simpl.
  - exists 0. split; [lia|]. left. split; [|done]. intros l Hl. by inversion Hl.
  - destruct (streq (toLowerCase (trim l0)) (str "## todo")) eqn:E.
    + destruct (skipBlank_spec lines (S n)) as (b & -> & Hb & H1 & H2).
      exists (S b). split; [lia|]. right. exists 0, l0.
      split; [simpl; lia|]. split; [done|]. split; [done|].
      split; [intros; lia|]. split; [|done].
      intros j l [Hj Hk] Hl. destruct j; [lia|]. simpl in Hl.
      apply (H1 j); [lia|done].
    + destruct (IH (S n)) as (k & -> & Hk). exists (S k). split; [lia|].
      destruct Hk as [[Hno ->]|(i & h & Hi & Hh & Hhd & Hbefore & Hblank & Hend)].
      * left. split; [|done]. intros l Hl.
        apply elem_of_cons in Hl as [->|Hl]; [done|by apply Hno].
      * right. exists (S i), h.
        split; [simpl; lia|]. split; [done|]. split; [done|].
        split; [|split; [|done]].
        -- intros j l Hj Hl. destruct j; simpl in Hl; [by inversion Hl; subst|].
           apply (Hbefore j); [lia|done].
        -- intros j l [Hj1 Hj2] Hl. destruct j; [lia|]. simpl in Hl.
           apply (Hblank j); [lia|done].
Qed.

(** C7, amended: the heading is found by its trimmed, lowered text.
    [addTask] with a draft writes the file once with the new open task,
    carrying a fresh identifier, inserted at the insertion point (behind
    the first "## todo" heading and the blank lines after it, else at the
    end); the lines that were there stay, in order.  A file that does not
    exist starts from the template. *)
Theorem C7_add_task_position w day :
  let text := trim (getDraft w (ymd day)) in
  let md := default TEMPLATE (files w !! filePath day) in
  let lines := split_lines md in
  let id := fst (genTaskId (rnd w) (rndPos w)) in
  let taskLine := str "- [ ] " ++ text ++ str " " ++ taskIdToken id in
  text <> [] ->
  exists k w2,
    insertionPoint lines k
    /\ addTask day w = (Ok tt, setBusy false (snd (loadWeek w2)))
    /\ files w2 = <[filePath day := join_lines (take k lines ++ taskLine :: drop k lines)]> (files w)
    /\ trace w2 = trace w ++ [EvExists (filePath day)]
         ++ match files w !! filePath day with
            | Some _ => []
            | None => [EvWrite (filePath day) TEMPLATE]
            end
         ++ [EvRead (filePath day);
             EvWrite (filePath day) (join_lines (take k lines ++ taskLine :: drop k lines))].
Proof.
  intros text md lines id taskLine Htext.
  destruct (findInsertAt_spec lines 0) as (k & Hk & Hip). simpl in Hk.
  exists k. unfold addTask. fold text.
  assert (nonEmpty text = true) as -> by by destruct text.
  simpl. unfold tryCatchFinally, bind, act, exists_, readTextFile, writeTextFile,
    genTaskIdM, setDraft. simpl.
  subst taskLine id md lines.
  destruct (genTaskId (rnd w) (rndPos w)) as [id pos] eqn:G.
  destruct (files w !! filePath day) as [md|] eqn:Hf; simpl in *.
  - rewrite Hf, Hk. simpl. rewrite G. rewrite (loadWeek_eta (setNewTaskByDay _ _)). simpl.
    eexists. split; [done|]. split; [reflexivity|]. simpl.
    split; [done|]. by rewrite <- !app_assoc.
  - rewrite lookup_insert_eq. simpl. rewrite G.
    change (str "## Todo" ++ [LF; LF]) with TEMPLATE. rewrite Hk.
    rewrite (loadWeek_eta (setNewTaskByDay _ _)). simpl.
    eexists. split; [done|]. split; [reflexivity|]. simpl.
    split; [by rewrite insert_insert_eq|]. by rewrite <- !app_assoc.
Qed.

Transparent str genTaskId taskIdToken.

Lemma C7_add_task_position_witness :
  trim (getDraft addWorld (ymd exampleDay)) <> []
  /\ exists k w2,
      insertionPoint (split_lines upperFile) k
      /\ addTask exampleDay addWorld = (Ok tt, setBusy false (snd (loadWeek w2)))
      /\ files w2 = <[examplePath := join_lines
           (take k (split_lines upperFile)
            ++ (str "- [ ] new <!-- tid:052a4f74 -->") :: drop k (split_lines upperFile))]>
           (files addWorld)
      /\ trace w2 = [EvExists examplePath; EvRead examplePath;
           EvWrite examplePath (join_lines
             (take k (split_lines upperFile)
              ++ (str "- [ ] new <!-- tid:052a4f74 -->") :: drop k (split_lines upperFile)))].
Proof.
  assert (H : trim (getDraft addWorld (ymd exampleDay)) <> [])
    by (vm_compute; congruence).
  exact (conj H (C7_add_task_position addWorld exampleDay H)).
Defined.

(** ** Reloading emits one reload mark and clears the error panel *)

Opaque toYMD hashString addDays weekStart.

Lemma quiet_ret {A} (a : A) w : quietAt (ret a) w.
Proof. exists []. by rewrite app_nil_r. Qed.

Lemma quiet_act f w : trace (f w) = trace w -> quietAt (act f) w.
Proof. intros H. exists []. simpl. by rewrite H, app_nil_r. Qed.

Lemma quiet_bind {A B} (m : M A) (f : A -> M B) w :
  quietAt m w -> (forall a w', quietAt (f a) w') -> quietAt (bind m f) w.
Proof.
  intros (e1 & H1 & F1) Hf. unfold quietAt, bind in *.
  destruct (m w) as [[a|e] w1]; simpl in *.
  - destruct (Hf a w1) as (e2 & H2 & F2). exists (e1 ++ e2).
    rewrite H2, H1, app_assoc. split; [done|]. by apply Forall_app.
  - by exists e1.
Qed.

Lemma quiet_exists p w : quietAt (exists_ p) w.
Proof. exists [EvExists p]. split; [done|]. by repeat constructor. Qed.

Lemma quiet_read p w : quietAt (readTextFile p) w.
Proof.
  exists [EvRead p]. unfold readTextFile.
  destruct (files w !! p); (split; [done|]); by repeat constructor.
Qed.

Lemma quiet_write p c w : quietAt (writeTextFile p c) w.
Proof. exists [EvWrite p c]. split; [done|]. by repeat constructor. Qed.

Lemma quiet_parse md w : quietAt (parseTasksM md) w.
Proof.
  exists []. unfold parseTasksM. destruct (parseTasks _ _ _).
  simpl. by rewrite app_nil_r.
Qed.

Lemma quiet_loadDay i w : quietAt (loadDay i) w.
Proof.
  unfold loadDay. apply quiet_bind; [apply quiet_exists|].
  intros b w1. destruct b; simpl; [|apply quiet_ret].
  apply quiet_bind; [apply quiet_read|]. intros md w2.
  apply quiet_bind; [by apply quiet_act|]. intros _ w3.
  apply quiet_bind; [apply quiet_parse|]. intros ts w4.
  destruct (migrate (split_lines md) ts) as [lines changed].
  apply quiet_bind.
  { destruct changed; [|apply quiet_ret].
    apply quiet_bind; [apply quiet_write|]. intros _ w5. by apply quiet_act. }
  intros _ w5. apply quiet_bind.
  { destruct changed; [apply quiet_parse|apply quiet_ret]. }
  intros ts2 w6. apply quiet_ret.
Qed.

Lemma quiet_loadDays ixs : forall w, quietAt (loadDays ixs) w.
Proof.
  induction ixs as [|i ixs IH]; intros w; simpl; [apply quiet_ret|].
  apply quiet_bind; [apply quiet_loadDay|]. intros d w1.
  apply quiet_bind; [apply IH|]. intros ds w2. apply quiet_ret.
Qed.

Lemma calm_ret {A} (a : A) w : calmAt (ret a) w.
Proof. by exists a. Qed.

Lemma calm_act f w : error (f w) = error w -> calmAt (act f) w.
Proof. intros H. by exists tt. Qed.

Lemma calm_bind {A B} (m : M A) (f : A -> M B) w :
  calmAt m w -> (forall a, fst (m w) = Ok a -> calmAt (f a) (snd (m w))) ->
  calmAt (bind m f) w.
Proof.
  intros (a & H1 & E1) Hf. unfold calmAt, bind in *.
  destruct (m w) as [[a'|e] w1]; simpl in *; [|done].
  destruct (Hf a' eq_refl) as (b & H2 & E2). exists b. by rewrite E2.
Qed.

Lemma calm_parse md w : calmAt (parseTasksM md) w.
Proof.
  unfold calmAt, parseTasksM. destruct (parseTasks _ _ _) as [ts pos]. by exists ts.
Qed.

Lemma calm_write p c w : calmAt (writeTextFile p c) w.
Proof. by exists tt. Qed.

Lemma calm_loadDay i w : calmAt (loadDay i) w.
Proof.
  unfold loadDay, calmAt, bind, exists_. simpl.
  match goal with
  | |- context [files w !! ?p] => destruct (files w !! p) as [md|] eqn:Hf
  end.
  - rewrite bool_decide_eq_true_2 by eauto. simpl.
    unfold readTextFile. simpl. rewrite Hf. simpl.
    unfold parseTasksM. simpl.
    destruct (parseTasks (rnd w) (rndPos w) md) as [ts pos]. simpl.
    destruct (migrate (split_lines md) ts) as [lines [|]]; simpl.
    + match goal with
      | |- context [parseTasks ?a ?b ?c] => destruct (parseTasks a b c) as [ts2 pos2]
      end. simpl. eauto.
    + eauto.
  - rewrite bool_decide_eq_false_2 by (intros [? ?]; done). simpl. eauto.
Qed.

Lemma calm_loadDays ixs : forall w, calmAt (loadDays ixs) w.
Proof.
  induction ixs as [|i ixs IH]; intros w; simpl; [apply calm_ret|].
  apply calm_bind; [apply calm_loadDay|]. intros d _.
  apply calm_bind; [apply IH|]. intros ds _. apply calm_ret.
Qed.

Opaque loadDays.

Lemma loadWeek_unfold w :
  loadWeek w =
    let w1 := setError None (setBusy true (emit EvLoadWeek w)) in
    if nonEmpty (todoDir w) then
      match loadDays [0; 1; 2; 3; 4; 5; 6]%Z w1 with
      | (Ok ds, w2) =>
          (Ok tt, setBusy false (setMetaDraftByTask (nextMetaDrafts ds) (setDays ds w2)))
      | (Thrown e, w2) => (Ok tt, setBusy false (setError (Some e) w2))
      end
    else (Ok tt, setBusy false (setMetaDraftByTask ∅ (setDays [] w1))).
Proof.
  unfold loadWeek, bind, act. simpl.
  destruct (nonEmpty (todoDir w)); simpl; [|done].
  unfold tryCatchFinally, bind.
  by destruct (loadDays _ _) as [[ds|e] w2].
Qed.

(** [loadWeek] marks the trace once, at its start, never throws, and
    ends idle with an empty error panel. *)
Lemma loadWeek_spec w :
  exists evs,
    trace (snd (loadWeek w)) = trace w ++ EvLoadWeek :: evs
    /\ Forall (fun e => isReload e = false) evs
    /\ error (snd (loadWeek w)) = None
    /\ busy (snd (loadWeek w)) = false.
Proof.
  rewrite loadWeek_unfold. cbv zeta.
  destruct (nonEmpty (todoDir w)).
  - set (w1 := setError None (setBusy true (emit EvLoadWeek w))).
    destruct (quiet_loadDays [0; 1; 2; 3; 4; 5; 6]%Z w1) as (evs & Ht & Hq).
    destruct (calm_loadDays [0; 1; 2; 3; 4; 5; 6]%Z w1) as (ds & Hok & Herr).
    exists evs.
    destruct (loadDays [0; 1; 2; 3; 4; 5; 6]%Z w1) as [[ds'|e] w2]; simpl in *; [|done].
    rewrite Ht. rewrite <- app_assoc. done.
  - exists []. by repeat split.
Qed.

Lemma loadWeek_reloadCount w :
  reloadCount (trace (snd (loadWeek w))) = S (reloadCount (trace w)).
Proof.
  destruct (loadWeek_spec w) as (evs & -> & Hq & _).
  unfold reloadCount. rewrite filter_app, length_app. simpl.
  assert (filter (fun e => isReload e = true) evs = []) as ->.
  { induction Hq as [|e evs He Hq IH]; [done|].
    rewrite filter_cons. rewrite He. simpl. destruct (decide (false = true)); done. }
  simpl. lia.
Qed.

(** ** The change watcher *)

Lemma reads_app ds1 ds2 w : reads (ds1 ++ ds2) w = reads ds2 (reads ds1 w).
Proof. unfold reads. by rewrite fold_left_app. Qed.

Lemma reads_frame ds : forall w,
  files (reads ds w) = files w /\ lastHashes (reads ds w) = lastHashes w
  /\ reloadCount (trace (reads ds w)) = reloadCount (trace w).
Proof.
  induction ds as [|d ds IH]; intros w; simpl; [done|].
  destruct (missing d); [apply IH|].
  destruct (IH (emit (EvRead (filePath d)) w)) as (-> & -> & ->). simpl.
  repeat split. unfold reloadCount. rewrite filter_app, length_app. simpl. lia.
Qed.

Lemma dayChanged_frame w w' d :
  files w' = files w -> lastHashes w' = lastHashes w ->
  dayChanged w' d = dayChanged w d.
Proof. intros Hf Hl. unfold dayChanged. by rewrite Hf, Hl. Qed.

Lemma watchDays_unchanged ds : forall w,
  (forall d, d ∈ ds -> missing d = false -> is_Some (files w !! filePath d)) ->
  Forall (fun d => dayChanged w d = false) ds ->
  watchDays ds w = (Ok tt, reads ds w).
Proof.
  induction ds as [|d ds IH]; intros w Hr Hc; simpl; [done|].
  inversion Hc as [|? ? Hd Hds]; subst.
  assert (Hr' : forall d', d' ∈ ds -> missing d' = false ->
                is_Some (files w !! filePath d')).
  { intros d' Hin. apply Hr. by apply elem_of_cons; right. }
  destruct (missing d) eqn:Hm; [by apply IH|].
  destruct (Hr d ltac:(by apply elem_of_cons; left) Hm) as [md Hmd].
  unfold bind, readTextFile. rewrite Hmd. simpl.
  unfold dayChanged in Hd. rewrite Hm, Hmd in Hd. simpl in Hd.
  assert (IH' : watchDays ds (emit (EvRead (filePath d)) w)
                = (Ok tt, reads ds (emit (EvRead (filePath d)) w))).
  { apply IH; [done|]. eapply Forall_impl; [exact Hds|]. intros x Hx.
    by rewrite (dayChanged_frame w). }
  destruct (lastHashes w !! ymd d) as [prev|]; [|done].
  by rewrite Hd.
Qed.

Lemma watchDays_changed pre : forall w day post,
  (forall d, d ∈ pre -> missing d = false -> is_Some (files w !! filePath d)) ->
  Forall (fun d => dayChanged w d = false) pre ->
  dayChanged w day = true ->
  watchDays (pre ++ day :: post) w = loadWeek (reads (pre ++ [day]) w).
Proof.
  induction pre as [|d pre IH]; intros w day post Hr Hc Hday; simpl.
  - unfold dayChanged in Hday.
    destruct (missing day); [done|]. simpl in Hday.
    unfold bind, readTextFile.
    destruct (files w !! filePath day) as [md|]; [|done]. simpl.
    destruct (lastHashes w !! ymd day) as [prev|]; [|done].
    by rewrite Hday.
  - inversion Hc as [|? ? Hd Hds]; subst.
    assert (Hr' : forall d', d' ∈ pre -> missing d' = false ->
                  is_Some (files w !! filePath d')).
    { intros d' Hin. apply Hr. by apply elem_of_cons; right. }
    destruct (missing d) eqn:Hm; [by apply IH|].
    destruct (Hr d ltac:(by apply elem_of_cons; left) Hm) as [md Hmd].
    unfold bind, readTextFile. rewrite Hmd. simpl.
    unfold dayChanged in Hd. rewrite Hm, Hmd in Hd. simpl in Hd.
    assert (IH' : watchDays (pre ++ day :: post) (emit (EvRead (filePath d)) w)
                  = loadWeek (reads (pre ++ [day]) (emit (EvRead (filePath d)) w))).
    { apply IH; [done| |by rewrite (dayChanged_frame w)].
      eapply Forall_impl; [exact Hds|]. intros x Hx.
      by rewrite (dayChanged_frame w). }
    destruct (lastHashes w !! ymd d) as [prev|]; [|done].
    by rewrite Hd.
Qed.



(** The not-found path of [toggleTask] and [deleteTask], for every world:
    the file is read, nothing is written by the mutation, the week is
    reloaded, and the message set before the reload is gone after it. *)
Lemma not_found_message_cleared w day task md :
  files w !! filePath day = Some md ->
  findIndex (fun l => lineHasTaskId l (t_id task)) (split_lines md) = None ->
  let w1 := setError (Some (Message MSG_NOT_FOUND))
              (emit (EvRead (filePath day)) (setError None (setBusy true w))) in
  toggleTask day task w = (Ok tt, setBusy false (snd (loadWeek w1)))
  /\ deleteTask day task w = (Ok tt, setBusy false (snd (loadWeek w1)))
  /\ error w1 = Some (Message MSG_NOT_FOUND)
  /\ error (setBusy false (snd (loadWeek w1))) = None.
Proof.
  intros Hf Hidx w1. split; [|split; [|split]].
  - unfold toggleTask, tryCatchFinally, bind, act, readTextFile. simpl.
    rewrite Hf. simpl. rewrite Hidx.
    by rewrite (loadWeek_eta (setError _ _)).
  - unfold deleteTask, tryCatchFinally, bind, act, readTextFile. simpl.
    rewrite Hf. simpl. rewrite Hidx.
    by rewrite (loadWeek_eta (setError _ _)).
  - done.
  - destruct (loadWeek_spec w1) as (evs & _ & _ & He & _). done.
Qed.

(** ** Code units *)

Lemma isSpace_cases c :
  isSpace c = true ->
  (9 <= c <= 13 \/ c = 32 \/ c = 160 \/ c = 5760 \/ 8192 <= c <= 8202
   \/ c = 8232 \/ c = 8233 \/ c = 8239 \/ c = 8287 \/ c = 12288 \/ c = 65279)%N.
Proof. unfold isSpace. intros H. bool_to_prop H. lia. Qed.

Lemma isHex_range c :
  isHex c = true ->
  (48 <= c <= 57 \/ 97 <= c <= 102 \/ 65 <= c <= 70)%N.
Proof. unfold isHex. intros H. bool_to_prop H. lia. Qed.

Lemma isDigit_range c : isDigit c = true -> (48 <= c <= 57)%N.
Proof. unfold isDigit. intros H. bool_to_prop H. lia. Qed.

(** A code unit in the printable ASCII range above the space is not
    whitespace. *)
Lemma ascii_nonSpace c : (33 <= c <= 126)%N -> isSpace c = false.
Proof.
  intros H. destruct (isSpace c) eqn:E; [|done].
  apply isSpace_cases in E. lia.
Qed.

Lemma isHex_nonSpace c : isHex c = true -> isSpace c = false.
Proof. intros H. apply isHex_range in H. apply ascii_nonSpace. lia. Qed.

Lemma isLineTerminator_isSpace c : isLineTerminator c = true -> isSpace c = true.
Proof.
  unfold isLineTerminator. intros H. bool_to_prop H.
  destruct H as [[[H|H]|H]|H]; subst c; reflexivity.
Qed.

Lemma nonSpace_dot c : isSpace c = false -> dot c = true.
Proof.
  intros H. unfold dot. destruct (isLineTerminator c) eqn:E; [|done].
  apply isLineTerminator_isSpace in E. congruence.
Qed.

Lemma isDigit_isHex c : isDigit c = true -> isHex c = true.
Proof. unfold isDigit, isHex. intros H. rewrite H. done. Qed.

(** ** Trimming *)

Lemma trimStart_spaces s t : allb isSpace s = true -> trimStart (s ++ t) = trimStart t.
Proof.
  induction s as [|c s IH]; simpl; [done|].
  intros H. apply andb_true_iff in H as [-> Hs]. by apply IH.
Qed.

Lemma trimEnd_nil_iff s : trimEnd s = [] <-> allb isSpace s = true.
Proof.
  induction s as [|c s IH]; simpl; [done|].
  destruct (trimEnd s) eqn:E.
  - destruct (isSpace c); simpl; [|done]. split; [intros _; by apply IH|done].
  - split; [done|]. intros H. apply andb_true_iff in H as [_ H].
    apply IH in H. done.
Qed.

Lemma trimEnd_app a b : trimEnd b <> [] -> trimEnd (a ++ b) = a ++ trimEnd b.
Proof.
  intros Hb. induction a as [|c a IH]; simpl; [done|].
  rewrite IH. destruct (a ++ trimEnd b) eqn:E; [|done].
  by destruct a, (trimEnd b).
Qed.

Lemma trimEnd_app_spaces a b : allb isSpace b = true -> trimEnd (a ++ b) = trimEnd a.
Proof.
  intros Hb. induction a as [|c a IH]; simpl.
  - by apply trimEnd_nil_iff.
  - by rewrite IH.
Qed.

Lemma trimEnd_snoc a x : isSpace x = false -> trimEnd (a ++ [x]) = a ++ [x].
Proof.
  intros Hx. rewrite trimEnd_app; simpl; rewrite Hx; done.
Qed.

Lemma trimStart_all_spaces s : allb isSpace s = true -> trimStart s = [].
Proof.
  induction s as [|x s IH]; simpl; [done|].
  intros H. apply andb_true_iff in H as [-> H]. by apply IH.
Qed.

Lemma trimStart_trimEnd s : trimStart (trimEnd s) = trimEnd (trimStart s).
Proof.
  induction s as [|c s IH]; [done|].
  change (trimEnd (c :: s)) with
    (match trimEnd s with [] => if isSpace c then [] else [c] | t => c :: t end).
  change (trimStart (c :: s)) with (if isSpace c then trimStart s else c :: s).
  destruct (isSpace c) eqn:Hc.
  - destruct (trimEnd s) as [|y t] eqn:E.
    + simpl. symmetry. apply trimEnd_nil_iff in E.
      by rewrite (trimStart_all_spaces _ E).
    + rewrite <- IH. simpl. by rewrite Hc.
  - change (trimEnd (c :: s)) with
      (match trimEnd s with [] => if isSpace c then [] else [c] | t => c :: t end).
    destruct (trimEnd s) as [|y t] eqn:E; rewrite ?Hc; simpl; by rewrite Hc.
Qed.

Lemma trimStart_idem s : trimStart (trimStart s) = trimStart s.
Proof.
  induction s as [|c s IH]; simpl; [done|].
  destruct (isSpace c) eqn:Hc; [done|]. simpl. by rewrite Hc.
Qed.

Lemma trimEnd_idem s : trimEnd (trimEnd s) = trimEnd s.
Proof.
  induction s as [|c s IH]; simpl; [done|].
  destruct (trimEnd s) as [|y t] eqn:E.
  - destruct (isSpace c) eqn:Hc; simpl; by rewrite ?Hc.
  - simpl. simpl in IH. rewrite IH. done.
Qed.

Lemma trim_clean s : clean (trim s).
Proof.
  unfold clean, trim.
  by rewrite (trimStart_trimEnd (trimStart s)), trimStart_idem, trimEnd_idem.
Qed.

Lemma clean_nil : clean [].
Proof. done. Qed.

(** A clean string is empty, or begins and ends outside whitespace. *)
Lemma clean_head c s : clean (c :: s) -> isSpace c = false.
Proof.
  unfold clean, trim. simpl. destruct (isSpace c) eqn:E; [|done].
  intros H. assert (Hl : length (trimEnd (trimStart s)) = S (length s)) by by rewrite H.
  assert (Hle : forall t, length (trimEnd t) <= length t).
  { induction t as [|x t IHt]; simpl; [lia|].
    destruct (trimEnd t); simpl in *; [destruct (isSpace x); simpl; lia|lia]. }
  assert (Hle2 : forall t, length (trimStart t) <= length t).
  { induction t as [|x t IHt]; simpl; [lia|]. destruct (isSpace x); simpl; lia. }
  pose proof (Hle (trimStart s)). pose proof (Hle2 s). lia.
Qed.

Lemma clean_trimEnd s : clean s -> trimEnd s = s.
Proof.
  unfold clean, trim. intros H. rewrite <- H at 1. rewrite trimEnd_idem. done.
Qed.

Lemma clean_trimStart s : clean s -> trimStart s = s.
Proof.
  unfold clean, trim. intros H. rewrite <- H at 1.
  rewrite <- trimStart_trimEnd, trimStart_idem, trimStart_trimEnd. done.
Qed.

Lemma clean_intro s : trimStart s = s -> trimEnd s = s -> clean s.
Proof. unfold clean, trim. by intros -> ->. Qed.

Lemma trimEnd_nonempty_last s :
  trimEnd s <> [] -> exists a x, trimEnd s = a ++ [x] /\ isSpace x = false.
Proof.
  induction s as [|c s IH]; simpl; [done|].
  destruct (trimEnd s) as [|y t] eqn:E.
  - destruct (isSpace c) eqn:Hc; [done|]. intros _. by exists [], c.
  - intros _. destruct IH as (a & x & Ha & Hx); [done|].
    exists (c :: a), x. by rewrite Ha.
Qed.

Lemma clean_last s : clean s -> s <> [] -> exists a x, s = a ++ [x] /\ isSpace x = false.
Proof.
  intros H Hne. rewrite <- (clean_trimEnd s H). apply trimEnd_nonempty_last.
  by rewrite (clean_trimEnd s H).
Qed.

Lemma clean_app_nonspace a x b y :
  isSpace x = false -> isSpace y = false -> clean (x :: a ++ b ++ [y]).
Proof.
  intros Hx Hy. apply clean_intro.
  - simpl. by rewrite Hx.
  - change (x :: a ++ b ++ [y]) with ((x :: a) ++ b ++ [y]).
    rewrite !app_assoc. by apply trimEnd_snoc.
Qed.

(** ** Runs of one class *)

Lemma span_spec p s :
  exists a b, s = a ++ b /\ allb p a = true
    /\ match b with [] => True | x :: _ => p x = false end.
Proof.
  induction s as [|c s IH]; [by exists [], []|].
  destruct (p c) eqn:Hc.
  - destruct IH as (a & b & -> & Ha & Hb). exists (c :: a), b.
    simpl. by rewrite Hc, Ha.
  - exists [], (c :: s). by simpl.
Qed.

Lemma rep_stop p hi i acc s c k :
  match s with [] => True | x :: _ => p x = false end ->
  rep p 0 hi i acc s c k = k i acc s c.
Proof. destruct s as [|x s]; simpl; [done|]. by intros ->. Qed.

Lemma rep_fail_head p lo hi i acc x s c k :
  p x = false -> rep p (S lo) hi i acc (x :: s) c k = None.
Proof. simpl. by intros ->. Qed.

Lemma rep_fail_nil p lo hi i acc c k : rep p (S lo) hi i acc [] c k = None.
Proof. done. Qed.

Lemma search_class_none p : forall s i,
  allb (fun c => negb (p c)) s = true -> search (Rep p 1 None) i s = None.
Proof.
  induction s as [|x s IH]; intros i H; simpl; [done|].
  apply andb_true_iff in H as [Hx Hs]. apply negb_true_iff in Hx.
  unfold run_at. simpl. rewrite Hx. simpl. by apply IH.
Qed.

Lemma search_class_first p i pre x ws t :
  allb (fun c => negb (p c)) pre = true -> p x = true ->
  allb p ws = true ->
  match t with [] => True | y :: _ => p y = false end ->
  search (Rep p 1 None) i (pre ++ x :: ws ++ t) =
    Some {| index := i + length pre; matched := x :: ws; after := t; groups := [] |}.
Proof.
  intros Hpre Hx Ha Hb.
  apply (search_first _ pre (x :: ws ++ t) i (i + length pre + S (length ws))).
  - intros p0 q -> Hq. destruct q as [|y q]; [done|].
    rewrite allb_app in Hpre. apply andb_true_iff in Hpre as [_ Hq'].
    simpl in Hq'. apply andb_true_iff in Hq' as [Hy _]. apply negb_true_iff in Hy.
    unfold run_at. simpl. by rewrite Hy.
  - unfold run_at. cbn [run].
    change (x :: ws ++ t) with ((x :: ws) ++ t).
    apply rep_greedy; simpl; try done.
    + by rewrite Hx, Ha.
    + lia.
    + destruct t; [done|by left].
Qed.

(** ** Whitespace normalisation *)

Lemma collapse_nonspace pre t :
  allb nonSpace pre = true -> collapse (pre ++ t) = pre ++ collapse t.
Proof.
  induction pre as [|c pre IH]; simpl; [done|].
  intros H. apply andb_true_iff in H as [Hc Hp].
  unfold nonSpace in Hc. apply negb_true_iff in Hc. rewrite Hc. by rewrite IH.
Qed.

Lemma collapse_skip x c s :
  isSpace x = true -> isSpace c = true ->
  collapse (x :: c :: s) = collapse (c :: s).
Proof.
  intros Hx Hc.
  change (collapse (x :: c :: s)) with
    (if isSpace x
     then if isSpace c then collapse (c :: s) else 32%N :: collapse (c :: s)
     else x :: collapse (c :: s)).
  by rewrite Hx, Hc.
Qed.

Lemma collapse_last_space x s :
  isSpace x = true ->
  match s with [] => True | y :: _ => isSpace y = false end ->
  collapse (x :: s) = 32%N :: collapse s.
Proof.
  intros Hx Hs. destruct s as [|y s].
  - simpl. by rewrite Hx.
  - change (collapse (x :: y :: s)) with
      (if isSpace x
       then if isSpace y then collapse (y :: s) else 32%N :: collapse (y :: s)
       else x :: collapse (y :: s)).
    by rewrite Hx, Hs.
Qed.

Lemma collapse_spaces ws x t :
  allb isSpace ws = true -> isSpace x = true ->
  match t with [] => True | y :: _ => isSpace y = false end ->
  collapse (x :: ws ++ t) = 32%N :: collapse t.
Proof.
  revert x. induction ws as [|w ws IH]; intros x Hws Hx Ht.
  - by apply collapse_last_space.
  - simpl in Hws. apply andb_true_iff in Hws as [Hw Hws].
    change (x :: (w :: ws) ++ t) with (x :: w :: ws ++ t).
    rewrite collapse_skip by done. by apply IH.
Qed.

Lemma replace_from_collapse : forall fuel i s,
  length s < fuel -> replace_from fuel (plus isSpace) [32%N] i s = collapse s.
Proof.
  induction fuel as [|fuel IH]; intros i s Hlen; [lia|].
  destruct (span_spec nonSpace s) as (pre & rest & -> & Ha & Hb).
  assert (Ha' : allb (fun c => negb (isSpace c)) pre = true) by exact Ha.
  destruct rest as [|x rest].
  - rewrite app_nil_r. simpl. unfold plus.
    rewrite search_class_none by done.
    rewrite <- (app_nil_r pre) at 2. by rewrite collapse_nonspace, app_nil_r.
  - assert (Hx : isSpace x = true).
    { unfold nonSpace in Hb. by apply negb_false_iff in Hb. }
    destruct (span_spec isSpace rest) as (ws & t & -> & Hws & Ht).
    cbn [replace_from]. unfold plus.
    rewrite (search_class_first isSpace i pre x ws t) by done. cbn [index matched after].
    replace (i + length pre - i) with (length pre) by lia.
    rewrite take_app_length.
    rewrite IH.
    + rewrite collapse_nonspace by done. by rewrite collapse_spaces.
    + rewrite !length_app in Hlen. simpl in Hlen. rewrite length_app in Hlen. lia.
Qed.

Lemma replace_all_collapse s : replace_all (plus isSpace) [32%N] s = collapse s.
Proof. unfold replace_all. apply replace_from_collapse. lia. Qed.

(** Every code unit of a collapsed text is outside whitespace or is the
    plain space. *)
Lemma collapse_units s :
  Forall (fun c => isSpace c = false \/ c = 32%N) (collapse s).
Proof.
  induction s as [|c s IH]; simpl; [constructor|].
  destruct (isSpace c) eqn:Hc.
  - destruct s as [|c' s]; [repeat constructor; by right|].
    destruct (isSpace c'); [done|]. constructor; [by right|done].
  - constructor; [by left|done].
Qed.

(** ** Forward runs of the patterns of the codec *)

Lemma search_at_start r s e u rest c :
  run_at r 0 s = Some (e, u, rest, c) ->
  match_ r s = Some {| index := 0; matched := u; after := rest; groups := c |}.
Proof.
  intros H. unfold match_. destruct s; simpl; by rewrite H.
Qed.

Lemma TASK_RE_forward ws1 ws2 c ws3 body :
  allb isSpace ws1 = true -> allb isSpace ws2 = true -> isMark c = true ->
  allb isSpace ws3 = true -> ws3 <> [] -> allb dot body = true ->
  match body with [] => True | y :: _ => isSpace y = false end ->
  exists whole,
    match_ TASK_RE (ws1 ++ 45%N :: ws2 ++ 91%N :: c :: 93%N :: ws3 ++ body)
    = Some {| index := 0; matched := whole; after := [];
              groups := [(2, body); (1, [c])] |}.
Proof.
  intros H1 H2 Hc H3 Hne Hb Hhd. eexists.
  eapply search_at_start. unfold run_at, TASK_RE, SP, star, plus. norm_str.
  cbn [cat run].
  apply rep_greedy; [done|lia|done|by left|]. cbn [strip_prefix N.eqb Pos.eqb].
  apply rep_greedy; [done|lia|done|by left|]. cbn [strip_prefix N.eqb Pos.eqb].
  rewrite Hc. cbn [strip_prefix N.eqb Pos.eqb].
  apply rep_greedy; [done|destruct ws3; [done|simpl; lia]|done| |].
  { destruct body; [done|by left]. }
  rewrite <- (app_nil_r body) at 1.
  apply rep_greedy; [done|lia|done|done|].
  reflexivity.
Qed.

Lemma isSpace_not c x : isSpace c = true -> isSpace x = false -> c <> x.
Proof. congruence. Qed.

Lemma Forall_not_in {A} (x : A) (l : list A) : Forall (fun c => c <> x) l -> x ∉ l.
Proof. intros H Hin. rewrite Forall_forall in H. by apply (H x). Qed.

Lemma allb_not_in p x l : allb p l = true -> p x = false -> x ∉ l.
Proof.
  intros H Hx Hin. apply allb_Forall in H. rewrite Forall_forall in H.
  specialize (H x Hin). congruence.
Qed.

(** The canonical pattern on a text that ends in the token of [id]: the
    match starts at the token and captures [id], whatever comes before. *)
Lemma TASK_ID_HTML_RE_at_end P id :
  validId id ->
  exists whole,
    match_ TASK_ID_HTML_RE (P ++ taskIdToken id)
    = Some {| index := length P; matched := whole; after := [];
              groups := [(1, id)] |}.
Proof.
  intros [[Hlo Hhi] Hhex]. eexists. unfold match_.
  change (length P) with (0 + length P).
  eapply search_first.
  - intros p q -> Hq. apply run_at_None. intros u rest c HM.
    unfold TASK_ID_HTML_RE, SP, star in HM. norm_str_in HM. cbn [cat] in HM.
    inv_M. destruct q as [|x q]; [done|].
    match goal with H : _ = (x :: q) ++ _ |- _ => rename H into E end.
    unfold taskIdToken in E. norm_str_in E. simpl in E.
    inversion E as [[Ex E']]; subst x. clear E.
    assert (Hin : 60%N ∈ q ++ 60%N :: 33%N :: 45%N :: 45%N :: 32%N :: 116%N
                    :: 105%N :: 100%N :: 58%N :: id ++ [32%N; 45%N; 45%N; 62%N]).
    { apply elem_of_app. right. by left. }
    rewrite <- E' in Hin.
    repeat (apply elem_of_cons in Hin as [Hin|Hin]; [done|]).
    repeat (apply elem_of_app in Hin as [Hin|Hin];
            [by eapply allb_not_in in Hin; eauto using isHex_nonSpace|]).
    repeat match goal with
    | H : 60%N ∈ _ :: _ |- _ => apply elem_of_cons in H as [H|H]; [done|]
    | H : 60%N ∈ _ ++ _ |- _ => apply elem_of_app in H as [H|H]
    | H : 60%N ∈ [] |- _ => by inversion H
    | H : 60%N ∈ ?l, H' : allb isSpace ?l = true |- _ =>
        by apply (allb_not_in _ _ _ H') in H
    | H : 60%N ∈ ?l, H' : allb isHex ?l = true |- _ =>
        by apply (allb_not_in _ _ _ H') in H
    end.
  - unfold run_at, TASK_ID_HTML_RE, SP, star, taskIdToken. norm_str.
    cbn [cat run app strip_prefix N.eqb Pos.eqb].
    apply (rep_greedy isSpace [32%N]); [done|simpl; lia|done|by left|].
    cbn [strip_prefix N.eqb Pos.eqb].
    apply (rep_greedy isHex id); [done|lia|intros h [= <-]; lia|by left|].
    apply (rep_greedy isSpace [32%N]); [done|simpl; lia|done|by left|].
    cbn [strip_prefix N.eqb Pos.eqb].
    apply (rep_greedy isSpace []); [done|simpl; lia|done|done|].
    reflexivity.
Qed.

(** ** Printing and reading minutes *)

Lemma digitsFuel_digits fuel : forall n tail,
  allb isDigit tail = true -> allb isDigit (digitsFuel 10 fuel n tail) = true.
Proof.
  induction fuel as [|fuel IH]; intros n tail Ht; cbn [digitsFuel]; [done|].
  pose proof (N.mod_lt n 10 ltac:(lia)) as Hr.
  set (r := (n mod 10)%N) in *.
  destruct (N.ltb_spec r 10); [|lia].
  assert (Hd : isDigit (48 + r) = true).
  { unfold isDigit. apply andb_true_iff. split; apply N.leb_le; lia. }
  destruct (n <? 10)%N; [cbn [allb]; by rewrite Hd|].
  apply IH. cbn [allb]. by rewrite Hd.
Qed.

Lemma digitsFuel_nonempty fuel n tail : digitsFuel 10 (S fuel) n tail <> [].
Proof.
  revert n tail. induction fuel as [|fuel IH]; intros n tail.
  - simpl. by destruct (n <? 10)%N.
  - change (digitsFuel 10 (S (S fuel)) n tail) with
      (let r := (n mod 10)%N in
       let d := if (r <? 10)%N then (48 + r)%N else (87 + r)%N in
       if (n <? 10)%N then d :: tail else digitsFuel 10 (S fuel) (n / 10)%N (d :: tail)).
    cbv zeta. destruct (n <? 10)%N; [done|apply IH].
Qed.

Lemma String__digits n : allb isDigit (String_ n) = true.
Proof. unfold String_, toRadix. by apply digitsFuel_digits. Qed.

Lemma String__nonempty n : String_ n <> [].
Proof. unfold String_, toRadix. apply digitsFuel_nonempty. Qed.

Lemma String__isIntegerText n : isIntegerText (String_ n) = true.
Proof.
  unfold isIntegerText. rewrite String__digits, andb_true_r.
  pose proof (String__nonempty n). by destruct (String_ n).
Qed.

Lemma digitsFuel_decimal fuel : forall n tail,
  (n < 2 ^ N.of_nat fuel)%N ->
  decimalVal (digitsFuel 10 fuel n tail)
  = fold_left (fun a c => (a * 10 + digitVal c)%N) tail n.
Proof.
  unfold decimalVal, radixVal.
  induction fuel as [|fuel IH]; intros n tail Hn.
  - change (2 ^ N.of_nat 0)%N with 1%N in Hn. assert (n = 0%N) as -> by lia. done.
  - cbn [digitsFuel].
    pose proof (N.mod_lt n 10 ltac:(lia)) as Hr.
    pose proof (N.div_mod n 10 ltac:(lia)) as Hdm.
    set (r := (n mod 10)%N) in *. set (q := (n / 10)%N) in *.
    destruct (N.ltb_spec r 10); [|lia].
    destruct (N.ltb_spec n 10) as [Hlt|Hge].
    + cbn [fold_left]. unfold digitVal.
      assert (q = 0%N) as Hq by (subst q; by apply N.div_small).
      replace (0 * 10 + (48 + r - 48))%N with n by lia. done.
    + rewrite IH.
      * cbn [fold_left]. unfold digitVal. f_equal. lia.
      * rewrite Nat2N.inj_succ, N.pow_succ_r' in Hn. lia.
Qed.

Lemma decimalVal_String_ n : decimalVal (String_ n) = n.
Proof.
  unfold String_, toRadix. rewrite digitsFuel_decimal; [done|].
  rewrite Nat2N.inj_succ, N2Nat.id.
  destruct (N.eq_dec n 0%N) as [->|Hn]; [done|].
  apply N.log2_spec. lia.
Qed.

(** Reading back what was printed. *)
Lemma Number_String_ n : Number (String_ n) = Num n.
Proof. by rewrite Number_digits, decimalVal_String_ by apply String__isIntegerText. Qed.

(** ** The shape of a built line *)

Lemma trimStart_Forall (P : N -> Prop) s : Forall P s -> Forall P (trimStart s).
Proof.
  induction 1 as [|c s Hc Hs IH]; simpl; [constructor|].
  destruct (isSpace c); [done|by constructor].
Qed.

Lemma trimEnd_Forall (P : N -> Prop) s : Forall P s -> Forall P (trimEnd s).
Proof.
  induction 1 as [|c s Hc Hs IH]; simpl; [constructor|].
  destruct (trimEnd s); [destruct (isSpace c); by repeat constructor|by constructor].
Qed.

Lemma trim_Forall (P : N -> Prop) s : Forall P s -> Forall P (trim s).
Proof. intros H. by apply trimEnd_Forall, trimStart_Forall. Qed.

Lemma cleanedText_normalized text : exists X, cleanedText text = normalizeWs X.
Proof.
  unfold cleanedText, parseMeta.
  destruct (match_ REASON_RE _) as [m|]; simpl; eexists;
    by rewrite replace_all_collapse.
Qed.

Lemma normalizeWs_units X :
  Forall (fun c => isSpace c = false \/ c = 32%N) (normalizeWs X).
Proof. apply trim_Forall, collapse_units. Qed.

Lemma units_dot s :
  Forall (fun c => isSpace c = false \/ c = 32%N) s -> allb dot s = true.
Proof.
  intros H. apply allb_Forall. eapply Forall_impl; [exact H|].
  intros c [Hc| ->]; [by apply nonSpace_dot|done].
Qed.

Lemma cleanedText_clean text : clean (cleanedText text).
Proof. destruct (cleanedText_normalized text) as [X ->]. apply trim_clean. Qed.

Lemma cleanedText_dot text : allb dot (cleanedText text) = true.
Proof.
  destruct (cleanedText_normalized text) as [X ->].
  apply units_dot, normalizeWs_units.
Qed.

Lemma buildTaskLine_shape checked text meta id :
  buildTaskLine checked text meta id =
    [45%N; 32%N; 91%N; markOf checked; 93%N; 32%N]
    ++ (seg (cleanedText text) ++ seg (estToken (meta_estMin meta))
        ++ seg (actToken (meta_actMin meta))
        ++ seg (reasonToken (trim (meta_reason meta))))
    ++ taskIdToken id.
Proof.
  unfold buildTaskLine, seg, estToken, actToken, reasonToken, markOf.
  destruct checked, (cleanedText text) as [|b0 B], (meta_estMin meta) as [e|],
    (meta_actMin meta) as [a|], (trim (meta_reason meta)) as [|r0 R];
    cbn [nonEmpty app join_space EST_MARK ACT_MARK REASON_MARK];
    norm_str; cbn [app join_space];
    repeat first [rewrite <- app_assoc | progress cbn [app]]; reflexivity.
Qed.

Lemma startsNonSpace_app a b :
  startsNonSpace a -> (a = [] -> startsNonSpace b) -> startsNonSpace (a ++ b).
Proof. destruct a; simpl; auto. Qed.

Lemma seg_startsNonSpace x : startsNonSpace x -> startsNonSpace (seg x).
Proof. unfold seg. by destruct x. Qed.

Lemma seg_nil x : seg x = [] -> x = [].
Proof. unfold seg. destruct x; [done|]. simpl. by destruct x. Qed.

Lemma seg_dot x : allb dot x = true -> allb dot (seg x) = true.
Proof.
  unfold seg. destruct (nonEmpty x); [|done].
  intros H. by rewrite allb_app, H.
Qed.

Lemma allb_dot_digits s : allb isDigit s = true -> allb dot s = true.
Proof.
  apply allb_impl. intros c Hc. apply nonSpace_dot. by apply isDigit_nonSpace.
Qed.

Lemma estToken_dot v : allb dot (estToken v) = true.
Proof.
  destruct v as [n|]; [|done]. unfold estToken, EST_MARK. norm_str.
  cbn [app allb]. by rewrite allb_dot_digits by apply String__digits.
Qed.

Lemma actToken_dot v : allb dot (actToken v) = true.
Proof.
  destruct v as [n|]; [|done]. unfold actToken, ACT_MARK. norm_str.
  cbn [app allb]. by rewrite allb_dot_digits by apply String__digits.
Qed.

Lemma reasonToken_dot r : allb dot r = true -> allb dot (reasonToken r) = true.
Proof.
  unfold reasonToken. destruct (nonEmpty r); [|done]. intros H.
  unfold REASON_MARK. norm_str. cbn [app allb]. by rewrite H.
Qed.

Lemma estToken_starts v : startsNonSpace (estToken v).
Proof. by destruct v. Qed.

Lemma actToken_starts v : startsNonSpace (actToken v).
Proof. by destruct v. Qed.

Lemma reasonToken_starts r : startsNonSpace (reasonToken r).
Proof. unfold reasonToken. by destruct (nonEmpty r). Qed.

Lemma clean_startsNonSpace s : clean s -> startsNonSpace s.
Proof. destruct s as [|c s]; [done|]. apply clean_head. Qed.

Lemma taskIdToken_dot id : allb isHex id = true -> allb dot (taskIdToken id) = true.
Proof.
  intros H. unfold taskIdToken. norm_str. cbn [app allb].
  rewrite allb_app. cbn [allb].
  assert (allb dot id = true) as ->; [|done].
  eapply allb_impl; [|exact H]. intros c Hc. by apply nonSpace_dot, isHex_nonSpace.
Qed.

Lemma taskIdToken_clean_after P id :
  startsNonSpace (P ++ taskIdToken id) -> clean (P ++ taskIdToken id).
Proof.
  intros H. apply clean_intro.
  - destruct (P ++ taskIdToken id) eqn:E; [done|]. simpl in *. by rewrite H.
  - unfold taskIdToken. norm_str.
    replace (P ++ [60; 33; 45; 45; 32; 116; 105; 100; 58]%N ++ id ++ [32; 45; 45; 62]%N)
      with ((P ++ [60; 33; 45; 45; 32; 116; 105; 100; 58]%N ++ id ++ [32; 45; 45]%N) ++ [62%N])
      by (norm_app; reflexivity).
    by apply trimEnd_snoc.
Qed.

Lemma allb_dot_noLF s : allb dot s = true -> noLF s.
Proof.
  intros H. apply allb_Forall in H. eapply Forall_impl; [exact H|].
  intros c Hc ->. done.
Qed.

Lemma markOf_isMark checked : isMark (markOf checked) = true.
Proof. by destruct checked. Qed.

Lemma markOf_done checked :
  streq (toLowerCase [markOf checked]) (str "x") = checked.
Proof. by destruct checked. Qed.

(** The parts between the checkbox and the identifier token of a built
    line hold no line terminator and begin outside whitespace. *)
Lemma built_parts text meta :
  allb dot (trim (meta_reason meta)) = true ->
  let P := seg (cleanedText text) ++ seg (estToken (meta_estMin meta))
           ++ seg (actToken (meta_actMin meta))
           ++ seg (reasonToken (trim (meta_reason meta))) in
  allb dot P = true /\ forall t, startsNonSpace t -> startsNonSpace (P ++ t).
Proof.
  intros Hr P. subst P. split.
  - rewrite !allb_app, !seg_dot; auto using cleanedText_dot, estToken_dot,
      actToken_dot, reasonToken_dot.
  - intros t Ht. rewrite <- !app_assoc.
    repeat (apply startsNonSpace_app;
            [apply seg_startsNonSpace;
             auto using estToken_starts, actToken_starts, reasonToken_starts,
               clean_startsNonSpace, cleanedText_clean|intros _]).
    done.
Qed.

(** The first line of a built line whose reason holds a line feed is a
    task without the identifier it was built with. *)
Lemma C10_reason_with_line_feed :
  exists t,
    fst (parseTasks exampleEntropy 0
           (buildTaskLine false (str "t") brokenReasonMeta (str "abcdef12"))) = [t]
    /\ t_id t <> str "abcdef12" /\ t_hasId t = false.
Proof. eexists. vm_compute. repeat split; congruence. Qed.

(** C10, amended: for a reason that holds no line terminator once
    trimmed.  The line that [buildTaskLine] gives for a 6-to-32-digit
    hexadecimal identifier is a checkbox line that ends with the canonical
    token, and [parseTasks] reads it as exactly one task with that
    identifier, flagged as carrying it, and with the done flag of the
    mark; the display text may be empty. *)
Theorem C10_built_line_parses checked text meta id rnd pos :
  validId id ->
  allb dot (trim (meta_reason meta)) = true ->
  let line := buildTaskLine checked text meta id in
  test TASK_RE line = true
  /\ (exists P, line = P ++ taskIdToken id)
  /\ exists t, parseTasks rnd pos line = ([t], pos)
       /\ t_id t = id /\ t_hasId t = true /\ t_done t = checked.
Proof.
  intros Hid Hr line. subst line. rewrite buildTaskLine_shape.
  set (P := seg (cleanedText text) ++ _).
  destruct (built_parts text meta Hr) as [HP Hst]. fold P in HP, Hst.
  assert (Htok : startsNonSpace (taskIdToken id)) by done.
  assert (Hbody : allb dot (P ++ taskIdToken id) = true).
  { rewrite allb_app, HP. apply taskIdToken_dot, Hid. }
  destruct (TASK_RE_forward [] [32%N] (markOf checked) [32%N] (P ++ taskIdToken id))
    as [whole Hm]; auto using markOf_isMark.
  { apply (Hst _ Htok). }
  cbn [app] in Hm.
  destruct (TASK_ID_HTML_RE_at_end P id Hid) as [tok Hex].
  split; [by unfold test; cbn [app]; rewrite Hm|].
  split; [exists ([45; 32; 91; markOf checked; 93; 32]%N ++ P); by rewrite <- app_assoc|].
  unfold parseTasks. cbn [app]. rewrite split_lines_single.
  2:{ repeat (constructor; [by destruct checked|]). by apply allb_dot_noLF. }
  cbn [parseLines]. unfold parseLine. rewrite Hm. cbn [groups group Nat.eqb].
  assert (Htrim : trim (P ++ taskIdToken id) = P ++ taskIdToken id).
  { apply taskIdToken_clean_after, Hst, Htok. }
  rewrite Htrim. unfold extractTaskId, hasCanonicalTaskId, test. rewrite Hex.
  cbn [groups group Nat.eqb].
  destruct (parseMeta (P ++ taskIdToken id)) as [pm dt].
  eexists. split; [reflexivity|]. cbn [t_id t_hasId t_done].
  repeat split. apply markOf_done.
Qed.

Lemma C10_built_line_parses_witness :
  validId (str "abcdef12")
  /\ allb dot (trim (str " ran late ")) = true
  /\ test TASK_RE (buildTaskLine true [] {| meta_estMin := Some 30%N;
        meta_actMin := None; meta_reason := str " ran late " |} (str "abcdef12")) = true
  /\ exists t,
      parseTasks exampleEntropy 0
        (buildTaskLine true [] {| meta_estMin := Some 30%N; meta_actMin := None;
           meta_reason := str " ran late " |} (str "abcdef12")) = ([t], 0)
      /\ t_id t = str "abcdef12" /\ t_hasId t = true /\ t_done t = true.
Proof.
  assert (H1 : validId (str "abcdef12")) by (split; [simpl; lia|reflexivity]).
  assert (H2 : allb dot (trim (str " ran late ")) = true) by reflexivity.
  destruct (C10_built_line_parses true [] {| meta_estMin := Some 30%N;
              meta_actMin := None; meta_reason := str " ran late " |}
              (str "abcdef12") exampleEntropy 0 H1 H2) as (H3 & _ & H4).
  exact (conj H1 (conj H2 (conj H3 H4))).
Defined.

(** ** Checkbox lines *)

Lemma TASK_RE_inv line m :
  match_ TASK_RE line = Some m ->
  exists ws1 ws2 c ws3 body,
    line = ws1 ++ 45%N :: ws2 ++ 91%N :: c :: 93%N :: ws3 ++ body
    /\ allb isSpace ws1 = true /\ allb isSpace ws2 = true /\ isMark c = true
    /\ allb isSpace ws3 = true /\ ws3 <> [] /\ allb dot body = true
    /\ group 1 (groups m) = [c] /\ group 2 (groups m) = body.
Proof.
  intros H. apply search_Some in H as (p & -> & Hi & HM & _).
  destruct m as [ix mt af gs]. simpl in *.
  unfold TASK_RE, SP, star, plus in HM. norm_str_in HM. cbn [cat] in HM.
  inv_M.
  match goal with H : 0 = length _ |- _ => apply length_zero_nil in H; subst end.
  match goal with
  | H : (?a ++ 45%N :: ?b ++ 91%N :: ?x :: 93%N :: ?c3 ++ ?d ++ []) ++ [] = _ |- _ =>
      exists a, b, x, c3, d
  end.
  rewrite !app_nil_r. cbn [app group Nat.eqb].
  repeat split; try done.
  match goal with H : 1 <= length ?v |- ?v <> [] => by destruct v; simpl in H; [lia|] end.
Qed.

Lemma TASK_PREFIX_of_TASK line :
  test TASK_RE line = true -> test TASK_PREFIX_RE line = true.
Proof.
  unfold test. destruct (match_ TASK_RE line) as [m|] eqn:Hm; [|done]. intros _.
  destruct (TASK_RE_inv _ _ Hm) as (ws1 & ws2 & c & ws3 & body & -> & H1 & H2 & Hc & H3 & Hne & Hb & _).
  assert (T : test TASK_PREFIX_RE (ws1 ++ 45%N :: ws2 ++ 91%N :: c :: 93%N :: ws3 ++ body) = true);
    [|by unfold test in T].
  apply test_true. exists [], (ws1 ++ 45%N :: ws2 ++ 91%N :: c :: 93%N :: ws3 ++ body).
  do 3 eexists. split; [done|].
  unfold TASK_PREFIX_RE, SP, star, plus. norm_str. cbn [cat length].
  eapply M_Seq; [apply M_Bol|].
  eapply M_Seq; [apply (M_Rep isSpace 0 None _ ws1); [done|lia|done]|].
  eapply M_Seq; [apply (M_Lit [45%N])|].
  eapply M_Seq; [apply (M_Rep isSpace 0 None _ ws2); [done|lia|done]|].
  eapply M_Seq; [apply (M_Lit [91%N])|].
  eapply M_Seq; [apply M_Grp, M_Chr, Hc|].
  eapply M_Seq; [apply (M_Lit [93%N])|].
  apply (M_Rep isSpace 1 None _ ws3); [done| |done]. destruct ws3; [done|simpl; lia].
Qed.

(** ** Identifiers *)

Lemma TASK_ID_HTML_RE_group s m :
  match_ TASK_ID_HTML_RE s = Some m -> validId (group 1 (groups m)).
Proof.
  intros H. apply search_Some in H as (p & -> & Hi & HM & _).
  destruct m as [ix mt af gs]. simpl in *.
  unfold TASK_ID_HTML_RE, SP, star in HM. norm_str_in HM. cbn [cat] in HM.
  inv_M. cbn [group Nat.eqb].
  match goal with
  | H1 : allb isHex ?u = true, H2 : 6 <= length ?u,
    H3 : forall h, Some 32 = Some h -> length ?u <= h |- _ =>
      specialize (H3 32 eq_refl); by repeat split
  end.
Qed.

Lemma TASK_ID_LEGACY_RE_group s m :
  match_ TASK_ID_LEGACY_RE s = Some m -> validId (group 1 (groups m)).
Proof.
  intros H. apply search_Some in H as (p & -> & Hi & HM & _).
  destruct m as [ix mt af gs]. simpl in *.
  unfold TASK_ID_LEGACY_RE, SP, star in HM. norm_str_in HM. cbn [cat] in HM.
  inv_M. cbn [group Nat.eqb].
  match goal with
  | H1 : allb isHex ?u = true, H2 : 6 <= length ?u,
    H3 : forall h, Some 32 = Some h -> length ?u <= h |- _ =>
      specialize (H3 32 eq_refl); by repeat split
  end.
Qed.

Lemma extractTaskId_valid s id : extractTaskId s = Some id -> validId id.
Proof.
  unfold extractTaskId.
  destruct (match_ TASK_ID_HTML_RE s) as [m|] eqn:E1.
  - intros [= <-]. by eapply TASK_ID_HTML_RE_group.
  - destruct (match_ TASK_ID_LEGACY_RE s) as [m|] eqn:E2; [|done].
    intros [= <-]. by eapply TASK_ID_LEGACY_RE_group.
Qed.

Lemma hexDigit_isHex d : (d < 16)%N -> isHex (hexDigit d) = true.
Proof.
  intros H. unfold hexDigit, isHex.
  destruct (N.ltb_spec d 10).
  - apply orb_true_iff. left. apply orb_true_iff. left.
    apply andb_true_iff. split; apply N.leb_le; lia.
  - apply orb_true_iff. left. apply orb_true_iff. right.
    apply andb_true_iff. split; apply N.leb_le; lia.
Qed.

Lemma hexByte_isHex b : allb isHex (hexByte b) = true.
Proof.
  unfold hexByte. cbn [allb].
  pose proof (N.mod_lt b 256 ltac:(lia)) as Hb.
  set (x := (b mod 256)%N) in *.
  pose proof (N.mod_lt x 16 ltac:(lia)).
  assert (x / 16 < 16)%N by (apply N.Div0.div_lt_upper_bound; lia).
  by rewrite !hexDigit_isHex.
Qed.

Lemma genTaskId_valid rnd pos : validId (fst (genTaskId rnd pos)).
Proof.
  unfold genTaskId. cbn [fst]. split.
  - unfold hexByte. simpl. lia.
  - by rewrite !allb_app, !hexByte_isHex.
Qed.

(** ** Stripping the identifier token *)

Lemma cut_after {A} (x : A) pre tail a W :
  pre ++ x :: tail = a ++ W -> x ∉ W ->
  exists tail1, a = pre ++ x :: tail1 /\ tail = tail1 ++ W.
Proof.
  revert a. induction pre as [|y pre IH]; intros a E Hx; simpl in *.
  - destruct a as [|z a]; simpl in *.
    + subst W. exfalso. apply Hx. by left.
    + inversion E; subst. by exists a.
  - destruct a as [|z a]; simpl in *.
    + subst W. exfalso. apply Hx. right. apply elem_of_app. right. by left.
    + inversion E as [[Ez E']]; subst z.
      destruct (IH a E' Hx) as (t1 & -> & ->). by exists t1.
Qed.

Lemma replace_STRIP_HTML s :
  replace STRIP_HTML_RE [] s = s
  \/ exists a W, s = a ++ W /\ replace STRIP_HTML_RE [] s = a /\ 93%N ∉ W.
Proof.
  unfold replace. destruct (match_ STRIP_HTML_RE s) as [m|] eqn:E; [|by left].
  right. apply search_Some in E as (p & -> & Hi & HM & _).
  destruct m as [ix mt af gs]. simpl in *. subst ix.
  unfold STRIP_HTML_RE, SP, star in HM. norm_str_in HM. cbn [cat] in HM.
  inv_M. eexists p, _. split; [reflexivity|].
  rewrite take_app_length, app_nil_r. split; [done|].
  rewrite !app_nil_r. intros Hin. cbn [app] in Hin.
  repeat match goal with
  | H : 93%N ∈ _ :: _ |- _ => apply elem_of_cons in H as [H|H]; [done|]
  | H : 93%N ∈ _ ++ _ |- _ => apply elem_of_app in H as [H|H]
  | H : 93%N ∈ [] |- _ => by inversion H
  | H : 93%N ∈ ?l, H' : allb isSpace ?l = true |- _ =>
      by apply (allb_not_in _ _ _ H') in H
  | H : 93%N ∈ ?l, H' : allb isHex ?l = true |- _ =>
      by apply (allb_not_in _ _ _ H') in H
  end.
Qed.

Lemma replace_STRIP_LEGACY s :
  replace STRIP_LEGACY_RE [] s = s
  \/ exists a W, s = a ++ W /\ replace STRIP_LEGACY_RE [] s = a /\ 93%N ∉ W.
Proof.
  unfold replace. destruct (match_ STRIP_LEGACY_RE s) as [m|] eqn:E; [|by left].
  right. apply search_Some in E as (p & -> & Hi & HM & _).
  destruct m as [ix mt af gs]. simpl in *. subst ix.
  unfold STRIP_LEGACY_RE, SP, star in HM. norm_str_in HM. cbn [cat] in HM.
  inv_M. eexists p, _. split; [reflexivity|].
  rewrite take_app_length, app_nil_r. split; [done|].
  rewrite !app_nil_r. intros Hin. cbn [app] in Hin.
  repeat match goal with
  | H : 93%N ∈ _ :: _ |- _ => apply elem_of_cons in H as [H|H]; [done|]
  | H : 93%N ∈ _ ++ _ |- _ => apply elem_of_app in H as [H|H]
  | H : 93%N ∈ [] |- _ => by inversion H
  | H : 93%N ∈ ?l, H' : allb isSpace ?l = true |- _ =>
      by apply (allb_not_in _ _ _ H') in H
  | H : 93%N ∈ ?l, H' : allb isHex ?l = true |- _ =>
      by apply (allb_not_in _ _ _ H') in H
  end.
Qed.

Lemma replace_STRIP_HTML_keeps pre T :
  exists t W, T = t ++ W /\ replace STRIP_HTML_RE [] (pre ++ 93%N :: T) = pre ++ 93%N :: t.
Proof.
  destruct (replace_STRIP_HTML (pre ++ 93%N :: T)) as [E|(a & W & E & R & Hn)].
  - exists T, []. by rewrite app_nil_r.
  - destruct (cut_after _ _ _ _ _ E Hn) as (t1 & -> & ->). by exists t1, W.
Qed.

Lemma replace_STRIP_LEGACY_keeps pre T :
  exists t W, T = t ++ W /\ replace STRIP_LEGACY_RE [] (pre ++ 93%N :: T) = pre ++ 93%N :: t.
Proof.
  destruct (replace_STRIP_LEGACY (pre ++ 93%N :: T)) as [E|(a & W & E & R & Hn)].
  - exists T, []. by rewrite app_nil_r.
  - destruct (cut_after _ _ _ _ _ E Hn) as (t1 & -> & ->). by exists t1, W.
Qed.

Lemma trimEnd_keep a x b : isSpace x = false -> trimEnd (a ++ x :: b) = a ++ x :: trimEnd b.
Proof.
  intros Hx. destruct (decide (trimEnd b = [])) as [E|E].
  - rewrite E. apply trimEnd_nil_iff in E.
    change (a ++ x :: b) with (a ++ [x] ++ b). rewrite app_assoc.
    rewrite trimEnd_app_spaces by done. by rewrite trimEnd_snoc.
  - change (a ++ x :: b) with (a ++ [x] ++ b). rewrite app_assoc.
    rewrite trimEnd_app by done. by rewrite <- app_assoc.
Qed.

(** The text that [stripTaskIdToken] leaves of a checkbox line: the line
    without its indentation, up to the mark, and a part of what follows. *)
Lemma stripTaskIdToken_task_line ws1 ws2 c T :
  allb isSpace ws1 = true ->
  exists t W, T = t ++ W
    /\ stripTaskIdToken (ws1 ++ 45%N :: ws2 ++ 91%N :: c :: 93%N :: T)
       = 45%N :: ws2 ++ 91%N :: c :: 93%N :: trimEnd t.
Proof.
  intros H1. unfold stripTaskIdToken.
  destruct (replace_STRIP_HTML_keeps (ws1 ++ 45%N :: ws2 ++ [91%N; c]) T)
    as (t1 & W1 & -> & R1).
  replace (ws1 ++ 45%N :: ws2 ++ 91%N :: c :: 93%N :: t1 ++ W1)
    with ((ws1 ++ 45%N :: ws2 ++ [91%N; c]) ++ 93%N :: t1 ++ W1)
    by (by rewrite <- !app_assoc; cbn [app]; rewrite <- !app_assoc).
  rewrite R1.
  destruct (replace_STRIP_LEGACY_keeps (ws1 ++ 45%N :: ws2 ++ [91%N; c]) t1)
    as (t2 & W2 & -> & R2).
  rewrite R2. exists t2, (W2 ++ W1). split; [by rewrite app_assoc|].
  unfold trim. rewrite <- app_assoc. rewrite trimStart_spaces by done.
  cbn [app]. rewrite trimStart_id by done.
  replace (45%N :: (ws2 ++ [91%N; c]) ++ 93%N :: t2)
    with ((45%N :: ws2 ++ [91%N; c]) ++ 93%N :: t2) by done.
  rewrite trimEnd_keep by done. cbn [app]. by rewrite <- app_assoc.
Qed.

Lemma taskIdToken_last id : exists a, taskIdToken id = a ++ [62%N].
Proof.
  unfold taskIdToken. norm_str. exists ([60; 33; 45; 45; 32; 116; 105; 100; 58]%N ++ id ++ [32; 45; 45]%N).
  by rewrite <- !app_assoc.
Qed.

Lemma ensureTaskIdOnLine_task_line ws1 ws2 c T id :
  allb isSpace ws1 = true ->
  exists t W, T = t ++ W
    /\ ensureTaskIdOnLine (ws1 ++ 45%N :: ws2 ++ 91%N :: c :: 93%N :: T) id
       = 45%N :: ws2 ++ 91%N :: c :: 93%N :: trimEnd t ++ 32%N :: taskIdToken id.
Proof.
  intros H1. destruct (stripTaskIdToken_task_line ws1 ws2 c T H1) as (t & W & -> & E).
  exists t, W. split; [done|]. unfold ensureTaskIdOnLine. rewrite E.
  destruct (taskIdToken_last id) as (a & Ea). rewrite Ea. norm_str.
  replace ((45%N :: ws2 ++ 91%N :: c :: 93%N :: trimEnd t) ++ [32%N] ++ a ++ [62%N])
    with (((45%N :: ws2 ++ 91%N :: c :: 93%N :: trimEnd t) ++ [32%N] ++ a) ++ [62%N])
    by (by rewrite <- !app_assoc).
  rewrite trimEnd_snoc by done.
  by norm_app.
Qed.

Lemma trimEnd_prefix s : exists sp, s = trimEnd s ++ sp /\ allb isSpace sp = true.
Proof.
  induction s as [|c s (sp & E & Hsp)]; [by exists []|].
  cbn [trimEnd]. destruct (trimEnd s) as [|y t] eqn:Et.
  - simpl in E. subst sp. destruct (isSpace c) eqn:Hc.
    + exists (c :: s). split; [done|]. cbn [allb]. by rewrite Hc.
    + by exists s.
  - exists sp. split; [|done]. by rewrite E at 1.
Qed.

Lemma trimEnd_spaces_nil s : allb isSpace (trimEnd s) = true -> trimEnd s = [].
Proof. intros H. rewrite <- trimEnd_idem. by apply trimEnd_nil_iff. Qed.

(** What follows the mark once the token is appended: whitespace, then a
    text without line terminator that ends with the token. *)
Lemma tail_with_token Y0 id :
  allb dot Y0 = true -> allb isHex id = true ->
  exists a Z, Y0 ++ 32%N :: taskIdToken id = a ++ Z ++ taskIdToken id
    /\ allb isSpace a = true /\ startsNonSpace (Z ++ taskIdToken id)
    /\ allb dot (Z ++ taskIdToken id) = true
    /\ (Y0 = [] -> a <> []).
Proof.
  intros HY Hid. destruct (span_spec isSpace (Y0 ++ [32%N])) as (a & l & E & Ha & Hl).
  exists a, l. split.
  { change (Y0 ++ 32%N :: taskIdToken id) with (Y0 ++ [32%N] ++ taskIdToken id).
    by rewrite !app_assoc, E. }
  split; [done|]. split.
  { destruct l; [done|]. exact Hl. }
  split.
  { rewrite allb_app, taskIdToken_dot by done.
    assert (H : allb dot (a ++ l) = true) by (by rewrite <- E, allb_app, HY).
    rewrite allb_app in H. apply andb_true_iff in H as [_ ->]. done. }
  intros -> ->. simpl in E. destruct l as [|x l]; [done|].
  injection E as <- _. done.
Qed.

(** A checkbox line once [ensureTaskIdOnLine] has run on it: still a
    checkbox line, with the same mark, and its text ends with the
    canonical token of the identifier. *)
Lemma ensureTaskIdOnLine_task line id m :
  match_ TASK_RE line = Some m -> validId id ->
  exists m' P,
    match_ TASK_RE (ensureTaskIdOnLine line id) = Some m'
    /\ group 1 (groups m') = group 1 (groups m)
    /\ group 2 (groups m') = P ++ taskIdToken id
    /\ trim (P ++ taskIdToken id) = P ++ taskIdToken id.
Proof.
  intros Hm Hid.
  destruct (TASK_RE_inv _ _ Hm)
    as (ws1 & ws2 & c & ws3 & body & -> & H1 & H2 & Hc & H3 & Hne & Hb & G1 & G2).
  destruct (ensureTaskIdOnLine_task_line ws1 ws2 c (ws3 ++ body) id H1) as (t & W & ET & ->).
  destruct (trimEnd_prefix t) as (sp & Et & Hsp).
  assert (E : trimEnd t ++ (sp ++ W) = ws3 ++ body) by (by rewrite app_assoc, <- Et).
  assert (exists ws3' Z, trimEnd t ++ 32%N :: taskIdToken id = ws3' ++ Z ++ taskIdToken id
            /\ allb isSpace ws3' = true /\ ws3' <> []
            /\ startsNonSpace (Z ++ taskIdToken id)
            /\ allb dot (Z ++ taskIdToken id) = true) as (ws3' & Z & EX & Hw & Hwn & Hs & Hd).
  { apply app_eq_app in E as [l [[E1 E2]|[E1 E2]]].
    - assert (Hl : allb dot l = true).
      { rewrite E2, allb_app in Hb. by apply andb_true_iff in Hb as [-> _]. }
      destruct (tail_with_token l id Hl (proj2 Hid)) as (a & Z & E & Ha & Hs & Hd & _).
      exists (ws3 ++ a), Z. rewrite E1, <- !app_assoc, E.
      split; [done|]. split; [by rewrite allb_app, H3, Ha|].
      split; [|done]. by destruct ws3.
    - assert (Hsp' : allb isSpace (trimEnd t) = true).
      { rewrite E1, allb_app in H3. by apply andb_true_iff in H3 as [-> _]. }
      rewrite (trimEnd_spaces_nil _ Hsp').
      exists [32%N], []. cbn [app]. split; [done|]. split; [done|]. split; [done|].
      split; [done|]. by apply taskIdToken_dot, Hid. }
  rewrite EX.
  destruct (TASK_RE_forward [] ws2 c ws3' (Z ++ taskIdToken id)) as [whole Hm']; auto.
  cbn [app] in Hm'. eexists _, Z. split; [exact Hm'|].
  cbn [groups group Nat.eqb]. split; [by rewrite G1|]. split; [done|].
  by apply taskIdToken_clean_after.
Qed.

Lemma ensureTaskIdOnLine_noLF line id m :
  match_ TASK_RE line = Some m -> validId id -> noLF line ->
  noLF (ensureTaskIdOnLine line id).
Proof.
  intros Hm Hid Hl.
  destruct (TASK_RE_inv _ _ Hm)
    as (ws1 & ws2 & c & ws3 & body & -> & H1 & _).
  destruct (ensureTaskIdOnLine_task_line ws1 ws2 c (ws3 ++ body) id H1) as (t & W & ET & ->).
  rewrite ET in Hl. unfold noLF in *.
  apply Forall_app in Hl as [_ Hl]. apply Forall_cons in Hl as [_ Hl].
  apply Forall_app in Hl as [Hw2 Hl]. apply Forall_cons in Hl as [_ Hl].
  apply Forall_cons in Hl as [Hc Hl]. apply Forall_cons in Hl as [_ Hl].
  apply Forall_app in Hl as [Ht _].
  apply Forall_cons. split; [done|]. apply Forall_app. split; [done|].
  repeat (apply Forall_cons; split; [done|]).
  apply Forall_app. split; [by apply trimEnd_Forall|].
  apply Forall_cons. split; [done|]. apply allb_dot_noLF, taskIdToken_dot, Hid.
Qed.

Lemma ensureTaskIdOnLine_settled line id m :
  match_ TASK_RE line = Some m -> validId id ->
  settled (ensureTaskIdOnLine line id).
Proof.
  intros Hm Hid.
  destruct (ensureTaskIdOnLine_task line id m Hm Hid) as (m' & P & Hm' & _ & G2 & Ht).
  unfold settled, lacksCanonicalId. rewrite Hm', G2, Ht.
  destruct (TASK_ID_HTML_RE_at_end P id Hid) as [tok Hex].
  unfold hasCanonicalTaskId, test. by rewrite Hex.
Qed.

(** ** One line of [parseTasks] *)

Lemma hasCanonicalTaskId_extract s :
  hasCanonicalTaskId s = true -> exists id, extractTaskId s = Some id.
Proof.
  unfold hasCanonicalTaskId, test, extractTaskId.
  destruct (match_ TASK_ID_HTML_RE s); [by eexists|done].
Qed.

Lemma parseLine_no_task rnd pos i line :
  match_ TASK_RE line = None -> parseLine rnd pos i line = (None, pos).
Proof. unfold parseLine. by intros ->. Qed.

Lemma parseLine_task rnd pos i line m :
  match_ TASK_RE line = Some m ->
  exists t pos',
    parseLine rnd pos i line = (Some t, pos')
    /\ t_lineIndex t = i
    /\ t_hasId t = hasCanonicalTaskId (trim (group 2 (groups m)))
    /\ validId (t_id t)
    /\ (extractTaskId (trim (group 2 (groups m))) = Some (t_id t) /\ pos' = pos
        \/ extractTaskId (trim (group 2 (groups m))) = None
           /\ t_id t = fst (genTaskId rnd pos) /\ pos' = pos + 4).
Proof.
  intros Hm. unfold parseLine. rewrite Hm.
  set (rest := trim (group 2 (groups m))).
  destruct (parseMeta rest) as [pm dt].
  destruct (extractTaskId rest) as [id|] eqn:Ex.
  - eexists _, _. split; [reflexivity|]. cbn [t_lineIndex t_hasId t_id].
    split; [done|]. split; [done|]. split; [by eapply extractTaskId_valid|]. by left.
  - eexists _, _. split; [reflexivity|]. cbn [t_lineIndex t_hasId t_id].
    split; [done|]. split; [done|]. split; [apply genTaskId_valid|]. by right.
Qed.

Lemma parseLine_settled rnd pos i line :
  settled line ->
  parseLine rnd pos i line = (None, pos)
  \/ exists t, parseLine rnd pos i line = (Some t, pos) /\ t_hasId t = true.
Proof.
  unfold settled, lacksCanonicalId. intros Hs.
  destruct (match_ TASK_RE line) as [m|] eqn:Hm.
  - right. apply negb_false_iff in Hs.
    destruct (parseLine_task rnd pos i line m Hm) as (t & pos' & E & _ & Hh & _ & Hx).
    destruct (hasCanonicalTaskId_extract _ Hs) as [id Hid].
    destruct Hx as [[_ ->]|[Hx _]]; [|congruence].
    exists t. by rewrite Hh.
  - left. by apply parseLine_no_task.
Qed.

Lemma parseLines_settled rnd pos lines : forall i,
  Forall settled lines ->
  exists ts, parseLines rnd pos i lines = (ts, pos)
    /\ Forall (fun t => t_hasId t = true) ts.
Proof.
  induction lines as [|l lines IH]; intros i Hs; [by exists []|].
  apply Forall_cons in Hs as [Hl Hs]. cbn [parseLines].
  destruct (IH (S i) Hs) as (ts & E & Hts).
  destruct (parseLine_settled rnd pos i l Hl) as [->|(t & -> & Ht)]; rewrite E.
  - by exists ts.
  - exists (t :: ts). split; [done|]. by constructor.
Qed.

(** ** The migration loop *)

Lemma migrate_all_hasId ts : forall st,
  Forall (fun t => t_hasId t = true) ts -> fold_left migrateTask ts st = st.
Proof.
  induction ts as [|t ts IH]; intros st Hts; [done|].
  apply Forall_cons in Hts as [Ht Hts]. cbn [fold_left].
  rewrite <- (IH st Hts) at 2. f_equal.
  unfold migrateTask. destruct st. by rewrite Ht.
Qed.

Lemma insert_middle {A} (pre : list A) x y post :
  <[length pre := y]> (pre ++ x :: post) = pre ++ y :: post.
Proof. induction pre; simpl; [done|]. by f_equal. Qed.

Lemma lookup_middle {A} (pre : list A) x post :
  (pre ++ x :: post) !! length pre = Some x.
Proof. induction pre; simpl; done. Qed.

Lemma migrate_lines rnd lines : forall pos pre ch ts pos',
  parseLines rnd pos (length pre) lines = (ts, pos') ->
  exists lines',
    fold_left migrateTask ts (pre ++ lines, ch)
    = (pre ++ lines', ch || existsb lacksCanonicalId lines)
    /\ Forall2 (migrated rnd) lines lines'.
Proof.
  induction lines as [|l lines IH]; intros pos pre ch ts pos' Hp.
  - injection Hp as <- <-. exists []. by rewrite orb_false_r.
  - cbn [parseLines] in Hp.
    destruct (parseLine rnd pos (length pre) l) as [ot pos1] eqn:E1.
    destruct (parseLines rnd pos1 (S (length pre)) lines) as [ts1 pos2] eqn:E2.
    injection Hp as <- <-.
    cbn [existsb]. unfold migrated at 1, lacksCanonicalId at 1.
    destruct (match_ TASK_RE l) as [m|] eqn:Hm.
    + destruct (parseLine_task rnd pos (length pre) l m Hm)
        as (t & p1 & E & Hi & Hh & Hv & Hx).
      rewrite E in E1. injection E1 as <- <-. cbn [fold_left].
      unfold migrateTask at 2. rewrite Hh.
      destruct (hasCanonicalTaskId (trim (group 2 (groups m)))) eqn:Hc; cbn [negb].
      * replace (pre ++ l :: lines) with ((pre ++ [l]) ++ lines) by (by rewrite <- app_assoc).
        destruct (IH p1 (pre ++ [l]) ch ts1 pos2) as (lines' & EF & HF).
        { by rewrite length_app, Nat.add_1_r. }
        exists (l :: lines'). rewrite EF, <- app_assoc. split; [done|].
        constructor; [|done]. unfold migrated, lacksCanonicalId. by rewrite Hm, Hc.
      * rewrite Hi, lookup_middle. change (default [] (Some l)) with l.
        rewrite (TASK_PREFIX_of_TASK l) by (by unfold test; rewrite Hm).
        rewrite insert_middle.
        replace (pre ++ ensureTaskIdOnLine l (t_id t) :: lines)
          with ((pre ++ [ensureTaskIdOnLine l (t_id t)]) ++ lines)
          by (by rewrite <- app_assoc).
        destruct (IH p1 (pre ++ [ensureTaskIdOnLine l (t_id t)]) true ts1 pos2)
          as (lines' & EF & HF).
        { by rewrite length_app, Nat.add_1_r. }
        exists (ensureTaskIdOnLine l (t_id t) :: lines').
        rewrite EF, <- app_assoc. split; [by rewrite orb_true_r|].
        constructor; [|done]. unfold migrated, lacksCanonicalId. rewrite Hm, Hc.
        cbn [negb]. exists m, (t_id t). split; [done|]. split; [done|]. split; [done|].
        destruct Hx as [[Hx _]|(Hx & Hg & _)]; [by left|right]. split; [done|]. by exists pos.
    + rewrite (parseLine_no_task _ _ _ _ Hm) in E1. injection E1 as <- <-.
      replace (pre ++ l :: lines) with ((pre ++ [l]) ++ lines) by (by rewrite <- app_assoc).
      destruct (IH pos (pre ++ [l]) ch ts1 pos2) as (lines' & EF & HF).
      { by rewrite length_app, Nat.add_1_r. }
      exists (l :: lines'). rewrite EF, <- app_assoc. split; [done|].
      constructor; [|done]. unfold migrated, lacksCanonicalId. by rewrite Hm.
Qed.

Lemma migrated_settled rnd l l' : migrated rnd l l' -> settled l'.
Proof.
  unfold migrated. destruct (lacksCanonicalId l) eqn:E.
  - intros (m & id & Hm & Hid & -> & _). by eapply ensureTaskIdOnLine_settled.
  - by intros ->.
Qed.

Lemma migrated_noLF rnd l l' : migrated rnd l l' -> noLF l -> noLF l'.
Proof.
  unfold migrated. destruct (lacksCanonicalId l) eqn:E.
  - intros (m & id & Hm & Hid & -> & _) Hl. by eapply ensureTaskIdOnLine_noLF.
  - by intros ->.
Qed.

Lemma migrated_unchanged rnd ls : forall ls',
  Forall2 (migrated rnd) ls ls' -> existsb lacksCanonicalId ls = false -> ls' = ls.
Proof.
  induction ls as [|l ls IH]; intros ls' H E; inversion H as [|? l' ? ls1 Hl Hls]; subst; [done|].
  cbn [existsb] in E. apply orb_false_iff in E as [E1 E2].
  unfold migrated in Hl. rewrite E1 in Hl. subst l'. f_equal. by apply IH.
Qed.

Lemma migrationPass_settled rnd pos lines :
  lines <> [] -> Forall noLF lines -> Forall settled lines ->
  migrationPass rnd pos (join_lines lines) = (lines, false, pos).
Proof.
  intros Hne Hlf Hs. unfold migrationPass, parseTasks.
  rewrite split_join by done.
  destruct (parseLines_settled rnd pos lines 0 Hs) as (ts & -> & Hts).
  unfold migrate. by rewrite migrate_all_hasId.
Qed.

Lemma migrationPass_spec rnd pos md :
  exists lines1 pos1,
    migrationPass rnd pos md
    = (lines1, existsb lacksCanonicalId (split_lines md), pos1)
    /\ Forall2 (migrated rnd) (split_lines md) lines1
    /\ lines1 <> [] /\ Forall noLF lines1 /\ Forall settled lines1.
Proof.
  unfold migrationPass, parseTasks.
  destruct (parseLines rnd pos 0 (split_lines md)) as [ts pos1] eqn:E.
  destruct (migrate_lines rnd (split_lines md) pos [] false ts pos1 E) as (lines1 & EF & HF).
  cbn [app orb] in EF. unfold migrate. rewrite EF.
  exists lines1, pos1. split; [done|]. split; [done|].
  split.
  { intros ->. apply Forall2_length in HF. simpl in HF.
    by destruct (split_lines md) eqn:Es; [apply (split_lines_nonempty md)|]. }
  pose proof (split_lines_noLF md) as Hlf.
  split.
  - clear EF E. induction HF as [|l l' ls ls' Hl _ IH]; [done|].
    apply Forall_cons in Hlf as [H1 H2]. constructor; [by eapply migrated_noLF|by apply IH].
  - clear EF E Hlf. induction HF as [|l l' ls ls' Hl _ IH]; [done|].
    constructor; [by eapply migrated_settled|done].
Qed.


(** ** Occurrences of a string in a string *)

Lemma isPrefix_app m q : isPrefix m (m ++ q) = true.
Proof. induction m as [|x m IH]; [done|]. simpl. by rewrite N.eqb_refl. Qed.

Lemma isPrefix_true m : forall s, isPrefix m s = true -> exists q, s = m ++ q.
Proof.
  induction m as [|x m IH]; intros s H; [by exists s|].
  destruct s as [|y s]; [done|]. simpl in H.
  apply andb_true_iff in H as [Hx H]. apply N.eqb_eq in Hx as ->.
  destruct (IH s H) as [q ->]. by exists q.
Qed.

Lemma includes_intro m p q : includes m (p ++ m ++ q) = true.
Proof.
  induction p as [|x p IH].
  - cbn [app]. pose proof (isPrefix_app m q) as H.
    destruct (m ++ q); cbn [includes]; by rewrite H.
  - cbn [app includes]. rewrite IH. apply orb_true_r.
Qed.

Lemma includes_elim m : forall s,
  includes m s = true -> exists p q, s = p ++ m ++ q.
Proof.
  induction s as [|x s IH]; intros H.
  - simpl in H. rewrite orb_false_r in H. apply isPrefix_true in H as [q ->]. by exists [], q.
  - cbn [includes] in H. apply orb_true_iff in H as [H|H].
    + apply isPrefix_true in H as [q ->]. by exists [], q.
    + destruct (IH H) as (p & q & ->). by exists (x :: p), q.
Qed.

Lemma includes_none m s p q : includes m s = false -> s <> p ++ m ++ q.
Proof. intros H ->. by rewrite includes_intro in H. Qed.

(** An occurrence of [m] in [a ++ x :: b], where [m] does not hold [x],
    lies in [a] or in [b]. *)
Lemma occurrence_sep (m : list N) x p q a b :
  p ++ m ++ q = a ++ x :: b -> x ∉ m ->
  (exists q', a = p ++ m ++ q') \/ (exists p', p = a ++ x :: p' /\ b = p' ++ m ++ q).
Proof.
  intros E Hx. apply app_eq_app in E as [l [[E1 E2]|[E1 E2]]].
  - destruct l as [|y l].
    + simpl in E2. rewrite app_nil_r in E1. subst p.
      destruct m as [|z m]; [left; exists []; by rewrite app_nil_r|].
      simpl in E2. injection E2 as -> _. exfalso. apply Hx. by left.
    + simpl in E2. injection E2 as -> ->. right. by exists l.
  - symmetry in E2. apply app_eq_app in E2 as [l2 [[E3 E4]|[E3 E4]]].
    + left. exists l2. by rewrite E1, E3.
    + destruct l2 as [|y l2].
      * simpl in E4. rewrite app_nil_r in E3. subst l. left. exists [].
        by rewrite app_nil_r.
      * simpl in E4. injection E4 as -> _. exfalso. apply Hx. rewrite E3.
        apply elem_of_app. right. by left.
Qed.

(** An occurrence of [y :: m] in [a ++ b], where [a] does not hold [y],
    lies in [b]. *)
Lemma occurrence_after (y : N) m p q a b :
  p ++ (y :: m) ++ q = a ++ b -> y ∉ a ->
  exists p', p = a ++ p' /\ b = p' ++ (y :: m) ++ q.
Proof.
  intros E Hy. apply app_eq_app in E as [l [[E1 E2]|[E1 E2]]].
  - by exists l.
  - destruct l as [|z l].
    + simpl in E2. rewrite app_nil_r in E1. subst a. exists []. by rewrite app_nil_r.
    + simpl in E2. injection E2 as -> _. exfalso. apply Hy. rewrite E1.
      apply elem_of_app. right. by left.
Qed.

Lemma includes_app_l m a b : includes m a = true -> includes m (a ++ b) = true.
Proof.
  intros H. apply includes_elim in H as (p & q & ->).
  rewrite <- !app_assoc. apply includes_intro.
Qed.

Lemma includes_app_r m a b : includes m b = true -> includes m (a ++ b) = true.
Proof.
  intros H. apply includes_elim in H as (p & q & ->).
  rewrite app_assoc. apply includes_intro.
Qed.

Lemma includes_sep m x a b :
  x ∉ m -> includes m a = false -> includes m b = false ->
  includes m (a ++ x :: b) = false.
Proof.
  intros Hx Ha Hb. destruct (includes m (a ++ x :: b)) eqn:E; [|done].
  apply includes_elim in E as (p & q & E). symmetry in E.
  destruct (occurrence_sep _ _ _ _ _ _ E Hx) as [[q' E']|(p' & _ & E')].
  - exfalso. exact (includes_none _ _ _ _ Ha E').
  - exfalso. exact (includes_none _ _ _ _ Hb E').
Qed.

Lemma includes_without y m s : y ∉ s -> includes (y :: m) s = false.
Proof.
  intros Hy. destruct (includes (y :: m) s) eqn:E; [|done].
  apply includes_elim in E as (p & q & ->). exfalso. apply Hy.
  apply elem_of_app. right. by left.
Qed.

Lemma includes_after y m a b :
  y ∉ a -> includes (y :: m) b = false -> includes (y :: m) (a ++ b) = false.
Proof.
  intros Hy Hb. destruct (includes (y :: m) (a ++ b)) eqn:E; [|done].
  apply includes_elim in E as (p & q & E). symmetry in E.
  destruct (occurrence_after _ _ _ _ _ _ E Hy) as (p' & _ & E').
  exfalso. exact (includes_none _ _ _ _ Hb E').
Qed.

Lemma includes_trimStart m s : includes m s = false -> includes m (trimStart s) = false.
Proof.
  induction s as [|c s IH]; [done|]. intros H. cbn [trimStart].
  destruct (isSpace c); [|done]. apply IH.
  cbn [includes] in H. by apply orb_false_iff in H as [_ H].
Qed.

Lemma includes_trimEnd m s : includes m s = false -> includes m (trimEnd s) = false.
Proof.
  intros H. destruct (trimEnd_prefix s) as (sp & E & _).
  destruct (includes m (trimEnd s)) eqn:E1; [|done].
  by rewrite E, (includes_app_l _ _ _ E1) in H.
Qed.

Lemma includes_trim m s : includes m s = false -> includes m (trim s) = false.
Proof. intros H. by apply includes_trimEnd, includes_trimStart. Qed.

(** ** Whitespace normalisation *)

Lemma collapse_cons_nonspace c s :
  isSpace c = false -> collapse (c :: s) = c :: collapse s.
Proof. intros H. cbn [collapse]. by rewrite H. Qed.

Lemma collapse_single c : isSpace c = true -> collapse [c] = [32%N].
Proof. intros H. cbn [collapse]. by rewrite H. Qed.

Lemma startsNonSpace_cases (s : list N) :
  s = [] \/ (exists c s', s = c :: s' /\ isSpace c = true)
  \/ (exists c s', s = c :: s' /\ isSpace c = false).
Proof.
  destruct s as [|c s]; [by left|right].
  destruct (isSpace c) eqn:E; [left|right]; by exists c, s.
Qed.

Lemma collapse_idem s : collapse (collapse s) = collapse s.
Proof.
  induction s as [|c s IH]; [done|].
  destruct (isSpace c) eqn:Hc.
  - destruct (startsNonSpace_cases s) as [->|[(c' & s' & -> & Hc')|(c' & s' & -> & Hc')]].
    + rewrite collapse_single by done. by rewrite collapse_single.
    + by rewrite collapse_skip.
    + rewrite (collapse_last_space c) by (by rewrite ?Hc').
      rewrite (collapse_cons_nonspace c' s' Hc') in IH |- *.
      rewrite (collapse_last_space 32%N); [|done|exact Hc'].
      by rewrite IH.
  - rewrite collapse_cons_nonspace by done.
    rewrite collapse_cons_nonspace by done. by rewrite IH.
Qed.

Lemma collapse_all_spaces sp :
  allb isSpace sp = true -> collapse sp = if nonEmpty sp then [32%N] else [].
Proof.
  destruct sp as [|x ws]; [done|]. cbn [allb nonEmpty]. intros H.
  apply andb_true_iff in H as [Hx Hw].
  rewrite <- (app_nil_r ws). by rewrite (collapse_spaces ws x []).
Qed.

Lemma trimEnd_fix_tail c s :
  trimEnd (c :: s) = c :: s -> trimEnd s = s /\ (s = [] -> isSpace c = false).
Proof.
  cbn [trimEnd]. destruct (trimEnd s) as [|y t] eqn:E.
  - destruct (isSpace c) eqn:Hc; [done|]. intros [= <-]. done.
  - intros [= H]. split; [done|]. intros ->. done.
Qed.

(** Whitespace after a text that does not end in whitespace collapses to
    one space. *)
Lemma collapse_app_spaces A sp :
  trimEnd A = A -> allb isSpace sp = true ->
  collapse (A ++ sp) = collapse A ++ (if nonEmpty sp then [32%N] else []).
Proof.
  intros HA Hsp. induction A as [|c A IH].
  - cbn [app]. by apply collapse_all_spaces.
  - apply trimEnd_fix_tail in HA as [HA Hne]. specialize (IH HA).
    destruct (isSpace c) eqn:Hc.
    + destruct A as [|c' A]; [by specialize (Hne eq_refl)|]. clear Hne.
      cbn [app] in *. destruct (isSpace c') eqn:Hc'.
      * by rewrite !collapse_skip.
      * rewrite !(collapse_last_space c) by (by rewrite ?Hc'). by rewrite IH.
    + cbn [app]. rewrite !collapse_cons_nonspace by done. by rewrite IH.
Qed.

Lemma collapse_trimStart s : collapse (trimStart s) = trimStart (collapse s).
Proof.
  induction s as [|c s IH]; [done|]. cbn [trimStart].
  destruct (isSpace c) eqn:Hc.
  - destruct (startsNonSpace_cases s) as [->|[(c' & s' & -> & Hc')|(c' & s' & -> & Hc')]].
    + by rewrite collapse_single.
    + by rewrite collapse_skip.
    + rewrite (collapse_last_space c) by (by rewrite ?Hc').
      rewrite IH. exact (eq_sym (trimStart_spaces [32%N] _ eq_refl)).
  - rewrite collapse_cons_nonspace by done. cbn [trimStart]. by rewrite Hc.
Qed.

Lemma collapse_trimEnd s : trimEnd (collapse (trimEnd s)) = trimEnd (collapse s).
Proof.
  destruct (trimEnd_prefix s) as (sp & E & Hsp).
  rewrite E at 2. rewrite collapse_app_spaces by (done || apply trimEnd_idem).
  rewrite trimEnd_app_spaces; [done|]. by destruct (nonEmpty sp).
Qed.

Lemma normalizeWs_trim s : normalizeWs (trim s) = normalizeWs s.
Proof.
  unfold normalizeWs, trim.
  rewrite <- (trimStart_trimEnd (collapse (trimEnd (trimStart s)))).
  rewrite collapse_trimEnd. rewrite trimStart_trimEnd.
  rewrite <- collapse_trimStart, trimStart_idem, collapse_trimStart. done.
Qed.

Lemma normalizeWs_idem s : normalizeWs (normalizeWs s) = normalizeWs s.
Proof.
  change (normalizeWs s) with (trim (collapse s)) at 1.
  rewrite normalizeWs_trim. unfold normalizeWs. by rewrite collapse_idem.
Qed.

Lemma trim_app_spaces X sp : allb isSpace sp = true -> trim (X ++ sp) = trim X.
Proof.
  intros H. unfold trim. rewrite <- !trimStart_trimEnd.
  by rewrite trimEnd_app_spaces.
Qed.

(** Whitespace after a normalised text disappears in a new
    normalisation. *)
Lemma normalizeWs_spaces t sp :
  allb isSpace sp = true -> normalizeWs (normalizeWs t ++ sp) = normalizeWs t.
Proof.
  intros H. rewrite <- (normalizeWs_idem t) at 2. unfold normalizeWs at 1 3.
  rewrite collapse_app_spaces; [|apply clean_trimEnd, trim_clean|done].
  apply trim_app_spaces. by destruct (nonEmpty sp).
Qed.

Lemma collapse_space_head c s :
  isSpace c = true -> exists t, collapse (c :: s) = 32%N :: t.
Proof.
  revert c. induction s as [|c' s IH]; intros c Hc.
  - exists []. by apply collapse_single.
  - destruct (isSpace c') eqn:Hc'.
    + rewrite collapse_skip by done. by apply IH.
    + rewrite collapse_last_space by (by rewrite ?Hc'). by eexists.
Qed.

Lemma isPrefix_collapse m : forall s,
  allb nonSpace m = true -> isPrefix m (collapse s) = true -> isPrefix m s = true.
Proof.
  induction m as [|x m IH]; intros s Hm H; [done|].
  cbn [allb] in Hm. apply andb_true_iff in Hm as [Hx Hm].
  apply negb_true_iff in Hx.
  destruct s as [|c s]; [done|]. destruct (isSpace c) eqn:Hc.
  - destruct (collapse_space_head c s Hc) as [t Et]. rewrite Et in H.
    cbn [isPrefix] in H. apply andb_true_iff in H as [H _].
    apply N.eqb_eq in H. by subst x.
  - rewrite collapse_cons_nonspace in H by done. cbn [isPrefix] in *.
    apply andb_true_iff in H as [-> H]. by apply IH.
Qed.

(** Normalising the whitespace of a text creates no occurrence of a string
    without whitespace. *)
Lemma includes_collapse m s :
  m <> [] -> allb nonSpace m = true ->
  includes m s = false -> includes m (collapse s) = false.
Proof.
  intros Hne Hm. destruct m as [|x m']; [done|]. clear Hne.
  assert (Hx : isSpace x = false).
  { cbn [allb] in Hm. apply andb_true_iff in Hm as [Hx _]. by apply negb_true_iff in Hx. }
  assert (H32 : forall t, isPrefix (x :: m') (32%N :: t) = false).
  { intros t. cbn [isPrefix]. destruct (N.eqb_spec x 32) as [->|]; done. }
  induction s as [|c s IH]; [done|]. intros H.
  cbn [includes] in H. apply orb_false_iff in H as [H1 H2]. specialize (IH H2).
  destruct (isSpace c) eqn:Hc.
  - destruct (startsNonSpace_cases s) as [->|[(c' & s' & -> & Hc')|(c' & s' & -> & Hc')]].
    + rewrite collapse_single by done. cbn [includes]. by rewrite H32.
    + by rewrite collapse_skip.
    + rewrite collapse_last_space by (by rewrite ?Hc').
      cbn [includes]. by rewrite H32, IH.
  - rewrite collapse_cons_nonspace by done. cbn [includes]. rewrite IH, orb_false_r.
    destruct (isPrefix (x :: m') (c :: collapse s)) eqn:E; [|done].
    rewrite <- collapse_cons_nonspace in E by done.
    apply isPrefix_collapse in E; [congruence|done].
Qed.

Lemma includes_normalizeWs m s :
  m <> [] -> allb nonSpace m = true ->
  includes m s = false -> includes m (normalizeWs s) = false.
Proof. intros. unfold normalizeWs. by apply includes_trim, includes_collapse. Qed.

(** ** Replacing the matches of a pattern *)

Lemma replace_from_none fuel r by_ i s :
  search r i s = None -> replace_from fuel r by_ i s = s.
Proof. intros H. destruct fuel; [done|]. cbn [replace_from]. by rewrite H. Qed.

Lemma replace_all_none r by_ s : match_ r s = None -> replace_all r by_ s = s.
Proof. intros H. by apply replace_from_none. Qed.

Lemma replace_all_one r by_ s m :
  match_ r s = Some m -> matched m <> [] ->
  search r (index m + length (matched m)) (after m) = None ->
  replace_all r by_ s = take (index m) s ++ by_ ++ after m.
Proof.
  intros Hm Hne Hno. unfold replace_all. cbn [replace_from].
  unfold match_ in Hm. rewrite Hm, Nat.sub_0_r.
  destruct (matched m) as [|z u] eqn:E; [done|].
  by rewrite replace_from_none.
Qed.

(** ** The estimate and actual tokens *)

Lemma MARK_RE_inv mark i s u rest c :
  Matches (MARK_RE mark) i s [] u rest c ->
  exists b v, u = b ++ mark ++ v /\ length b <= 1.
Proof.
  intros HM. unfold MARK_RE, BOUNDARY, LOOK_END, plus in HM. cbn [cat] in HM.
  inv_M;
    first [ eexists [], _; split; [reflexivity|simpl; lia]
          | eexists [_], _; split; [reflexivity|simpl; lia] ].
Qed.

Lemma MARK_RE_none mark s i :
  includes mark s = false -> search (MARK_RE mark) i s = None.
Proof.
  intros H. apply search_None_intro. intros p q ->. apply run_at_None.
  intros u rest c HM. pose proof (Matches_app _ _ _ _ _ _ _ HM) as E.
  apply MARK_RE_inv in HM as (b & v & -> & _).
  apply (includes_none _ _ (p ++ b) (v ++ rest)) in H. apply H.
  rewrite E. by rewrite <- !app_assoc.
Qed.

Lemma MARK_RE_tail mark v T i acc c :
  allb nonSpace v = true -> v <> [] -> startsSpace T ->
  run (cat [Lit mark; Grp 1 (plus nonSpace); LOOK_END]) i acc (mark ++ v ++ T) c accept
  = Some (i + length mark + length v, acc ++ mark ++ v, T, (1, v) :: c).
Proof.
  intros Hv Hne HT. unfold LOOK_END, plus. cbn [cat run].
  rewrite strip_prefix_app.
  apply rep_greedy; [done|destruct v; [done|simpl; lia]|done| |].
  { destruct T as [|x T]; [done|]. left. simpl in HT. unfold nonSpace. by rewrite HT. }
  destruct T as [|x T].
  - cbn [run]. unfold accept. by rewrite <- !app_assoc.
  - simpl in HT. cbn [run]. rewrite HT. unfold accept. by rewrite <- !app_assoc.
Qed.

Lemma MARK_RE_hit_start y mark' v T :
  allb nonSpace v = true -> v <> [] -> startsSpace T ->
  match_ (MARK_RE (y :: mark')) ((y :: mark') ++ v ++ T)
  = Some {| index := 0; matched := (y :: mark') ++ v; after := T; groups := [(1, v)] |}.
Proof.
  intros Hv Hne HT. eapply search_at_start.
  unfold run_at, MARK_RE, BOUNDARY.
  change (cat [Alt Bol (Chr isSpace); Lit (y :: mark'); Grp 1 (plus nonSpace); LOOK_END])
    with (Seq (Alt Bol (Chr isSpace)) (cat [Lit (y :: mark'); Grp 1 (plus nonSpace); LOOK_END])).
  cbn [run]. rewrite MARK_RE_tail by done. reflexivity.
Qed.

Lemma BOUNDARY_space R i x s c :
  isSpace x = true -> run R 0 [] (x :: s) c accept = None ->
  run (Seq BOUNDARY R) i [] (x :: s) c accept = run R (S i) [x] s c accept.
Proof.
  intros Hx H. unfold BOUNDARY. cbn [run]. rewrite Hx.
  destruct i; [by rewrite H|done].
Qed.

Lemma BOUNDARY_start R s c :
  run (Seq BOUNDARY R) 0 [] s c accept
  = match run R 0 [] s c accept with
    | Some r => Some r
    | None => match s with
              | x :: s' => if isSpace x then run R 1 [x] s' c accept else None
              | [] => None
              end
    end.
Proof. reflexivity. Qed.

Lemma MARK_RE_hit_space y mark' A0 x v T :
  isSpace y = false -> allb nonSpace mark' = true ->
  isSpace x = true -> includes (y :: mark') A0 = false ->
  allb nonSpace v = true -> v <> [] -> startsSpace T ->
  match_ (MARK_RE (y :: mark')) (A0 ++ x :: (y :: mark') ++ v ++ T)
  = Some {| index := length A0; matched := x :: (y :: mark') ++ v; after := T;
            groups := [(1, v)] |}.
Proof.
  intros Hy Hm Hx HA Hv Hne HT. unfold match_.
  change (length A0) with (0 + length A0).
  eapply search_first.
  - intros p q -> Hq. apply run_at_None. intros u rest c HM.
    pose proof (Matches_app _ _ _ _ _ _ _ HM) as E.
    apply MARK_RE_inv in HM as (b & v' & -> & Hb).
    rewrite <- !app_assoc in E. symmetry in E.
    apply occurrence_sep in E as [[q' E]|(p' & E & _)].
    + apply (includes_none _ _ (p ++ b) q') in HA. apply HA.
      rewrite E. by rewrite <- !app_assoc.
    + rewrite E, length_app in Hb. destruct q; [done|]. simpl in Hb. lia.
    + apply (allb_not_in nonSpace); [|by unfold nonSpace; rewrite Hx].
      cbn [allb]. unfold nonSpace at 1. by rewrite Hy, Hm.
  - unfold run_at, MARK_RE, BOUNDARY.
    change (cat [Alt Bol (Chr isSpace); Lit (y :: mark'); Grp 1 (plus nonSpace); LOOK_END])
      with (Seq (Alt Bol (Chr isSpace)) (cat [Lit (y :: mark'); Grp 1 (plus nonSpace); LOOK_END])).
    assert (Hyx : (y =? x)%N = false).
    { apply N.eqb_neq. intros ->. congruence. }
    rewrite BOUNDARY_space; [|done|by cbn [cat run strip_prefix]; rewrite Hyx].
    rewrite MARK_RE_tail by done. reflexivity.
Qed.

Lemma String__nonSpace n : allb nonSpace (String_ n) = true.
Proof.
  apply (allb_impl isDigit); [|apply String__digits].
  intros c Hc. unfold nonSpace. by rewrite isDigit_nonSpace.
Qed.

Lemma minutesOf_String_ i u rest n c :
  minutesOf {| index := i; matched := u; after := rest; groups := (1, String_ n) :: c |}
  = Some n.
Proof. unfold minutesOf. cbn [groups group Nat.eqb]. by rewrite Number_String_. Qed.

(** The three ways in which [parseMeta] meets a marker: no token, a token
    at the start of the text, a token after whitespace. *)
Lemma marker_step_none mark s :
  includes mark s = false ->
  match_ (MARK_RE mark) s = None /\ replace_all (MARK_RE mark) [32%N] s = s.
Proof.
  intros H. assert (Hn : match_ (MARK_RE mark) s = None) by (by apply MARK_RE_none).
  split; [done|]. by apply replace_all_none.
Qed.

Lemma marker_step_start y mark' n T :
  includes (y :: mark') T = false -> startsSpace T ->
  (exists m, match_ (MARK_RE (y :: mark')) ((y :: mark') ++ String_ n ++ T) = Some m
             /\ minutesOf m = Some n)
  /\ replace_all (MARK_RE (y :: mark')) [32%N] ((y :: mark') ++ String_ n ++ T)
     = 32%N :: T.
Proof.
  intros HT Hs.
  pose proof (MARK_RE_hit_start y mark' (String_ n) T (String__nonSpace n)
                (String__nonempty n) Hs) as Hm.
  split; [eexists; split; [exact Hm|apply minutesOf_String_]|].
  rewrite (replace_all_one _ _ _ _ Hm); [done|done|].
  by apply MARK_RE_none.
Qed.

Lemma marker_step_space y mark' A0 n T :
  isSpace y = false -> allb nonSpace mark' = true ->
  includes (y :: mark') A0 = false ->
  includes (y :: mark') T = false -> startsSpace T ->
  (exists m, match_ (MARK_RE (y :: mark'))
               (A0 ++ 32%N :: (y :: mark') ++ String_ n ++ T) = Some m
             /\ minutesOf m = Some n)
  /\ replace_all (MARK_RE (y :: mark')) [32%N]
       (A0 ++ 32%N :: (y :: mark') ++ String_ n ++ T)
     = A0 ++ 32%N :: T.
Proof.
  intros Hy Hm' HA HT Hs.
  pose proof (MARK_RE_hit_space y mark' A0 32%N (String_ n) T Hy Hm' eq_refl HA
                (String__nonSpace n) (String__nonempty n) Hs) as Hm.
  split; [eexists; split; [exact Hm|apply minutesOf_String_]|].
  rewrite (replace_all_one _ _ _ _ Hm); [|done|by apply MARK_RE_none].
  cbn [index after]. by rewrite take_app_length.
Qed.

(** ** The reason *)

Lemma REASON_RE_inv i s u rest c :
  Matches REASON_RE i s [] u rest c ->
  exists b mk v, u = b ++ mk ++ v /\ length b <= 1
    /\ (mk = REASON_MARK \/ mk = REASON_MARK_PLAIN).
Proof.
  intros HM. unfold REASON_RE, BOUNDARY, star in HM. norm_str_in HM. cbn [cat] in HM.
  unfold REASON_MARK, REASON_MARK_PLAIN. norm_str.
  inv_M;
    match goal with
    | |- exists b mk v, ?b0 ++ [WRITING_HAND; VARIATION_16] ++ ?r ++ ?v0 = _ /\ _ =>
        exists b0, (WRITING_HAND :: VARIATION_16 :: r), v0;
        split; [reflexivity|]; split; [simpl; lia|by left]
    | |- exists b mk v, ?b0 ++ [WRITING_HAND] ++ ?r ++ ?v0 = _ /\ _ =>
        exists b0, (WRITING_HAND :: r), v0;
        split; [reflexivity|]; split; [simpl; lia|by right]
    end.
Qed.

Lemma REASON_RE_none s :
  includes REASON_MARK s = false -> includes REASON_MARK_PLAIN s = false ->
  match_ REASON_RE s = None.
Proof.
  intros H1 H2. apply search_None_intro. intros p q ->. apply run_at_None.
  intros u rest c HM. pose proof (Matches_app _ _ _ _ _ _ _ HM) as E.
  apply REASON_RE_inv in HM as (b & mk & v & -> & _ & [->| ->]).
  - apply (includes_none _ _ (p ++ b) (v ++ rest)) in H1. apply H1.
    rewrite E. by rewrite <- !app_assoc.
  - apply (includes_none _ _ (p ++ b) (v ++ rest)) in H2. apply H2.
    rewrite E. by rewrite <- !app_assoc.
Qed.

Lemma REASON_RE_tail R i acc c :
  allb dot R = true ->
  run (cat [Alt (Lit [WRITING_HAND; VARIATION_16]) (Lit [WRITING_HAND]);
            Lit (str "reason:"); Grp 1 (star dot); Eol]) i acc (REASON_MARK ++ R) c accept
  = Some (i + 9 + length R, acc ++ REASON_MARK ++ R, [], (1, R) :: c).
Proof.
  intros HR. unfold REASON_MARK, star. norm_str.
  cbn [cat run app strip_prefix N.eqb Pos.eqb WRITING_HAND VARIATION_16].
  rewrite <- (app_nil_r R) at 1.
  rewrite (rep_greedy dot R 0 None _ _ [] _ _
             (i + 2 + 7 + length R, acc ++ WRITING_HAND :: VARIATION_16 ::
                [114; 101; 97; 115; 111; 110; 58]%N ++ R, [], (1, R) :: c));
    [|done|lia|done|done|].
  - f_equal. f_equal. f_equal. f_equal. lia.
  - cbn [run]. unfold accept. cbn [app]. rewrite <- !app_assoc. cbn [app].
    do 3 f_equal. 
Qed.

Lemma REASON_RE_hit_start R :
  allb dot R = true ->
  match_ REASON_RE (REASON_MARK ++ R)
  = Some {| index := 0; matched := REASON_MARK ++ R; after := [];
            groups := [(1, R)] |}.
Proof.
  intros HR. eapply search_at_start. unfold run_at, REASON_RE.
  change (cat [BOUNDARY; ?a; ?b; ?c; ?d]) with (Seq BOUNDARY (cat [a; b; c; d])).
  rewrite BOUNDARY_start, REASON_RE_tail by done. reflexivity.
Qed.

Lemma REASON_RE_hit_space A0 x R :
  isSpace x = true ->
  includes REASON_MARK A0 = false -> includes REASON_MARK_PLAIN A0 = false ->
  allb dot R = true ->
  match_ REASON_RE (A0 ++ x :: REASON_MARK ++ R)
  = Some {| index := length A0; matched := x :: REASON_MARK ++ R; after := [];
            groups := [(1, R)] |}.
Proof.
  intros Hx H1 H2 HR. unfold match_.
  change (length A0) with (0 + length A0).
  eapply search_first.
  - intros p q -> Hq. apply run_at_None. intros u rest c HM.
    pose proof (Matches_app _ _ _ _ _ _ _ HM) as E.
    apply REASON_RE_inv in HM as (b & mk & v & -> & Hb & Hmk).
    rewrite <- !app_assoc in E. symmetry in E.
    apply occurrence_sep in E as [[q' E]|(p' & E & _)].
    + assert (E' : p ++ q = (p ++ b) ++ mk ++ q') by (by rewrite E, <- !app_assoc).
      destruct Hmk as [->| ->]; by apply includes_none in E'.
    + rewrite E, length_app in Hb. destruct q; [done|]. simpl in Hb. lia.
    + apply (allb_not_in nonSpace); [|by unfold nonSpace; rewrite Hx].
      by destruct Hmk as [->| ->].
  - unfold run_at, REASON_RE.
    change (cat [BOUNDARY; ?a; ?b; ?c; ?d]) with (Seq BOUNDARY (cat [a; b; c; d])).
    rewrite BOUNDARY_space; [|done|].
    + rewrite REASON_RE_tail by done. reflexivity.
    + cbn [cat run strip_prefix]. 
      assert (Hw : (WRITING_HAND =? x)%N = false).
      { apply N.eqb_neq. intros <-. done. }
      by rewrite Hw.
Qed.

(** ** The identifier token of a built line *)

Lemma last_occurrence {A} (x : A) a b a' b' :
  a ++ x :: b = a' ++ x :: b' -> x ∉ b -> x ∉ b' -> a = a' /\ b = b'.
Proof.
  revert a'. induction a as [|y a IH]; intros a' E Hb Hb'.
  - destruct a' as [|z a']; simpl in E.
    + by injection E as ->.
    + injection E as -> ->. exfalso. apply Hb. apply elem_of_app. right. by left.
  - destruct a' as [|z a']; simpl in E.
    + injection E as -> <-. exfalso. apply Hb'. apply elem_of_app. right. by left.
    + injection E as -> E. destruct (IH a' E Hb Hb') as [-> ->]. done.
Qed.

(** On a text that ends with the token of [id], the stripping pattern
    removes the token and the whitespace before it, whatever the text
    holds. *)
Lemma STRIP_HTML_built P id :
  validId id -> replace STRIP_HTML_RE [] (P ++ taskIdToken id) = trimEnd P.
Proof.
  intros [[Hlo Hhi] Hhex].
  destruct (trimEnd_prefix P) as (sp & EP & Hsp).
  assert (exists whole, match_ STRIP_HTML_RE (trimEnd P ++ sp ++ taskIdToken id)
               = Some {| index := 0 + length (trimEnd P); matched := whole;
                         after := []; groups := [] |}) as [whole Hm].
  { eexists. unfold match_. eapply search_first.
    - intros p q Epq Hq. apply run_at_None. intros u rest c HM.
      unfold STRIP_HTML_RE, SP, star in HM. norm_str_in HM. cbn [cat] in HM.
      inv_M.
      match goal with H : _ = q ++ _ |- _ => rename H into E end.
      unfold taskIdToken in E. norm_str_in E. cbn [app] in E.
      rewrite (app_assoc q sp) in E.
      apply last_occurrence in E as [E _].
      + destruct (trimEnd_nonempty_last P) as (a & x & Ea & Hx).
        { rewrite Epq. by destruct p, q. }
        destruct (exists_last Hq) as (q0 & z & ->).
        rewrite Ea, app_assoc in Epq. apply app_inj_tail in Epq as [_ ->].
        match goal with H : allb isSpace (_ ++ sp) = true |- _ => rename H into Hws
        | H : allb isSpace ?u = true |- _ => subst u; rename H into Hws end.
        rewrite !allb_app in Hws. cbn [allb] in Hws. rewrite Hx in Hws.
        by rewrite !andb_false_r in Hws.
      + intros Hin.
        repeat match goal with
        | H : 60%N ∈ _ :: _ |- _ => apply elem_of_cons in H as [H|H]; [done|]
        | H : 60%N ∈ _ ++ _ |- _ => apply elem_of_app in H as [H|H]
        | H : 60%N ∈ [] |- _ => by inversion H
        | H : 60%N ∈ ?l, H' : allb isSpace ?l = true |- _ =>
            by apply (allb_not_in _ _ _ H') in H
        | H : 60%N ∈ ?l, H' : allb isHex ?l = true |- _ =>
            by apply (allb_not_in _ _ _ H') in H
        end.
      + intros Hin.
        repeat match goal with
        | H : 60%N ∈ _ :: _ |- _ => apply elem_of_cons in H as [H|H]; [done|]
        | H : 60%N ∈ _ ++ _ |- _ => apply elem_of_app in H as [H|H]
        | H : 60%N ∈ [] |- _ => by inversion H
        | H : 60%N ∈ ?l, H' : allb isHex ?l = true |- _ =>
            by apply (allb_not_in _ _ _ H') in H
        end.
    - unfold run_at, STRIP_HTML_RE, SP, star, taskIdToken. norm_str.
      cbn [cat run app].
      apply (rep_greedy isSpace sp); [done|lia|done|by left|].
      cbn [strip_prefix N.eqb Pos.eqb].
      apply (rep_greedy isSpace [32%N]); [done|simpl; lia|done|by left|].
      cbn [strip_prefix N.eqb Pos.eqb].
      apply (rep_greedy isHex id); [done|lia|intros h [= <-]; lia|by left|].
      apply (rep_greedy isSpace [32%N]); [done|simpl; lia|done|by left|].
      cbn [strip_prefix N.eqb Pos.eqb].
      apply (rep_greedy isSpace []); [done|simpl; lia|done|done|].
      reflexivity. }
  rewrite EP at 1. rewrite <- app_assoc. unfold replace. rewrite Hm.
  cbn [index after Nat.add]. by rewrite take_app_length, !app_nil_r.
Qed.

Lemma STRIP_HTML_none s :
  includes HTML_OPEN s = false -> replace STRIP_HTML_RE [] s = s.
Proof.
  intros H. unfold replace.
  destruct (match_ STRIP_HTML_RE s) as [m|] eqn:E; [|done]. exfalso.
  apply search_Some in E as (p & -> & Hi & HM & _).
  destruct m as [ix mt af gs]. simpl in *.
  unfold STRIP_HTML_RE, SP, star in HM. norm_str_in HM. cbn [cat] in HM.
  inv_M. rewrite <- !app_assoc in H. rewrite (app_assoc p) in H.
  unfold HTML_OPEN in H. norm_str_in H. by rewrite includes_intro in H.
Qed.

Lemma STRIP_LEGACY_none s :
  includes LEGACY_OPEN s = false -> replace STRIP_LEGACY_RE [] s = s.
Proof.
  intros H. unfold replace.
  destruct (match_ STRIP_LEGACY_RE s) as [m|] eqn:E; [|done]. exfalso.
  apply search_Some in E as (p & -> & Hi & HM & _).
  destruct m as [ix mt af gs]. simpl in *.
  unfold STRIP_LEGACY_RE, SP, star in HM. norm_str_in HM. cbn [cat] in HM.
  inv_M. rewrite <- !app_assoc in H. rewrite (app_assoc p) in H.
  unfold LEGACY_OPEN in H. norm_str_in H. by rewrite includes_intro in H.
Qed.

(** ** [parseMeta], step by step *)

Lemma parseMeta_parts text :
  parseMeta text =
    let '(e, (a, (r, c))) := estPart (stripTaskIdToken text) in
    ({| meta_estMin := e; meta_actMin := a; meta_reason := r |}, c).
Proof.
  unfold parseMeta, estPart, actPart, reasonPart.
  by destruct (match_ REASON_RE _).
Qed.

Lemma nonSpace_not_in x M : isSpace x = true -> allb nonSpace M = true -> x ∉ M.
Proof. intros Hx HM. apply (allb_not_in nonSpace); [done|]. unfold nonSpace. by rewrite Hx. Qed.

Lemma includes_spaces M sp :
  M <> [] -> allb nonSpace M = true -> allb isSpace sp = true -> includes M sp = false.
Proof.
  intros Hne HM Hsp. destruct M as [|y M]; [done|]. apply includes_without.
  apply (allb_not_in isSpace); [done|].
  cbn [allb] in HM. apply andb_true_iff in HM as [Hy _]. by apply negb_true_iff in Hy.
Qed.

Lemma includes_app_spaces M B sp :
  M <> [] -> allb nonSpace M = true ->
  includes M B = false -> allb isSpace sp = true ->
  includes M (B ++ sp) = false.
Proof.
  intros Hne HM HB Hsp. destruct sp as [|x sp]; [by rewrite app_nil_r|].
  cbn [allb] in Hsp. apply andb_true_iff in Hsp as [Hx Hsp].
  apply includes_sep; [by apply nonSpace_not_in|done|by apply includes_spaces].
Qed.

(** A text without the marker, then whitespace or nothing, then a text
    without the marker: no marker in the whole. *)
Lemma includes_app_startsSpace M X T :
  allb nonSpace M = true -> includes M X = false -> includes M T = false ->
  startsSpace T -> includes M (X ++ T) = false.
Proof.
  intros HM HX HT Hs. destruct T as [|x T]; [by rewrite app_nil_r|].
  simpl in Hs. apply includes_sep; [by apply nonSpace_not_in|done|].
  cbn [includes] in HT. by apply orb_false_iff in HT as [_ HT].
Qed.

(** The step of [parseMeta] for a marker, on a text [X ++ lead token ++ T]
    in which only the token holds the marker. *)
Lemma marker_step_mid y mark' X v T :
  isSpace y = false -> allb nonSpace mark' = true ->
  includes (y :: mark') X = false -> includes (y :: mark') T = false ->
  startsSpace T ->
  let S := X ++ match v with Some n => 32%N :: (y :: mark') ++ String_ n | None => [] end
             ++ T in
  match match_ (MARK_RE (y :: mark')) S with
  | Some m => minutesOf m
  | None => None
  end = v
  /\ replace_all (MARK_RE (y :: mark')) [32%N] S = X ++ gap v ++ T.
Proof.
  intros Hy Hm HX HT Hs S. subst S. destruct v as [n|].
  - destruct (marker_step_space y mark' X n T Hy Hm HX HT Hs) as [(m & Em & Hmin) Hr].
    cbn [app] in *. rewrite <- !app_assoc in *. cbn [app] in *.
    rewrite Em, Hmin. split; [done|]. exact Hr.
  - cbn [app gap].
    destruct (marker_step_none (y :: mark') (X ++ T)) as [-> ->]; [|done].
    apply includes_app_startsSpace; [|done|done|done].
    cbn [allb]. unfold nonSpace at 1. by rewrite Hy, Hm.
Qed.

Lemma not_in_by_allb y l : allb (fun c => negb (c =? y)%N) l = true -> y ∉ l.
Proof.
  intros H. apply (allb_not_in _ _ _ H). by rewrite N.eqb_refl.
Qed.

Lemma not_in_String_ y n : isDigit y = false -> y ∉ String_ n.
Proof. intros Hy. by apply (allb_not_in isDigit); [apply String__digits|]. Qed.

Lemma lead_estToken v :
  lead (estToken v)
  = match v with Some n => 32%N :: EST_MARK ++ String_ n | None => [] end.
Proof. by destruct v. Qed.

Lemma lead_actToken v :
  lead (actToken v)
  = match v with Some n => 32%N :: ACT_MARK ++ String_ n | None => [] end.
Proof. by destruct v. Qed.

Lemma lead_reasonToken R :
  lead (reasonToken R) = if nonEmpty R then 32%N :: REASON_MARK ++ R else [].
Proof. unfold reasonToken. by destruct (nonEmpty R). Qed.

Lemma startsSpace_lead x : startsSpace (lead x).
Proof. unfold lead. by destruct (nonEmpty x). Qed.

Lemma startsSpace_lead_app x T : startsSpace T -> startsSpace (lead x ++ T).
Proof. unfold lead. by destruct (nonEmpty x). Qed.

Section RoundTrip.

Variables t R : jsstring.

Hypothesis Best : includes EST_MARK (normalizeWs t) = false.
Hypothesis Bact : includes ACT_MARK (normalizeWs t) = false.
Hypothesis Breason : includes REASON_MARK (normalizeWs t) = false.
Hypothesis Bplain : includes REASON_MARK_PLAIN (normalizeWs t) = false.
Hypothesis Rclean : clean R.
Hypothesis Rdot : allb dot R = true.
Hypothesis Rest : includes EST_MARK R = false.
Hypothesis Ract : includes ACT_MARK R = false.

Lemma reason_without_est : includes EST_MARK (lead (reasonToken R)) = false.
Proof using Rest.
  rewrite lead_reasonToken. destruct (nonEmpty R); [|done].
  apply (includes_after _ _ (32%N :: REASON_MARK)); [|done].
  by apply not_in_by_allb.
Qed.

Lemma reason_without_act : includes ACT_MARK (lead (reasonToken R)) = false.
Proof using Ract.
  rewrite lead_reasonToken. destruct (nonEmpty R); [|done].
  apply (includes_after _ _ (32%N :: REASON_MARK)); [|done].
  by apply not_in_by_allb.
Qed.

Lemma act_without_est act :
  includes EST_MARK (lead (actToken act) ++ lead (reasonToken R)) = false.
Proof using Rest.
  rewrite lead_actToken. destruct act as [n|]; [|apply reason_without_est].
  apply includes_after; [|apply reason_without_est].
  change (32%N :: ACT_MARK ++ String_ n) with ((32%N :: ACT_MARK) ++ String_ n).
  intros Hin. apply elem_of_app in Hin as [Hin|Hin].
  - by apply (not_in_by_allb HOURGLASS_FLOWING (32%N :: ACT_MARK)).
  - by apply (not_in_String_ HOURGLASS_FLOWING n).
Qed.

Lemma chain_reason sp :
  allb isSpace sp = true ->
  reasonPart (normalizeWs t ++ sp ++ lead (reasonToken R)) = (R, normalizeWs t).
Proof using Breason Bplain Rclean Rdot.
  clear Rest Ract. intros Hsp. unfold reasonPart. rewrite lead_reasonToken, app_assoc.
  assert (H1 : includes REASON_MARK (normalizeWs t ++ sp) = false)
    by (by apply includes_app_spaces).
  assert (H2 : includes REASON_MARK_PLAIN (normalizeWs t ++ sp) = false)
    by (by apply includes_app_spaces).
  destruct (nonEmpty R) eqn:HR.
  - rewrite (REASON_RE_hit_space _ 32%N R eq_refl H1 H2 Rdot).
    cbn [groups group Nat.eqb index]. rewrite take_app_length.
    rewrite replace_all_collapse. fold (normalizeWs (trim (normalizeWs t ++ sp))).
    rewrite normalizeWs_trim, normalizeWs_spaces by done. by rewrite Rclean.
  - rewrite app_nil_r, (REASON_RE_none _ H1 H2).
    rewrite replace_all_collapse. fold (normalizeWs (normalizeWs t ++ sp)).
    rewrite normalizeWs_spaces by done. by destruct R.
Qed.

Lemma chain_act sp act :
  allb isSpace sp = true ->
  actPart (normalizeWs t ++ sp ++ lead (actToken act) ++ lead (reasonToken R))
  = (act, (R, normalizeWs t)).
Proof using All.
  intros Hsp. unfold actPart. rewrite lead_actToken, (app_assoc _ sp).
  destruct (marker_step_mid HOURGLASS_DONE (str "act:") (normalizeWs t ++ sp) act
              (lead (reasonToken R))) as [E1 E2];
    [done|done|by apply includes_app_spaces|apply reason_without_act
    |apply startsSpace_lead|].
  change (MARK_RE (HOURGLASS_DONE :: str "act:")) with ACT_RE in E1, E2.
  change (HOURGLASS_DONE :: str "act:") with ACT_MARK in E1, E2.
  cbn zeta in E1, E2. rewrite E1, E2. f_equal.
  rewrite <- app_assoc, (app_assoc sp). apply chain_reason.
  rewrite allb_app, Hsp. by destruct act.
Qed.

Lemma chain_est sp est act :
  allb isSpace sp = true ->
  estPart (normalizeWs t ++ sp ++ lead (estToken est) ++ lead (actToken act)
           ++ lead (reasonToken R))
  = (est, (act, (R, normalizeWs t))).
Proof using All.
  intros Hsp. unfold estPart. rewrite lead_estToken, (app_assoc _ sp).
  destruct (marker_step_mid HOURGLASS_FLOWING (str "est:") (normalizeWs t ++ sp) est
              (lead (actToken act) ++ lead (reasonToken R))) as [E1 E2];
    [done|done|by apply includes_app_spaces|apply act_without_est
    |apply startsSpace_lead_app, startsSpace_lead|].
  change (MARK_RE (HOURGLASS_FLOWING :: str "est:")) with EST_RE in E1, E2.
  change (HOURGLASS_FLOWING :: str "est:") with EST_MARK in E1, E2.
  cbn zeta in E1, E2. rewrite E1, E2. f_equal.
  rewrite <- app_assoc, (app_assoc sp). apply chain_act.
  rewrite allb_app, Hsp. by destruct est.
Qed.

End RoundTrip.

(** ** A display text without reserved token *)

Lemma parseMeta_free text :
  reservedFree text ->
  parseMeta text
  = ({| meta_estMin := None; meta_actMin := None; meta_reason := [] |},
     normalizeWs text).
Proof.
  intros (He & Ha & Hr & Hp & Hh & Hl).
  rewrite parseMeta_parts. unfold stripTaskIdToken.
  rewrite STRIP_HTML_none, STRIP_LEGACY_none by done.
  unfold estPart, actPart, reasonPart.
  change EST_RE with (MARK_RE EST_MARK). change ACT_RE with (MARK_RE ACT_MARK).
  destruct (marker_step_none EST_MARK (trim text)) as [-> ->]; [by apply includes_trim|].
  destruct (marker_step_none ACT_MARK (trim text)) as [-> ->]; [by apply includes_trim|].
  rewrite REASON_RE_none by (by apply includes_trim).
  rewrite replace_all_collapse. fold (normalizeWs (trim text)).
  by rewrite normalizeWs_trim.
Qed.

Lemma cleanedText_free text : reservedFree text -> cleanedText text = normalizeWs text.
Proof. intros H. unfold cleanedText. by rewrite parseMeta_free. Qed.

(** ** The parts of a built line *)

Lemma seg_lead x Z : 32%N :: seg x ++ Z = lead x ++ 32%N :: Z.
Proof.
  unfold seg, lead. destruct (nonEmpty x); [|done].
  cbn [app]. by rewrite <- app_assoc.
Qed.

Lemma trimEnd_lead Z x : clean x -> trimEnd Z = Z -> trimEnd (Z ++ lead x) = Z ++ lead x.
Proof.
  intros Hx HZ. unfold lead. destruct (nonEmpty x) eqn:E; [|by rewrite app_nil_r].
  destruct (clean_last x Hx) as (a & c & -> & Hc); [by destruct x|].
  change (Z ++ 32%N :: a ++ [c]) with (Z ++ (32%N :: a) ++ [c]).
  rewrite app_assoc. by apply trimEnd_snoc.
Qed.

Lemma trimStart_lead x Z :
  clean x -> nonEmpty x = true -> trimStart (lead x ++ Z) = x ++ Z.
Proof.
  intros Hx E. unfold lead. rewrite E. destruct x as [|c x]; [done|].
  transitivity (trimStart ((c :: x) ++ Z)); [exact (trimStart_spaces [32%N] _ eq_refl)|].
  cbn [app]. apply trimStart_id. by eapply clean_head.
Qed.

Lemma lead_empty x : nonEmpty x = false -> lead x = [].
Proof. unfold lead. by intros ->. Qed.

Lemma includes_lead_app M x Z :
  M <> [] -> allb nonSpace M = true ->
  includes M x = false -> includes M Z = false -> startsSpace Z ->
  includes M (lead x ++ Z) = false.
Proof.
  intros Hne HM Hx HZ Hs. unfold lead. destruct (nonEmpty x); [|done].
  apply (includes_sep M 32%N []); [by apply nonSpace_not_in| |].
  - destruct M; done.
  - by apply includes_app_startsSpace.
Qed.

Lemma clean_token mk v :
  allb nonSpace mk = true -> allb nonSpace v = true -> clean (mk ++ v).
Proof.
  intros H1 H2. assert (H : allb nonSpace (mk ++ v) = true) by (by rewrite allb_app, H1, H2).
  apply clean_intro; [|by apply trimEnd_all_nonSpace].
  destruct (mk ++ v) as [|c s]; [done|]. apply trimStart_id.
  cbn [allb] in H. apply andb_true_iff in H as [H _]. by apply negb_true_iff in H.
Qed.

Lemma clean_estToken v : clean (estToken v).
Proof.
  destruct v as [n|]; [|done]. apply clean_token; [done|apply String__nonSpace].
Qed.

Lemma clean_actToken v : clean (actToken v).
Proof.
  destruct v as [n|]; [|done]. apply clean_token; [done|apply String__nonSpace].
Qed.

Lemma clean_reasonToken R : clean R -> clean (reasonToken R).
Proof.
  intros HR. unfold reasonToken. destruct (nonEmpty R) eqn:E; [|done].
  destruct (clean_last R HR) as (a & c & -> & Hc); [by destruct R|].
  unfold REASON_MARK. norm_str. cbn [app].
  apply (clean_app_nonspace [_; _; _; _; _; _; _; _] _ a c); done.
Qed.

(** The parts of a built line, trimmed: every non-empty part after a
    space, without the first space. *)
Lemma trim_segs B e a r :
  clean B -> clean e -> clean a -> clean r ->
  trim (seg B ++ seg e ++ seg a ++ seg r)
  = trimStart (lead B ++ lead e ++ lead a ++ lead r).
Proof.
  intros HB He Ha Hr.
  assert (E : 32%N :: seg B ++ seg e ++ seg a ++ seg r
              = (lead B ++ lead e ++ lead a ++ lead r) ++ [32%N]).
  { rewrite <- (app_nil_r (seg r)). rewrite seg_lead.
    rewrite <- !app_assoc. f_equal.
    change (32%N :: seg e ++ seg a ++ seg r ++ []) with (32%N :: seg e ++ (seg a ++ seg r ++ [])).
    rewrite seg_lead. f_equal. rewrite seg_lead. f_equal.
    change (32%N :: seg r ++ []) with (32%N :: seg r ++ []). by rewrite seg_lead. }
  transitivity (trim (32%N :: seg B ++ seg e ++ seg a ++ seg r)).
  { reflexivity. }
  rewrite E, trim_app_spaces by done.
  unfold trim. rewrite <- trimStart_trimEnd. f_equal.
  rewrite !app_assoc.
  apply trimEnd_lead; [done|]. apply trimEnd_lead; [done|].
  apply trimEnd_lead; [done|]. by apply (trimEnd_lead []).
Qed.

(** The steps of [parseMeta] on the parts of a built line. *)
Lemma estPart_built t R est act :
  includes EST_MARK (normalizeWs t) = false ->
  includes ACT_MARK (normalizeWs t) = false ->
  includes REASON_MARK (normalizeWs t) = false ->
  includes REASON_MARK_PLAIN (normalizeWs t) = false ->
  clean R -> allb dot R = true ->
  includes EST_MARK R = false -> includes ACT_MARK R = false ->
  estPart (trimStart (lead (normalizeWs t) ++ lead (estToken est) ++ lead (actToken act)
                      ++ lead (reasonToken R)))
  = (est, (act, (R, normalizeWs t))).
Proof.
  intros Be Ba Br Bp Rc Rd Re Ra.
  pose proof (chain_est t R Be Ba Br Bp Rc Rd Re Ra) as Cest.
  pose proof (chain_act t R Be Ba Br Bp Rc Rd Re Ra) as Cact.
  pose proof (chain_reason t R Br Bp Rc Rd) as Creason.
  destruct (nonEmpty (normalizeWs t)) eqn:EB.
  { rewrite trimStart_lead; [|apply trim_clean|done]. by apply (Cest []). }
  assert (B0 : normalizeWs t = []) by (by destruct (normalizeWs t)).
  rewrite B0 in *. cbn [lead nonEmpty app] in *.
  destruct est as [n|].
  { rewrite lead_estToken.
    transitivity (estPart (EST_MARK ++ String_ n ++ lead (actToken act) ++ lead (reasonToken R))).
    { f_equal. }
    unfold estPart. change EST_RE with (MARK_RE EST_MARK).
    destruct (marker_step_start HOURGLASS_FLOWING (str "est:") n
                (lead (actToken act) ++ lead (reasonToken R)))
      as [(m & Em & Hmin) Hr];
      [by apply act_without_est|apply startsSpace_lead_app, startsSpace_lead|].
    change (HOURGLASS_FLOWING :: str "est:") with EST_MARK in Em, Hr.
    rewrite Em, Hmin, Hr. f_equal. by apply (Cact [32%N]). }
  cbn [estToken lead nonEmpty app].
  assert (Eest : forall s, includes EST_MARK s = false ->
                  estPart s = (None, actPart s)).
  { intros s Hs. unfold estPart. change EST_RE with (MARK_RE EST_MARK).
    by destruct (marker_step_none EST_MARK s Hs) as [-> ->]. }
  destruct act as [n|].
  { rewrite lead_actToken.
    transitivity (estPart (ACT_MARK ++ String_ n ++ lead (reasonToken R))).
    { f_equal. }
    rewrite Eest.
    2:{ rewrite app_assoc. apply includes_after; [|by apply reason_without_est].
        intros Hin. apply elem_of_app in Hin as [Hin|Hin].
        - by apply (not_in_by_allb HOURGLASS_FLOWING ACT_MARK).
        - by apply (not_in_String_ HOURGLASS_FLOWING n). }
    f_equal. unfold actPart. change ACT_RE with (MARK_RE ACT_MARK).
    destruct (marker_step_start HOURGLASS_DONE (str "act:") n (lead (reasonToken R)))
      as [(m & Em & Hmin) Hr]; [by apply reason_without_act|apply startsSpace_lead|].
    change (HOURGLASS_DONE :: str "act:") with ACT_MARK in Em, Hr.
    rewrite Em, Hmin, Hr. f_equal. by apply (Creason [32%N]). }
  cbn [actToken lead nonEmpty app]. rewrite lead_reasonToken.
  destruct (nonEmpty R) eqn:ER; [|by destruct R].
  transitivity (estPart (REASON_MARK ++ R)).
  { f_equal. }
  rewrite Eest.
  2:{ apply includes_after; [by apply not_in_by_allb|done]. }
  f_equal. unfold actPart, reasonPart. change ACT_RE with (MARK_RE ACT_MARK).
  destruct (marker_step_none ACT_MARK (REASON_MARK ++ R)) as [-> ->].
  { apply includes_after; [by apply not_in_by_allb|done]. }
  rewrite REASON_RE_hit_start by done.
  cbn [groups group Nat.eqb index take]. by rewrite Rc.
Qed.

Lemma includes_token_free y M mk v :
  allb (fun c => negb (c =? y)%N) mk = true -> isDigit y = false ->
  includes (y :: M) (match v with Some n => mk ++ String_ n | None => [] end) = false.
Proof.
  intros Hmk Hy. destruct v as [n|]; [|done]. apply includes_without.
  intros Hin. apply elem_of_app in Hin as [Hin|Hin].
  - by apply (not_in_by_allb y mk).
  - by apply (not_in_String_ y n).
Qed.

(** [parseMeta] on the text of a built line gives back the metadata and
    the normalised display text. *)
Lemma parseMeta_built text est act reason id :
  validId id -> reservedFree text -> plainReason reason ->
  parseMeta (seg (cleanedText text) ++ seg (estToken est) ++ seg (actToken act)
             ++ seg (reasonToken (trim reason)) ++ taskIdToken id)
  = ({| meta_estMin := est; meta_actMin := act; meta_reason := trim reason |},
     normalizeWs text).
Proof.
  intros Hid Hfree (Rd & Re & Ra & Rl).
  rewrite (cleanedText_free _ Hfree).
  destruct Hfree as (Be & Ba & Br & Bp & _ & Bl).
  set (B := normalizeWs text). set (R := trim reason).
  assert (HRc : clean R) by apply trim_clean.
  assert (HBc : clean B) by apply trim_clean.
  assert (Be' : includes EST_MARK B = false) by (by apply includes_normalizeWs).
  assert (Ba' : includes ACT_MARK B = false) by (by apply includes_normalizeWs).
  assert (Br' : includes REASON_MARK B = false) by (by apply includes_normalizeWs).
  assert (Bp' : includes REASON_MARK_PLAIN B = false) by (by apply includes_normalizeWs).
  assert (Bl' : includes LEGACY_OPEN B = false) by (by apply includes_normalizeWs).
  assert (Re' : includes EST_MARK R = false) by (by apply includes_trim).
  assert (Ra' : includes ACT_MARK R = false) by (by apply includes_trim).
  assert (Rl' : includes LEGACY_OPEN R = false) by (by apply includes_trim).
  rewrite parseMeta_parts.
  assert (Hstrip : stripTaskIdToken
            (seg B ++ seg (estToken est) ++ seg (actToken act) ++ seg (reasonToken R)
             ++ taskIdToken id)
          = trimStart (lead B ++ lead (estToken est) ++ lead (actToken act)
                       ++ lead (reasonToken R))).
  { rewrite <- trim_segs by auto using clean_estToken, clean_actToken, clean_reasonToken.
    unfold stripTaskIdToken. rewrite !app_assoc, STRIP_HTML_built by done.
    rewrite <- !app_assoc.
    rewrite STRIP_LEGACY_none.
    - unfold trim. by rewrite <- trimStart_trimEnd, trimEnd_idem, trimStart_trimEnd.
    - apply includes_trimEnd.
      assert (H : includes LEGACY_OPEN
                (32%N :: seg B ++ seg (estToken est) ++ seg (actToken act)
                 ++ seg (reasonToken R) ++ []) = false).
      { rewrite seg_lead. apply includes_lead_app; [done|done|done| |done].
        rewrite seg_lead. apply includes_lead_app; [done|done| | |done].
        { unfold estToken. by apply includes_token_free. }
        rewrite seg_lead. apply includes_lead_app; [done|done| | |done].
        { unfold actToken. by apply includes_token_free. }
        rewrite seg_lead. apply includes_lead_app; [done|done| |reflexivity|done].
        unfold reasonToken. destruct (nonEmpty R); [|done].
        apply includes_after; [by apply not_in_by_allb|done]. }
      rewrite app_nil_r in H. cbn [includes] in H.
      by apply orb_false_iff in H as [_ H]. }
  rewrite Hstrip. subst B R. by rewrite estPart_built.
Qed.




(** * Further properties of the codec and of the identifiers *)

(** X1.  [extractTaskId] returns identifiers only: what it returns is a
    run of 6 to 32 hexadecimal digits, and it returns one whenever
    [hasCanonicalTaskId] holds. *)
Theorem X1_extracted_identifier text :
  (forall id, extractTaskId text = Some id -> validId id)
  /\ (hasCanonicalTaskId text = true -> is_Some (extractTaskId text)).
Proof.
  split.
  - intros id. apply extractTaskId_valid.
  - intros H. destruct (hasCanonicalTaskId_extract _ H) as [id ->]. by eexists.
Qed.

Lemma hexDigit_isLowerHex d : (d < 16)%N -> isLowerHex (hexDigit d) = true.
Proof.
  intros H. unfold hexDigit, isLowerHex.
  destruct (N.ltb_spec d 10).
  - apply orb_true_iff. left. apply andb_true_iff. split; apply N.leb_le; lia.
  - apply orb_true_iff. right. apply andb_true_iff. split; apply N.leb_le; lia.
Qed.

Lemma hexByte_isLowerHex b : allb isLowerHex (hexByte b) = true.
Proof.
  unfold hexByte. cbn [allb].
  pose proof (N.mod_lt b 256 ltac:(lia)) as Hb.
  set (x := (b mod 256)%N) in *.
  pose proof (N.mod_lt x 16 ltac:(lia)).
  assert (x / 16 < 16)%N by (apply N.Div0.div_lt_upper_bound; lia).
  by rewrite !hexDigit_isLowerHex.
Qed.

(** X2.  [genTaskId] gives eight lower-case hexadecimal digits, hence an
    identifier that the token patterns accept, and consumes four bytes of
    the random source. *)
Theorem X2_generated_identifier rnd pos :
  length (fst (genTaskId rnd pos)) = 8
  /\ allb isLowerHex (fst (genTaskId rnd pos)) = true
  /\ validId (fst (genTaskId rnd pos))
  /\ snd (genTaskId rnd pos) = pos + 4.
Proof.
  split; [done|]. split; [|split; [apply genTaskId_valid|done]].
  unfold genTaskId. cbn [fst]. by rewrite !allb_app, !hexByte_isLowerHex.
Qed.

Lemma ensureTaskIdOnLine_shape line id :
  ensureTaskIdOnLine line id = (stripTaskIdToken line ++ [32%N]) ++ taskIdToken id.
Proof.
  unfold ensureTaskIdOnLine. destruct (taskIdToken_last id) as (a & Ea).
  rewrite Ea. norm_str.
  rewrite (app_assoc _ [32%N]), (app_assoc _ a). by rewrite trimEnd_snoc.
Qed.

Lemma lineHasTaskId_token P id : lineHasTaskId (P ++ taskIdToken id) id = true.
Proof.
  unfold lineHasTaskId. apply orb_true_iff. left. apply test_true.
  exists P, (taskIdToken id). do 3 eexists. split; [done|].
  unfold taskIdToken, SP, star. norm_str. cbn [cat].
  eapply M_Seq; [apply (M_Lit [60; 33; 45; 45]%N)|].
  eapply M_Seq; [apply (M_Rep isSpace 0 None _ [32%N]); [done|simpl; lia|done]|].
  eapply M_Seq; [apply (M_Lit [116; 105; 100; 58]%N)|].
  eapply M_Seq; [apply (M_Lit id)|].
  eapply M_Seq; [apply (M_Rep isSpace 0 None _ [32%N]); [done|simpl; lia|done]|].
  apply (M_Lit [45; 45; 62]%N _ []).
Qed.

(** X3.  Whatever the line holds, [ensureTaskIdOnLine line id] ends with
    the canonical token of [id]: [extractTaskId] reads [id] from it,
    [hasCanonicalTaskId] holds, and [lineHasTaskId] finds [id] in it. *)
Theorem X3_ensured_line_carries_id line id :
  validId id ->
  extractTaskId (ensureTaskIdOnLine line id) = Some id
  /\ hasCanonicalTaskId (ensureTaskIdOnLine line id) = true
  /\ lineHasTaskId (ensureTaskIdOnLine line id) id = true.
Proof.
  intros Hid. rewrite ensureTaskIdOnLine_shape.
  destruct (TASK_ID_HTML_RE_at_end (stripTaskIdToken line ++ [32%N]) id Hid) as [whole Hm].
  unfold extractTaskId, hasCanonicalTaskId, test. rewrite Hm.
  split; [done|]. split; [done|]. apply lineHasTaskId_token.
Qed.

Lemma X3_ensured_line_carries_id_witness :
  validId (str "abcdef12")
  /\ extractTaskId (ensureTaskIdOnLine (str "  - [x] old {#t:0123ab}") (str "abcdef12"))
     = Some (str "abcdef12")
  /\ hasCanonicalTaskId (ensureTaskIdOnLine (str "  - [x] old {#t:0123ab}") (str "abcdef12"))
     = true
  /\ lineHasTaskId (ensureTaskIdOnLine (str "  - [x] old {#t:0123ab}") (str "abcdef12"))
       (str "abcdef12") = true.
Proof.
  assert (H : validId (str "abcdef12")) by (split; [simpl; lia|reflexivity]).
  exact (conj H (X3_ensured_line_carries_id (str "  - [x] old {#t:0123ab}")
                   (str "abcdef12") H)).
Defined.

Lemma parseLines_indices rnd lines : forall pos i,
  map t_lineIndex (fst (parseLines rnd pos i lines)) = taskLineIndices i lines
  /\ Forall (fun t => validId (t_id t)) (fst (parseLines rnd pos i lines)).
Proof.
  induction lines as [|l lines IH]; intros pos i; [done|].
  cbn [parseLines taskLineIndices]. unfold test.
  destruct (match_ TASK_RE l) as [m|] eqn:Hm.
  - destruct (parseLine_task rnd pos i l m Hm) as (t & pos' & -> & Hi & _ & Hv & _).
    destruct (IH pos' (S i)) as [IH1 IH2].
    destruct (parseLines rnd pos' (S i) lines) as [ts pos2]. cbn [fst map] in *.
    split; [by rewrite Hi, IH1|by constructor].
  - rewrite (parseLine_no_task _ _ _ _ Hm).
    destruct (IH pos (S i)) as [IH1 IH2].
    by destruct (parseLines rnd pos (S i) lines) as [ts pos2].
Qed.

(** X4.  [parseTasks] gives one task for each checkbox line of the text,
    in the order of the file, with the index of its line; and every task
    has an identifier of 6 to 32 hexadecimal digits, read from the line or
    generated. *)
Theorem X4_one_task_per_checkbox_line rnd pos md :
  map t_lineIndex (fst (parseTasks rnd pos md)) = taskLineIndices 0 (split_lines md)
  /\ Forall (fun t => validId (t_id t)) (fst (parseTasks rnd pos md)).
Proof. apply parseLines_indices. Qed.

(** X5.  On a text without reserved token [parseMeta] finds no metadata,
    and its cleaned text is the text with every run of whitespace turned
    into one space and both ends trimmed. *)
Theorem X5_text_without_tokens text :
  reservedFree text ->
  parseMeta text
  = ({| meta_estMin := None; meta_actMin := None; meta_reason := [] |},
     normalizeWs text).
Proof. apply parseMeta_free. Qed.

Lemma X5_text_without_tokens_witness :
  reservedFree (str "  read   the paper ")
  /\ parseMeta (str "  read   the paper ")
     = ({| meta_estMin := None; meta_actMin := None; meta_reason := [] |},
        normalizeWs (str "  read   the paper ")).
Proof.
  assert (H : reservedFree (str "  read   the paper ")) by (repeat split; reflexivity).
  exact (conj H (X5_text_without_tokens _ H)).
Defined.

Lemma collapse_length s : length (collapse s) <= length s.
Proof.
  induction s as [|c s IH]; [done|].
  destruct (isSpace c) eqn:Hc.
  - destruct (startsNonSpace_cases s) as [->|[(c' & s' & -> & Hc')|(c' & s' & -> & Hc')]].
    + by rewrite collapse_single.
    + rewrite collapse_skip by done. simpl in *. lia.
    + rewrite collapse_last_space by (by rewrite ?Hc'). simpl in *. lia.
  - rewrite collapse_cons_nonspace by done. simpl. lia.
Qed.

Lemma collapse_shrinks p x y q :
  isSpace x = true -> isSpace y = true ->
  length (collapse (p ++ x :: y :: q)) < length (p ++ x :: y :: q).
Proof.
  intros Hx Hy. induction p as [|c p IH].
  - cbn [app]. rewrite collapse_skip by done.
    pose proof (collapse_length (y :: q)). simpl in *. lia.
  - cbn [app]. destruct (isSpace c) eqn:Hc.
    + destruct p as [|c' p]; cbn [app] in *.
      * rewrite collapse_skip by done. simpl in *. lia.
      * destruct (isSpace c') eqn:Hc'.
        -- rewrite collapse_skip by done. simpl in *. lia.
        -- rewrite collapse_last_space by (by rewrite ?Hc'). simpl in *. lia.
    + rewrite collapse_cons_nonspace by done. simpl in *. lia.
Qed.

Lemma collapse_no_double X p q : collapse X <> p ++ [32%N; 32%N] ++ q.
Proof.
  intros E. pose proof (collapse_idem X) as Hi. rewrite E in Hi.
  pose proof (collapse_shrinks p 32%N 32%N q eq_refl eq_refl) as Hl.
  cbn [app] in Hi. rewrite Hi in Hl. lia.
Qed.

Lemma trimStart_suffix s : exists sp, s = sp ++ trimStart s.
Proof.
  induction s as [|c s [sp IH]]; [by exists []|]. cbn [trimStart].
  destruct (isSpace c); [|by exists []]. exists (c :: sp). cbn [app]. by rewrite <- IH.
Qed.

Lemma normalizeWs_singleSpaced X : singleSpaced (normalizeWs X).
Proof.
  split; [apply trim_clean|]. split; [apply normalizeWs_units|].
  intros p q E. unfold normalizeWs, trim in E.
  destruct (trimStart_suffix (collapse X)) as [sp1 E1].
  destruct (trimEnd_prefix (trimStart (collapse X))) as (sp2 & E2 & _).
  rewrite E in E2. rewrite E2 in E1.
  apply (collapse_no_double X (sp1 ++ p) (q ++ sp2)).
  rewrite E1. by rewrite <- !app_assoc.
Qed.

Lemma parseMeta_reason_clean text : clean (meta_reason (fst (parseMeta text))).
Proof.
  unfold parseMeta. destruct (match_ REASON_RE _) as [m|]; cbn [fst meta_reason].
  - apply trim_clean.
  - done.
Qed.

Lemma parseLine_texts rnd pos i line t pos' :
  parseLine rnd pos i line = (Some t, pos') ->
  exists rest, t_text t = cleanedText rest
    /\ t_reason t = meta_reason (fst (parseMeta rest)).
Proof.
  unfold parseLine. destruct (match_ TASK_RE line) as [m|]; [|done].
  set (rest := trim (group 2 (groups m))). unfold cleanedText.
  destruct (parseMeta rest) as [pm dt] eqn:E.
  destruct (extractTaskId rest); intros [= <- <-]; exists rest; by rewrite E.
Qed.

Lemma parseLines_Forall (P : Task -> Prop) rnd lines :
  (forall pos i line t pos', parseLine rnd pos i line = (Some t, pos') -> P t) ->
  forall pos i, Forall P (fst (parseLines rnd pos i lines)).
Proof.
  intros HP. induction lines as [|l lines IH]; intros pos i; [done|].
  cbn [parseLines]. destruct (parseLine rnd pos i l) as [ot pos1] eqn:E.
  specialize (IH pos1 (S i)).
  destruct (parseLines rnd pos1 (S i) lines) as [ts pos2]. cbn [fst] in *.
  destruct ot as [t|]; [|done]. constructor; [by eapply HP|done].
Qed.

(** X6.  Whatever the file holds, the display text of every parsed task
    is normalised: no whitespace at its ends, no whitespace inside but
    single spaces U+0020; and the reason of every task is trimmed. *)
Theorem X6_parsed_texts_normalised rnd pos md :
  Forall (fun t => singleSpaced (t_text t) /\ clean (t_reason t))
    (fst (parseTasks rnd pos md)).
Proof.
  apply parseLines_Forall. intros p i line t p' E.
  apply parseLine_texts in E as (rest & -> & ->). split.
  - destruct (cleanedText_normalized rest) as [X ->]. apply normalizeWs_singleSpaced.
  - apply parseMeta_reason_clean.
Qed.

(** X7.  A line that [buildTaskLine] writes for [id] is found again by
    [lineHasTaskId] with the same [id], which is how the next mutation
    looks the task up. *)
Theorem X7_built_line_is_found checked text meta id :
  validId id -> lineHasTaskId (buildTaskLine checked text meta id) id = true.
Proof.
  intros _. rewrite buildTaskLine_shape, app_assoc. apply lineHasTaskId_token.
Qed.

Lemma X7_built_line_is_found_witness :
  validId (str "abcdef12")
  /\ lineHasTaskId
       (buildTaskLine true (str "write") {| meta_estMin := Some 30%N;
          meta_actMin := None; meta_reason := [] |} (str "abcdef12"))
       (str "abcdef12") = true.
Proof.
  assert (H : validId (str "abcdef12")) by (split; [simpl; lia|reflexivity]).
  exact (conj H (X7_built_line_is_found true (str "write") _ (str "abcdef12") H)).
Defined.

(** * Drafts *)

Lemma parseDraftMinutes_String_ n : parseDraftMinutes (String_ n) = Some (Num n).
Proof.
  rewrite parseDraftMinutes_integer; rewrite trim_digits by apply String__digits.
  - by rewrite decimalVal_String_.
  - apply String__isIntegerText.
Qed.



(** * The line of a new task *)

(** X10.  The line that [addTask] writes for a trimmed, non-empty draft
    without line terminator is a checkbox line that ends with the
    canonical token of the fresh identifier: the parser reads it as an
    open task with that identifier, flagged as carrying it, so that the
    next load does not rewrite the line. *)
Theorem X10_new_task_line text id rnd pos i :
  text <> [] -> clean text -> allb dot text = true -> validId id ->
  settled (newTaskLine text id)
  /\ lineHasTaskId (newTaskLine text id) id = true
  /\ exists t, parseLine rnd pos i (newTaskLine text id) = (Some t, pos)
       /\ t_id t = id /\ t_hasId t = true /\ t_done t = false /\ t_lineIndex t = i.
Proof.
  intros Hne Hc Hd Hid. unfold newTaskLine. norm_str.
  assert (Hs : startsNonSpace ((text ++ [32%N]) ++ taskIdToken id)).
  { destruct text as [|c text]; [done|]. by eapply clean_head. }
  assert (Hbody : allb dot ((text ++ [32%N]) ++ taskIdToken id) = true).
  { rewrite !allb_app, Hd. cbn [allb andb]. by apply taskIdToken_dot, Hid. }
  destruct (TASK_RE_forward [] [32%N] 32%N [32%N] ((text ++ [32%N]) ++ taskIdToken id))
    as [whole Hm]; auto.
  cbn [app] in Hm. rewrite <- !app_assoc in Hm. cbn [app] in Hm.
  destruct (TASK_ID_HTML_RE_at_end (text ++ [32%N]) id Hid) as [tok Hex].
  assert (Htrim : trim ((text ++ [32%N]) ++ taskIdToken id)
                  = (text ++ [32%N]) ++ taskIdToken id)
    by (by apply taskIdToken_clean_after).
  rewrite <- !app_assoc in Htrim, Hex. cbn [app] in Htrim, Hex.
  split; [|split].
  - unfold settled, lacksCanonicalId. cbn [app]. rewrite Hm.
    cbn [groups group Nat.eqb]. rewrite Htrim.
    unfold hasCanonicalTaskId, test. by rewrite Hex.
  - rewrite !app_assoc. apply lineHasTaskId_token.
  - unfold parseLine. cbn [app]. rewrite Hm. cbn [groups group Nat.eqb]. rewrite Htrim.
    unfold extractTaskId, hasCanonicalTaskId, test. rewrite Hex.
    cbn [groups group Nat.eqb].
    destruct (parseMeta (text ++ 32%N :: taskIdToken id)) as [pm dt].
    eexists. split; [reflexivity|]. by cbn.
Qed.

Lemma X10_new_task_line_witness :
  str "call Ada" <> [] /\ clean (str "call Ada") /\ allb dot (str "call Ada") = true
  /\ validId (str "abcdef12")
  /\ settled (newTaskLine (str "call Ada") (str "abcdef12"))
  /\ lineHasTaskId (newTaskLine (str "call Ada") (str "abcdef12")) (str "abcdef12") = true
  /\ exists t,
      parseLine exampleEntropy 0 3 (newTaskLine (str "call Ada") (str "abcdef12"))
      = (Some t, 0)
      /\ t_id t = str "abcdef12" /\ t_hasId t = true /\ t_done t = false
      /\ t_lineIndex t = 3.
Proof.
  assert (H1 : str "call Ada" <> []) by done.
  assert (H2 : clean (str "call Ada")) by reflexivity.
  assert (H3 : allb dot (str "call Ada") = true) by reflexivity.
  assert (H4 : validId (str "abcdef12")) by (split; [simpl; lia|reflexivity]).
  exact (conj H1 (conj H2 (conj H3 (conj H4
    (X10_new_task_line (str "call Ada") (str "abcdef12") exampleEntropy 0 3
       H1 H2 H3 H4))))).
Defined.

Transparent toYMD hashString addDays weekStart loadDays.

(** * The days of the week view *)

Lemma addDays_day d n :
  addDays d n = {| dayNumber := (dayNumber d + n)%Z; msOfDay := msOfDay d |}.
Proof. unfold addDays. apply setDate_getDate. Qed.



(** * The content hash *)

Lemma digitsFuel_lowerHex fuel : forall n tail,
  allb isLowerHex tail = true -> allb isLowerHex (digitsFuel 16 fuel n tail) = true.
Proof.
  induction fuel as [|fuel IH]; intros n tail Ht; cbn [digitsFuel]; [done|].
  pose proof (N.mod_lt n 16 ltac:(lia)) as Hr.
  set (r := (n mod 16)%N) in *.
  assert (Hd : isLowerHex (if (r <? 10)%N then (48 + r)%N else (87 + r)%N) = true).
  { unfold isLowerHex. destruct (N.ltb_spec r 10).
    - apply orb_true_iff. left. apply andb_true_iff. split; apply N.leb_le; lia.
    - apply orb_true_iff. right. apply andb_true_iff. split; apply N.leb_le; lia. }
  destruct (n <? 16)%N; [cbn [allb]; by rewrite Hd|].
  apply IH. cbn [allb]. by rewrite Hd.
Qed.

Lemma digitsFuel_length fuel : forall n tail k,
  (n < 16 ^ N.of_nat (S k))%N ->
  length (digitsFuel 16 fuel n tail) <= length tail + S k.
Proof.
  induction fuel as [|fuel IH]; intros n tail k Hn; cbn [digitsFuel]; [lia|].
  destruct (N.ltb_spec n 16) as [Hlt|Hge]; [simpl; lia|].
  destruct k as [|k].
  { change (16 ^ N.of_nat 1)%N with 16%N in Hn. lia. }
  etransitivity; [apply (IH _ _ k)|simpl; lia].
  apply N.Div0.div_lt_upper_bound.
  replace (N.of_nat (S (S k))) with (N.succ (N.of_nat (S k))) in Hn by lia.
  by rewrite N.pow_succ_r' in Hn.
Qed.

Lemma digitsFuel_nonempty_any b fuel n tail : digitsFuel b (S fuel) n tail <> [].
Proof.
  revert n tail. induction fuel as [|fuel IH]; intros n tail; cbn [digitsFuel].
  - by destruct (n <? b)%N.
  - destruct (n <? b)%N; [done|]. apply IH.
Qed.

(** X12.  The hash of a file content is a non-empty string of at most
    eight lower-case hexadecimal digits, so that a recorded hash is never
    the empty string that the poll tick would skip. *)
Theorem X12_hash_shape s :
  nonEmpty (hashString s) = true
  /\ length (hashString s) <= 8
  /\ allb isLowerHex (hashString s) = true.
Proof.
  unfold hashString, toRadix.
  set (n := Z.to_N (fold_left hashStep s 5381%Z mod 2 ^ 32)).
  assert (Hn : (n < 16 ^ N.of_nat 8)%N).
  { subst n. pose proof (Z.mod_pos_bound (fold_left hashStep s 5381%Z) (2 ^ 32) ltac:(lia)).
    change (16 ^ N.of_nat 8)%N with (Z.to_N (2 ^ 32)). lia. }
  split; [|split].
  - pose proof (digitsFuel_nonempty_any 16 (N.to_nat (N.log2 n)) n []) as H.
    by destruct (digitsFuel 16 _ n []).
  - apply (digitsFuel_length _ n [] 7 Hn).
  - by apply digitsFuel_lowerHex.
Qed.

(** * Deleting a task *)

(** X13.  [deleteTask] on a task whose line is found at index [idx] of
    the day's file: the file is read and written back without that line,
    every other line as it was and in the same order; the stored draft of
    the task is dropped; then the week is reloaded.  Deleting the only
    line of a file leaves the empty text. *)
Theorem X13_delete_frame w day task md idx :
  files w !! filePath day = Some md ->
  findIndex (fun l => lineHasTaskId l (t_id task)) (split_lines md) = Some idx ->
  let lines := split_lines md in
  let lines' := take idx lines ++ drop (S idx) lines in
  let md' := join_lines lines' in
  let w1 := emit (EvRead (filePath day)) (setError None (setBusy true w)) in
  let w2 := emit (EvWrite (filePath day) md')
              (setFiles (<[filePath day := md']> (files w1)) w1) in
  let w3 := setMetaDraftByTask (delete (t_id task) (metaDraftByTask w2)) w2 in
  deleteTask day task w = (Ok tt, setBusy false (snd (loadWeek w3)))
  /\ length lines' + 1 = length lines
  /\ (forall j, j < idx -> lines' !! j = lines !! j)
  /\ (forall j, idx <= j -> lines' !! j = lines !! S j)
  /\ (lines' <> [] -> split_lines md' = lines')
  /\ (lines' = [] -> md' = []).
Proof.
  intros Hf Hidx lines lines' md' w1 w2 w3.
  destruct (findIndex_Some_lookup _ _ _ Hidx) as (l & Hl & _).
  pose proof (lookup_lt_Some _ _ _ Hl) as Hlt. fold lines in Hl, Hlt.
  split; [|split; [|split; [|split; [|split]]]].
  - subst lines lines' md' w1 w2 w3.
    unfold deleteTask, tryCatchFinally, bind, act, readTextFile, writeTextFile.
    cbn [files setBusy setError]. rewrite Hf. cbn beta iota. rewrite Hidx.
    cbn beta iota. by rewrite (loadWeek_eta (setMetaDraftByTask _ _)).
  - subst lines'. rewrite length_app, length_take, length_drop. lia.
  - intros j Hj. subst lines'. rewrite lookup_app_l by (rewrite length_take; lia).
    by rewrite lookup_take_lt by lia.
  - intros j Hj. subst lines'. rewrite lookup_app_r by (rewrite length_take; lia).
    rewrite length_take, lookup_drop. f_equal. lia.
  - intros Hne. apply split_join; [done|]. subst lines'.
    apply Forall_app. split; [apply Forall_take|apply Forall_drop]; apply split_lines_noLF.
  - by intros ->.
Qed.

Lemma X13_delete_frame_witness :
  files exampleWorld !! filePath exampleDay = Some exampleFile
  /\ findIndex (fun l => lineHasTaskId l (t_id exampleTask)) (split_lines exampleFile)
     = Some 2
  /\ exists w3,
      deleteTask exampleDay exampleTask exampleWorld
      = (Ok tt, setBusy false (snd (loadWeek w3)))
      /\ files w3 !! examplePath
         = Some (join_lines (take 2 (split_lines exampleFile)
                             ++ drop 3 (split_lines exampleFile))).
Proof.
  assert (H1 : files exampleWorld !! filePath exampleDay = Some exampleFile) by reflexivity.
  assert (H2 : findIndex (fun l => lineHasTaskId l (t_id exampleTask))
                 (split_lines exampleFile) = Some 2) by reflexivity.
  split; [exact H1|]. split; [exact H2|].
  eexists. split.
  - exact (proj1 (X13_delete_frame exampleWorld exampleDay exampleTask exampleFile 2 H1 H2)).
  - cbn [files setMetaDraftByTask emit setFiles filePath exampleDay].
    apply lookup_insert_eq.
Defined.

(** * Toggling a task *)

Lemma TOGGLE_RE_parts line m :
  match_ TOGGLE_RE line = Some m ->
  exists ws1 ws2 c ws3 body,
    line = ws1 ++ 45%N :: ws2 ++ 91%N :: c :: 93%N :: ws3 ++ body
    /\ allb isSpace ws1 = true /\ allb isSpace ws2 = true /\ isMark c = true
    /\ allb isSpace ws3 = true /\ ws3 <> [] /\ allb dot body = true
    /\ group 1 (groups m) = ws1 ++ 45%N :: ws2 ++ [91%N]
    /\ group 2 (groups m) = [c]
    /\ group 3 (groups m) = 93%N :: ws3 ++ body.
Proof.
  intros H. apply search_Some in H as (p & -> & Hi & HM & _).
  destruct m as [ix mt af gs]. simpl in *.
  unfold TOGGLE_RE, SP, star, plus in HM. norm_str_in HM. cbn [cat] in HM.
  inv_M.
  match goal with H : 0 = length _ |- _ => apply length_zero_nil in H; subst end.
  match goal with
  | |- context [[(3, [93%N] ++ ?w3 ++ ?b); (2, [?c]); (1, ?w1 ++ [45%N] ++ ?w2 ++ [91%N])]] =>
      exists w1, w2, c, w3, b
  end.
  cbn [group Nat.eqb app]. rewrite !app_nil_r, <- !app_assoc. cbn [app].
  rewrite <- !app_assoc. cbn [app].
  repeat split; try done.
  match goal with H : 1 <= length ?v |- ?v <> [] => by destruct v; simpl in H; [lia|] end.
Qed.

(** A checkbox line read again with the whitespace after the mark taken
    as far as it goes. *)
Lemma checkbox_resplit ws3 body :
  allb isSpace ws3 = true -> ws3 <> [] -> allb dot body = true ->
  exists ws3' body',
    ws3 ++ body = ws3' ++ body' /\ allb isSpace ws3' = true /\ ws3' <> []
    /\ allb dot body' = true /\ startsNonSpace body'.
Proof.
  intros H3 Hne Hb. destruct (span_spec isSpace body) as (a & b & -> & Ha & Hs).
  exists (ws3 ++ a), b. split; [by rewrite app_assoc|].
  split; [by rewrite allb_app, H3, Ha|]. split; [by destruct ws3|].
  split; [|by destruct b].
  rewrite allb_app in Hb. by apply andb_true_iff in Hb as [_ ->].
Qed.

Lemma TASK_RE_groups ws1 ws2 c ws3 body :
  allb isSpace ws1 = true -> allb isSpace ws2 = true -> isMark c = true ->
  allb isSpace ws3 = true -> ws3 <> [] -> allb dot body = true ->
  exists body' m,
    match_ TASK_RE (ws1 ++ 45%N :: ws2 ++ 91%N :: c :: 93%N :: ws3 ++ body) = Some m
    /\ groups m = [(2, body'); (1, [c])]
    /\ forall c', isMark c' = true ->
         exists m', match_ TASK_RE (ws1 ++ 45%N :: ws2 ++ 91%N :: c' :: 93%N :: ws3 ++ body)
                    = Some m'
           /\ groups m' = [(2, body'); (1, [c'])].
Proof.
  intros H1 H2 Hc H3 Hne Hb.
  destruct (checkbox_resplit ws3 body H3 Hne Hb) as (ws3' & body' & -> & H3' & Hne' & Hb' & Hs).
  exists body'.
  destruct (TASK_RE_forward ws1 ws2 c ws3' body' H1 H2 Hc H3' Hne' Hb' Hs) as [whole Hm].
  eexists. split; [exact Hm|]. split; [done|]. intros c' Hc'.
  destruct (TASK_RE_forward ws1 ws2 c' ws3' body' H1 H2 Hc' H3' Hne' Hb' Hs) as [whole' Hm'].
  eexists. split; [exact Hm'|done].
Qed.

Lemma parseLine_mark rnd pos i line m c body :
  match_ TASK_RE line = Some m -> groups m = [(2, body); (1, [c])] ->
  exists t, fst (parseLine rnd pos i line) = Some t
    /\ t_done t = streq (toLowerCase [c]) (str "x")
    /\ forall line' m' c',
         match_ TASK_RE line' = Some m' -> groups m' = [(2, body); (1, [c'])] ->
         parseLine rnd pos i line'
         = (Some {| t_id := t_id t; t_lineIndex := t_lineIndex t; t_text := t_text t;
                    t_done := streq (toLowerCase [c']) (str "x");
                    t_hasId := t_hasId t; t_estMin := t_estMin t;
                    t_actMin := t_actMin t; t_reason := t_reason t |},
            snd (parseLine rnd pos i line)).
Proof.
  intros Hm Hg. unfold parseLine at 1 2. rewrite Hm, Hg. cbn [group Nat.eqb].
  set (rest := trim body).
  destruct (parseMeta rest) as [pm dt] eqn:Epm.
  destruct (match extractTaskId rest with Some id => (id, pos) | None => genTaskId rnd pos end)
    as [id pos'] eqn:Eid.
  eexists. split; [reflexivity|]. cbn [t_done]. split; [done|].
  intros line' m' c' Hm' Hg'. unfold parseLine. rewrite Hm', Hg', Hm, Hg.
  cbn [group Nat.eqb]. fold rest. rewrite Epm, Eid. reflexivity.
Qed.



(** * Loading a day, loading a week *)

Lemma dayYmd_frame w w' i : anchor w' = anchor w -> dayYmd w' i = dayYmd w i.
Proof. unfold dayYmd, weekStart. by intros ->. Qed.

Lemma dayPath_frame w w' i :
  anchor w' = anchor w -> todoDir w' = todoDir w -> dayPath w' i = dayPath w i.
Proof. intros Ha Ht. unfold dayPath. by rewrite Ht, (dayYmd_frame _ _ _ Ha). Qed.

Lemma dayPath_inj w i j : dayPath w i = dayPath w j -> dayYmd w i = dayYmd w j.
Proof.
  unfold dayPath. rewrite !(app_assoc (todoDir w)), !(app_assoc _ _ (str ".md")).
  intros E. apply app_inv_tail in E. by apply app_inv_head in E.
Qed.

Opaque toYMD hashString addDays weekStart.

Lemma loadDay_spec i w :
  let y := dayYmd w i in
  let p := dayPath w i in
  exists d w',
    loadDay i w = (Ok d, w')
    /\ ymd d = y /\ filePath d = p
    /\ anchor w' = anchor w /\ todoDir w' = todoDir w /\ isEditing w' = isEditing w
    /\ rnd w' = rnd w
    /\ match files w !! p with
       | None =>
           missing d = true /\ files w' = files w /\ lastHashes w' = lastHashes w
           /\ trace w' = trace w ++ [EvExists p]
       | Some md =>
           missing d = false
           /\ exists lines1 pos1,
               migrationPass (rnd w) (rndPos w) md
               = (lines1, existsb lacksCanonicalId (split_lines md), pos1)
               /\ if existsb lacksCanonicalId (split_lines md)
                  then files w' = <[p := join_lines lines1]> (files w)
                       /\ lastHashes w'
                          = <[y := hashString (join_lines lines1)]> (lastHashes w)
                       /\ trace w' = trace w ++ [EvExists p; EvRead p;
                                                 EvWrite p (join_lines lines1)]
                  else files w' = files w
                       /\ lastHashes w' = <[y := hashString md]> (lastHashes w)
                       /\ trace w' = trace w ++ [EvExists p; EvRead p]
       end.
Proof.
  intros y p. subst y p. unfold dayPath, dayYmd, loadDay.
  set (y := toYMD (addDays (weekStart w) i)).
  set (p := todoDir w ++ str "/" ++ y ++ str ".md").
  unfold bind, exists_, readTextFile, act, ret, writeTextFile, parseTasksM.
  cbn [files emit]. destruct (files w !! p) as [md|] eqn:Hf.
  - rewrite bool_decide_eq_true_2 by (by eexists). cbn [negb].
    cbn [files emit setLastHashes rnd rndPos]. rewrite Hf.
    cbn [files emit setLastHashes rnd rndPos].
    destruct (migrationPass_spec (rnd w) (rndPos w) md) as (lines1 & pos1 & E & _).
    pose proof E as E0. unfold migrationPass in E.
    destruct (parseTasks (rnd w) (rndPos w) md) as [ts pos'].
    destruct (migrate (split_lines md) ts) as [lines changed].
    injection E as -> -> ->.
    destruct (existsb lacksCanonicalId (split_lines md)) eqn:Ech.
    + cbn [files emit setLastHashes setFiles setRndPos rnd rndPos lastHashes trace].
      destruct (parseTasks (rnd w) pos1 (join_lines lines1)) as [ts2 pos2].
      eexists _, _. split; [reflexivity|].
      cbn [ymd filePath missing anchor todoDir isEditing rnd files lastHashes trace
           emit setLastHashes setFiles setRndPos].
      repeat (split; [done|]). exists lines1, pos1. split; [done|].
      split; [done|]. split; [by rewrite insert_insert_eq|].
      by rewrite <- !app_assoc.
    + eexists _, _. split; [reflexivity|].
      cbn [ymd filePath missing anchor todoDir isEditing rnd files lastHashes trace
           emit setLastHashes setFiles setRndPos].
      repeat (split; [done|]). exists lines1, pos1. split; [done|].
      split; [done|]. split; [done|]. by rewrite <- !app_assoc.
  - rewrite bool_decide_eq_false_2 by (by intros [? ?]). cbn [negb].
    eexists _, _. split; [reflexivity|].
    cbn [ymd filePath missing anchor todoDir isEditing rnd files lastHashes trace emit].
    repeat (split; [done|]). done.
Qed.

Lemma settledText_join lines :
  lines <> [] -> Forall noLF lines -> Forall settled lines ->
  settledText (join_lines lines).
Proof.
  intros Hne Hlf Hs. unfold settledText. rewrite split_join by done.
  clear Hne Hlf. induction Hs as [|l ls Hl _ IH]; [done|].
  cbn [existsb]. by rewrite Hl, IH.
Qed.

(** What [loadDay] does to the world. *)
Lemma loadDay_effect i w :
  let y := dayYmd w i in
  let p := dayPath w i in
  exists d w',
    loadDay i w = (Ok d, w')
    /\ ymd d = y /\ filePath d = p
    /\ anchor w' = anchor w /\ todoDir w' = todoDir w /\ isEditing w' = isEditing w
    /\ (forall q, q <> p -> files w' !! q = files w !! q)
    /\ (forall z, z <> y -> lastHashes w' !! z = lastHashes w !! z)
    /\ (files w !! p = None ->
        missing d = true /\ files w' = files w /\ lastHashes w' = lastHashes w
        /\ trace w' = trace w ++ [EvExists p])
    /\ (forall md, files w !! p = Some md ->
        missing d = false
        /\ exists md' evs,
            files w' !! p = Some md' /\ settledText md'
            /\ lastHashes w' !! y = Some (hashString md')
            /\ trace w' = trace w ++ evs
            /\ (settledText md ->
                md' = md /\ files w' = files w /\ evs = [EvExists p; EvRead p])).
Proof.
  intros y p.
  destruct (loadDay_spec i w) as (d & w' & E & Hy & Hp & Ha & Ht & He & _ & Hcase).
  fold y p in Hy, Hp, Hcase.
  exists d, w'. split; [done|]. do 5 (split; [done|]).
  destruct (files w !! p) as [md|] eqn:Hf.
  - destruct Hcase as (Hm & lines1 & pos1 & Emig & Hch).
    destruct (migrationPass_spec (rnd w) (rndPos w) md)
      as (lines1' & pos1' & Emig' & HF & Hne & Hlf & Hs).
    rewrite Emig in Emig'. injection Emig' as <- <-.
    destruct (existsb lacksCanonicalId (split_lines md)) eqn:Ech.
    + destruct Hch as (Hfiles & Hhash & Htr).
      split; [intros q Hq; by rewrite Hfiles, lookup_insert_ne|].
      split; [intros z Hz; by rewrite Hhash, lookup_insert_ne|].
      split; [done|]. intros md0 [= <-]. split; [done|].
      exists (join_lines lines1), [EvExists p; EvRead p; EvWrite p (join_lines lines1)].
      split; [by rewrite Hfiles, lookup_insert_eq|].
      split; [by apply settledText_join|].
      split; [by rewrite Hhash, lookup_insert_eq|]. split; [done|].
      unfold settledText. by rewrite Ech.
    + destruct Hch as (Hfiles & Hhash & Htr).
      split; [intros q Hq; by rewrite Hfiles|].
      split; [intros z Hz; by rewrite Hhash, lookup_insert_ne|].
      split; [done|]. intros md0 [= <-]. split; [done|].
      exists md, [EvExists p; EvRead p].
      split; [by rewrite Hfiles|]. split; [done|].
      split; [by rewrite Hhash, lookup_insert_eq|]. done.
  - destruct Hcase as (Hm & Hfiles & Hhash & Htr).
    split; [intros q Hq; by rewrite Hfiles|].
    split; [intros z Hz; by rewrite Hhash|].
    split; [done|]. done.
Qed.

Lemma writesOf_app tr evs : writesOf (tr ++ evs) = writesOf tr ++ writesOf evs.
Proof. unfold writesOf. by rewrite filter_app. Qed.

Lemma loadDay_invariants i w d w' :
  loadDay i w = (Ok d, w') ->
  ymd d = dayYmd w i /\ filePath d = dayPath w i
  /\ anchor w' = anchor w /\ todoDir w' = todoDir w /\ isEditing w' = isEditing w
  /\ (forall q, settledAt w q -> settledAt w' q)
  /\ settledAt w' (dayPath w i)
  /\ (forall j, hashedAt w (dayPath w j) (dayYmd w j) ->
                hashedAt w' (dayPath w j) (dayYmd w j))
  /\ hashedAt w' (dayPath w i) (dayYmd w i)
  /\ (forall q, is_Some (files w !! q) -> is_Some (files w' !! q))
  /\ (missing d = false -> is_Some (files w' !! filePath d))
  /\ (settledAt w (dayPath w i) ->
      files w' = files w /\ writesOf (trace w') = writesOf (trace w)).
Proof.
  intros E.
  destruct (loadDay_effect i w)
    as (d0 & w0 & E0 & Hy & Hp & Ha & Ht & He & Hfo & Hho & Hnone & Hsome).
  rewrite E in E0. injection E0 as <- <-.
  set (p := dayPath w i) in *. set (y := dayYmd w i) in *.
  do 5 (split; [done|]).
  assert (Hown : forall md', files w' !! p = Some md' ->
                  settledText md' /\ lastHashes w' !! y = Some (hashString md')).
  { intros md' Hf'. destruct (files w !! p) as [md|] eqn:Hf.
    - destruct (Hsome md eq_refl) as (_ & md1 & evs & Hf1 & Hs1 & Hh1 & _).
      rewrite Hf' in Hf1. injection Hf1 as ->. done.
    - destruct (Hnone eq_refl) as (_ & Hfiles & _). by rewrite Hfiles, Hf in Hf'. }
  split.
  { intros q Hq md' Hf'. destruct (decide (q = p)) as [->|Hne].
    - by apply Hown.
    - rewrite Hfo in Hf' by done. by apply Hq. }
  split; [intros md' Hf'; by apply Hown|].
  split.
  { intros j Hj md' Hf'. destruct (decide (dayPath w j = p)) as [Ep|Hne].
    - rewrite Ep in Hf'. rewrite (dayPath_inj _ _ _ Ep). by apply Hown.
    - rewrite Hfo in Hf' by done. rewrite Hho; [by apply Hj|].
      intros Ey. apply Hne. unfold p, dayPath. by rewrite Ey. }
  split; [intros md' Hf'; by apply Hown|].
  assert (Hkeep : forall q, is_Some (files w !! q) -> is_Some (files w' !! q)).
  { intros q [md Hq]. destruct (decide (q = p)) as [->|Hne].
    - destruct (Hsome md Hq) as (_ & md1 & evs & Hf1 & _). by eexists.
    - rewrite Hfo by done. by eexists. }
  split; [done|].
  split.
  { intros Hm. rewrite Hp. destruct (files w !! p) as [md|] eqn:Hf.
    - apply Hkeep. by eexists.
    - destruct (Hnone eq_refl) as (Hm' & _). congruence. }
  intros Hs. destruct (files w !! p) as [md|] eqn:Hf.
  - destruct (Hsome md eq_refl) as (_ & md1 & evs & Hf1 & Hs1 & Hh1 & Htr & Hq).
    destruct (Hq (Hs md Hf)) as (-> & Hfiles & ->).
    split; [done|]. rewrite Htr, writesOf_app. cbn. by rewrite app_nil_r.
  - destruct (Hnone eq_refl) as (_ & Hfiles & _ & Htr).
    split; [done|]. rewrite Htr, writesOf_app. cbn. by rewrite app_nil_r.
Qed.

Lemma loadDay_total i w : exists d w', loadDay i w = (Ok d, w').
Proof. destruct (loadDay_effect i w) as (d & w' & E & _). by exists d, w'. Qed.

Lemma settledAt_frame w w' q : files w' = files w -> settledAt w q -> settledAt w' q.
Proof. unfold settledAt. by intros ->. Qed.

Lemma loadDays_invariants ixs : forall w,
  exists ds w',
    loadDays ixs w = (Ok ds, w')
    /\ anchor w' = anchor w /\ todoDir w' = todoDir w /\ isEditing w' = isEditing w
    /\ (forall q, settledAt w q -> settledAt w' q)
    /\ (forall i, i ∈ ixs -> settledAt w' (dayPath w i))
    /\ (forall j, hashedAt w (dayPath w j) (dayYmd w j) ->
                  hashedAt w' (dayPath w j) (dayYmd w j))
    /\ (forall i, i ∈ ixs -> hashedAt w' (dayPath w i) (dayYmd w i))
    /\ (forall q, is_Some (files w !! q) -> is_Some (files w' !! q))
    /\ Forall (dayOf w w' ixs) ds
    /\ ((forall i, i ∈ ixs -> settledAt w (dayPath w i)) ->
        files w' = files w /\ writesOf (trace w') = writesOf (trace w)).
Proof.
  induction ixs as [|i ixs IH]; intros w.
  - exists [], w. cbn [loadDays]. unfold ret. split; [done|].
    do 3 (split; [done|]). split; [done|].
    split; [by intros i Hi; apply elem_of_nil in Hi|]. split; [done|].
    split; [by intros i Hi; apply elem_of_nil in Hi|]. done.
  - destruct (loadDay_total i w) as (d & w1 & E1).
    destruct (loadDay_invariants i w d w1 E1)
      as (Hy & Hp & Ha & Ht & He & Hs1 & Hown & Hh1 & Hhown & Hk1 & Hm1 & Hq1).
    destruct (IH w1)
      as (ds & w2 & E2 & Ha2 & Ht2 & He2 & Hs2 & Hown2 & Hh2 & Hhown2 & Hk2 & Hds & Hq2).
    assert (Hpath : forall j, dayPath w1 j = dayPath w j)
      by (intros j; by apply dayPath_frame).
    assert (Hymd : forall j, dayYmd w1 j = dayYmd w j)
      by (intros j; by apply dayYmd_frame).
    exists (d :: ds), w2. cbn [loadDays]. unfold bind, ret. rewrite E1, E2.
    split; [done|]. split; [congruence|]. split; [congruence|]. split; [congruence|].
    split; [intros q Hq; by apply Hs2, Hs1|].
    split.
    { intros j Hj. apply elem_of_cons in Hj as [->|Hj].
      - by apply Hs2.
      - rewrite <- Hpath. by apply Hown2. }
    split.
    { intros j Hj. specialize (Hh2 j). rewrite Hpath, Hymd in Hh2. by apply Hh2, Hh1. }
    split.
    { intros j Hj. apply elem_of_cons in Hj as [->|Hj].
      - specialize (Hh2 i). rewrite Hpath, Hymd in Hh2. by apply Hh2.
      - rewrite <- Hpath, <- Hymd. by apply Hhown2. }
    split; [intros q Hq; by apply Hk2, Hk1|].
    split.
    { constructor.
      - exists i. split; [by left|]. split; [done|]. split; [done|].
        intros Hm. by apply Hk2, Hm1.
      - eapply Forall_impl; [exact Hds|]. intros d' (j & Hj & Hy' & Hp' & Hm').
        exists j. split; [by right|]. by rewrite <- Hymd, <- Hpath. }
    intros Hall. destruct (Hq1 (Hall i ltac:(by left))) as [Hf1 Hw1].
    destruct Hq2 as [Hf2 Hw2].
    { intros j Hj. rewrite Hpath. apply (settledAt_frame w); [done|].
      apply Hall. by right. }
    split; congruence.
Qed.

Lemma loadWeek_invariants w :
  let w' := snd (loadWeek w) in
  anchor w' = anchor w /\ todoDir w' = todoDir w /\ isEditing w' = isEditing w
  /\ busy w' = false
  /\ (forall q, settledAt w q -> settledAt w' q)
  /\ (nonEmpty (todoDir w) = true -> forall i, i ∈ week -> settledAt w' (dayPath w i))
  /\ Forall (inStep w') (days w')
  /\ ((nonEmpty (todoDir w) = true -> forall i, i ∈ week -> settledAt w (dayPath w i)) ->
      files w' = files w /\ writesOf (trace w') = writesOf (trace w)).
Proof.
  rewrite loadWeek_unfold. cbv zeta.
  set (w1 := setError None (setBusy true (emit EvLoadWeek w))).
  assert (Hpath : forall j, dayPath w1 j = dayPath w j) by (intros j; by apply dayPath_frame).
  assert (Hymd : forall j, dayYmd w1 j = dayYmd w j) by (intros j; by apply dayYmd_frame).
  assert (Htr : writesOf (trace w1) = writesOf (trace w)).
  { subst w1. cbn [trace setError setBusy emit]. rewrite writesOf_app. cbn.
    by rewrite app_nil_r. }
  destruct (nonEmpty (todoDir w)) eqn:Hdir.
  - destruct (loadDays_invariants [0; 1; 2; 3; 4; 5; 6]%Z w1)
      as (ds & w2 & E & Ha & Ht & He & Hs & Hown & _ & Hhown & _ & Hds & Hq).
    rewrite E. cbn [snd]. unfold settledAt, inStep, hashedAt in *.
    cbn [anchor todoDir isEditing busy files lastHashes days trace
         setBusy setMetaDraftByTask setDays].
    split; [done|]. split; [done|]. split; [done|]. split; [done|].
    split; [intros q Hq'; by apply Hs|].
    split; [intros _ i Hi; rewrite <- Hpath; by apply Hown|].
    split.
    { eapply Forall_impl; [exact Hds|]. intros d (i & Hi & Hy & Hp & Hm) Hmiss.
      split; [by apply Hm|]. rewrite Hy, Hp. by apply Hhown. }
    intros Hall. destruct Hq as [Hf Hw].
    { intros i Hi. rewrite Hpath. by apply (Hall eq_refl). }
    split; [done|]. by rewrite Hw.
  - cbn [snd]. unfold settledAt, inStep in *.
    cbn [anchor todoDir isEditing busy files lastHashes days trace
         setBusy setMetaDraftByTask setDays].
    repeat split; done.
Qed.

(** X15.  Loading is stable: after one load of the week, a second load
    writes no file and changes none.  After the first load, every file of
    the week holds only lines that the migration leaves as they are. *)
Theorem X15_second_load_writes_nothing w :
  let w1 := snd (loadWeek w) in
  let w2 := snd (loadWeek w1) in
  files w2 = files w1
  /\ writesOf (trace w2) = writesOf (trace w1)
  /\ (nonEmpty (todoDir w) = true -> forall i, i ∈ week -> settledAt w1 (dayPath w i)).
Proof.
  intros w1 w2.
  destruct (loadWeek_invariants w) as (Ha & Ht & _ & _ & _ & Hown & _ & _).
  fold w1 in Ha, Ht, Hown.
  destruct (loadWeek_invariants w1) as (_ & _ & _ & _ & _ & _ & _ & Hq).
  fold w2 in Hq.
  assert (Hpath : forall j, dayPath w1 j = dayPath w j) by (intros j; by apply dayPath_frame).
  destruct Hq as [Hf Hw].
  { rewrite Ht. intros Hdir i Hi. rewrite Hpath. by apply Hown. }
  done.
Qed.

Lemma streq_refl s : streq s s = true.
Proof. induction s as [|c s IH]; [done|]. cbn [streq]. by rewrite N.eqb_refl. Qed.

Lemma inStep_unchanged w d : inStep w d -> dayChanged w d = false.
Proof.
  intros H. unfold dayChanged. destruct (missing d) eqn:Hm; [done|].
  destruct (H Hm) as [[md Hf] Hh]. rewrite Hf, (Hh md Hf).
  by rewrite streq_refl, andb_false_r.
Qed.

(** X16.  After a load, the poll tick finds nothing to do: the file of
    every day of the view is there, the hash recorded for it is the hash of
    that file (also when the load itself rewrote the file), and a tick
    that is not held back by an edit reads the files and reloads
    nothing. *)
Theorem X16_poll_after_load w :
  let w1 := snd (loadWeek w) in
  readable w1
  /\ Forall (fun d => dayChanged w1 d = false) (days w1)
  /\ (isEditing w = false ->
      watcherTick w1 = (Ok tt, reads (days w1) w1)
      /\ reloadCount (trace (snd (watcherTick w1))) = reloadCount (trace w1)).
Proof.
  intros w1.
  destruct (loadWeek_invariants w) as (_ & _ & He & Hb & _ & _ & Hds & _).
  fold w1 in He, Hb, Hds.
  assert (Hread : readable w1).
  { intros d Hd Hm. rewrite Forall_forall in Hds. by destruct (Hds d Hd Hm). }
  assert (Hquiet : Forall (fun d => dayChanged w1 d = false) (days w1)).
  { eapply Forall_impl; [exact Hds|]. intros d. apply inStep_unchanged. }
  split; [done|]. split; [done|]. intros Hedit.
  assert (E : watcherTick w1 = (Ok tt, reads (days w1) w1)).
  { unfold watcherTick. rewrite Hb, He, Hedit. cbn [orb]. unfold tryCatchFinally.
    by rewrite watchDays_unchanged. }
  split; [done|]. rewrite E. cbn [snd].
  by destruct (reads_frame (days w1) w1) as (_ & _ & ->).
Qed.

(** ** What a load keeps *)

Lemma loadDay_drafts i w :
  newTaskByDay (snd (loadDay i w)) = newTaskByDay w.
Proof.
  unfold loadDay.
  set (y := toYMD (addDays (weekStart w) i)).
  set (p := todoDir w ++ str "/" ++ y ++ str ".md").
  unfold bind, exists_, readTextFile, act, ret, writeTextFile, parseTasksM.
  cbn [files emit]. destruct (files w !! p) as [md|] eqn:Hf.
  - rewrite bool_decide_eq_true_2 by (by eexists). cbn [negb].
    cbn [files emit setLastHashes rnd rndPos]. rewrite Hf.
    cbn [files emit setLastHashes rnd rndPos].
    destruct (parseTasks (rnd w) (rndPos w) md) as [ts pos'].
    destruct (migrate (split_lines md) ts) as [lines changed].
    destruct changed.
    + cbn [files emit setLastHashes setFiles setRndPos rnd rndPos lastHashes trace].
      by destruct (parseTasks (rnd w) pos' (join_lines lines)) as [ts2 pos2].
    + done.
  - by rewrite bool_decide_eq_false_2 by (by intros [? ?]).
Qed.

Lemma loadDays_drafts ixs : forall w,
  newTaskByDay (snd (loadDays ixs w)) = newTaskByDay w.
Proof.
  induction ixs as [|i ixs IH]; intros w; [done|].
  cbn [loadDays]. unfold bind, ret.
  destruct (loadDay_total i w) as (d & w1 & E1). rewrite E1.
  pose proof (loadDay_drafts i w) as H1. rewrite E1 in H1. cbn [snd] in H1.
  specialize (IH w1). destruct (loadDays ixs w1) as [[ds|e] w2]; cbn [snd] in *; congruence.
Qed.

Lemma loadWeek_drafts w : newTaskByDay (snd (loadWeek w)) = newTaskByDay w.
Proof.
  rewrite loadWeek_unfold. cbv zeta.
  set (w1 := setError None (setBusy true (emit EvLoadWeek w))).
  destruct (nonEmpty (todoDir w)); [|done].
  pose proof (loadDays_drafts [0; 1; 2; 3; 4; 5; 6]%Z w1) as H.
  by destruct (loadDays [0; 1; 2; 3; 4; 5; 6]%Z w1) as [[ds|e] w2].
Qed.

Lemma loadDay_keeps i w q md :
  files w !! q = Some md -> settledText md ->
  files (snd (loadDay i w)) !! q = Some md.
Proof.
  intros Hq Hs.
  destruct (loadDay_effect i w) as (d & w' & E & _ & _ & _ & _ & _ & Hfo & _ & _ & Hsome).
  rewrite E. cbn [snd]. destruct (decide (q = dayPath w i)) as [->|Hne].
  - destruct (Hsome md Hq) as (_ & md' & evs & Hf' & _ & _ & _ & Hk).
    destruct (Hk Hs) as (-> & _). done.
  - by rewrite Hfo.
Qed.

Lemma loadDays_keeps ixs : forall w q md,
  files w !! q = Some md -> settledText md ->
  files (snd (loadDays ixs w)) !! q = Some md.
Proof.
  induction ixs as [|i ixs IH]; intros w q md Hq Hs; [done|].
  cbn [loadDays]. unfold bind, ret.
  destruct (loadDay_total i w) as (d & w1 & E1). rewrite E1.
  pose proof (loadDay_keeps i w q md Hq Hs) as H1. rewrite E1 in H1. cbn [snd] in H1.
  specialize (IH w1 q md H1 Hs).
  by destruct (loadDays ixs w1) as [[ds|e] w2].
Qed.

Lemma loadWeek_keeps w q md :
  files w !! q = Some md -> settledText md ->
  files (snd (loadWeek w)) !! q = Some md.
Proof.
  intros Hq Hs. rewrite loadWeek_unfold. cbv zeta.
  set (w1 := setError None (setBusy true (emit EvLoadWeek w))).
  destruct (nonEmpty (todoDir w)); [|done].
  pose proof (loadDays_keeps [0; 1; 2; 3; 4; 5; 6]%Z w1 q md Hq Hs) as H.
  by destruct (loadDays [0; 1; 2; 3; 4; 5; 6]%Z w1) as [[ds|e] w2].
Qed.

(** X17.  A load changes no file that holds only lines which the
    migration leaves as they are, in particular no file without checkbox
    line; so the file that [createEmptyDayFile] writes is still the
    template after the reload that follows the write, and it holds no
    task. *)
Theorem X17_settled_files_are_kept w :
  (forall q md, files w !! q = Some md -> settledText md ->
                files (snd (loadWeek w)) !! q = Some md)
  /\ (forall day,
        files (snd (createEmptyDayFile day w)) !! filePath day = Some TEMPLATE)
  /\ (forall rnd pos, parseTasks rnd pos TEMPLATE = ([], pos)).
Proof.
  split; [apply loadWeek_keeps|]. split; [|done].
  intros day. unfold createEmptyDayFile, bind, writeTextFile.
  apply loadWeek_keeps; [|done].
  cbn [files emit setFiles]. apply lookup_insert_eq.
Qed.

(** * The draft of a new task *)

Lemma addTask_run day w :
  nonEmpty (trim (getDraft w (ymd day))) = true ->
  exists w2,
    addTask day w = (Ok tt, setBusy false (snd (loadWeek w2)))
    /\ newTaskByDay w2 = <[ymd day := []]> (newTaskByDay w).
Proof.
  intros Htext. unfold addTask. rewrite Htext. cbn [negb].
  unfold tryCatchFinally, bind, act, exists_, readTextFile, writeTextFile,
    genTaskIdM, setDraft, ret.
  cbn [files emit setBusy setError].
  destruct (genTaskId (rnd w) (rndPos w)) as [id pos] eqn:G.
  destruct (files w !! filePath day) as [md|] eqn:Hf.
  - rewrite bool_decide_eq_true_2 by (by eexists). cbn [negb].
    cbn [files emit setBusy setError]. rewrite Hf.
    cbn [rnd rndPos emit setBusy setError]. rewrite G. unfold act. cbn beta iota.
    rewrite (loadWeek_eta (setNewTaskByDay _ _)).
    eexists. split; [reflexivity|]. done.
  - rewrite bool_decide_eq_false_2 by (by intros [? ?]). cbn [negb].
    cbn [files emit setBusy setError setFiles]. rewrite lookup_insert_eq.
    cbn [rnd rndPos emit setBusy setError setFiles]. rewrite G. unfold act. cbn beta iota.
    rewrite (loadWeek_eta (setNewTaskByDay _ _)).
    eexists. split; [reflexivity|]. done.
Qed.

(** X18.  [addTask] and the draft of the day: a draft that is empty once
    trimmed is ignored, and the world stays as it is (no file is created,
    nothing is read); any other draft is used up, so that the input of the
    day is empty afterwards, and the drafts of the other days stay. *)
Theorem X18_add_task_uses_the_draft day w :
  (trim (getDraft w (ymd day)) = [] -> addTask day w = (Ok tt, w))
  /\ (trim (getDraft w (ymd day)) <> [] ->
      getDraft (snd (addTask day w)) (ymd day) = []
      /\ forall y, y <> ymd day ->
           getDraft (snd (addTask day w)) y = getDraft w y).
Proof.
  split.
  - intros E. unfold addTask. by rewrite E.
  - intros Hne.
    destruct (addTask_run day w) as (w2 & -> & Hd);
      [by destruct (trim (getDraft w (ymd day)))|].
    unfold getDraft. cbn [snd newTaskByDay setBusy].
    rewrite loadWeek_drafts, Hd. split.
    + by rewrite lookup_insert_eq.
    + intros y Hy. by rewrite lookup_insert_ne.
Qed.

(** * The migration and the tasks *)

Lemma parseLine_done rnd pos i line m t pos' :
  match_ TASK_RE line = Some m -> parseLine rnd pos i line = (Some t, pos') ->
  t_done t = streq (toLowerCase (group 1 (groups m))) (str "x").
Proof.
  intros Hm. unfold parseLine. rewrite Hm.
  destruct (parseMeta _) as [pm dt].
  destruct (extractTaskId _); [|destruct (genTaskId rnd pos)]; by intros [= <- _].
Qed.

(** The line that the migration writes for a task reads as that task:
    the same identifier, done flag and line, now flagged as carrying the
    identifier, and without use of the random source. *)
Lemma ensured_line_parses rnd pos i line m t pos' pos2 :
  match_ TASK_RE line = Some m -> parseLine rnd pos i line = (Some t, pos') ->
  exists t',
    parseLine rnd pos2 i (ensureTaskIdOnLine line (t_id t)) = (Some t', pos2)
    /\ taskKey t' = taskKey t /\ t_hasId t' = true.
Proof.
  intros Hm E.
  pose proof (parseLine_done _ _ _ _ _ _ _ Hm E) as Hd.
  destruct (parseLine_task rnd pos i line m Hm) as (t0 & p0 & E0 & Hi & _ & Hv & _).
  rewrite E in E0. injection E0 as <- <-.
  destruct (ensureTaskIdOnLine_task line (t_id t) m Hm Hv) as (m' & P & Hm' & G1 & G2 & Ht).
  destruct (TASK_ID_HTML_RE_at_end P (t_id t) Hv) as [tok Hex].
  unfold parseLine. rewrite Hm', G1, G2, Ht.
  unfold extractTaskId, hasCanonicalTaskId, test. rewrite Hex.
  cbn [groups group Nat.eqb].
  destruct (parseMeta (P ++ taskIdToken (t_id t))) as [pm dt].
  eexists. split; [reflexivity|]. unfold taskKey. cbn [t_id t_done t_lineIndex t_hasId].
  by rewrite Hd, Hi.
Qed.

Lemma parseLine_kept rnd pos i line t pos' pos2 :
  parseLine rnd pos i line = (Some t, pos') -> t_hasId t = true ->
  parseLine rnd pos2 i line = (Some t, pos2).
Proof.
  unfold parseLine. destruct (match_ TASK_RE line) as [m|]; [|done].
  destruct (parseMeta _) as [pm dt].
  destruct (extractTaskId _) as [id|] eqn:Ex.
  - by intros [= <- _] _.
  - destruct (genTaskId rnd pos). intros [= <- _]. cbn [t_hasId]. intros Hh.
    apply hasCanonicalTaskId_extract in Hh as [id Hid]. congruence.
Qed.

Lemma migrate_tasks rnd lines : forall pos pre ch ts pos',
  parseLines rnd pos (length pre) lines = (ts, pos') ->
  exists lines' ch',
    fold_left migrateTask ts (pre ++ lines, ch) = (pre ++ lines', ch')
    /\ forall pos2, exists ts',
         parseLines rnd pos2 (length pre) lines' = (ts', pos2)
         /\ map taskKey ts' = map taskKey ts
         /\ Forall (fun t => t_hasId t = true) ts'.
Proof.
  induction lines as [|l lines IH]; intros pos pre ch ts pos' Hp.
  - injection Hp as <- <-. exists [], ch. split; [done|]. intros pos2. by exists [].
  - cbn [parseLines] in Hp.
    destruct (parseLine rnd pos (length pre) l) as [ot pos1] eqn:E1.
    destruct (parseLines rnd pos1 (S (length pre)) lines) as [ts1 pos2] eqn:E2.
    injection Hp as <- <-.
    destruct (match_ TASK_RE l) as [m|] eqn:Hm.
    + destruct (parseLine_task rnd pos (length pre) l m Hm)
        as (t & p1 & E & Hi & Hh & Hv & Hx).
      rewrite E in E1. injection E1 as <- <-. cbn [fold_left].
      unfold migrateTask at 2.
      destruct (t_hasId t) eqn:Hc.
      * replace (pre ++ l :: lines) with ((pre ++ [l]) ++ lines) by (by rewrite <- app_assoc).
        destruct (IH p1 (pre ++ [l]) ch ts1 pos2) as (lines' & ch' & EF & HP).
        { by rewrite length_app, Nat.add_1_r. }
        exists (l :: lines'), ch'. rewrite EF, <- app_assoc. split; [done|].
        intros q. destruct (HP q) as (ts' & Eq & Hk & Hall).
        rewrite length_app, Nat.add_1_r in Eq.
        exists (t :: ts'). cbn [parseLines].
        rewrite (parseLine_kept _ _ _ _ _ _ q E Hc), Eq.
        split; [done|]. split; [cbn [map]; by rewrite Hk|by constructor].
      * rewrite Hi, lookup_middle. change (default [] (Some l)) with l.
        rewrite (TASK_PREFIX_of_TASK l) by (by unfold test; rewrite Hm).
        rewrite insert_middle.
        replace (pre ++ ensureTaskIdOnLine l (t_id t) :: lines)
          with ((pre ++ [ensureTaskIdOnLine l (t_id t)]) ++ lines)
          by (by rewrite <- app_assoc).
        destruct (IH p1 (pre ++ [ensureTaskIdOnLine l (t_id t)]) true ts1 pos2)
          as (lines' & ch' & EF & HP).
        { by rewrite length_app, Nat.add_1_r. }
        exists (ensureTaskIdOnLine l (t_id t) :: lines'), ch'.
        rewrite EF, <- app_assoc. split; [done|].
        intros q. destruct (HP q) as (ts' & Eq & Hk & Hall).
        rewrite length_app, Nat.add_1_r in Eq.
        destruct (ensured_line_parses rnd pos (length pre) l m t p1 q Hm E)
          as (t' & Et' & Hk' & Hh').
        exists (t' :: ts'). cbn [parseLines]. rewrite Et', Eq.
        split; [done|]. split; [cbn [map]; by rewrite Hk, Hk'|by constructor].
    + rewrite (parseLine_no_task _ _ _ _ Hm) in E1. injection E1 as <- <-.
      replace (pre ++ l :: lines) with ((pre ++ [l]) ++ lines) by (by rewrite <- app_assoc).
      destruct (IH pos (pre ++ [l]) ch ts1 pos2) as (lines' & ch' & EF & HP).
      { by rewrite length_app, Nat.add_1_r. }
      exists (l :: lines'), ch'. rewrite EF, <- app_assoc. split; [done|].
      intros q. destruct (HP q) as (ts' & Eq & Hk & Hall).
      rewrite length_app, Nat.add_1_r in Eq.
      exists ts'. cbn [parseLines]. by rewrite (parseLine_no_task _ _ _ _ Hm), Eq.
Qed.

(** X19.  The migration changes no task: the text that the migration pass
    leaves reads as the same tasks as the text before it, in the same
    order, each with the same identifier, done flag and line index; all of
    them are flagged as carrying their identifier, and reading them uses
    no random byte. *)
Theorem X19_migration_keeps_the_tasks rnd pos md :
  exists lines1 changed pos1,
    migrationPass rnd pos md = (lines1, changed, pos1)
    /\ forall pos2,
         exists ts2,
           parseTasks rnd pos2 (join_lines lines1) = (ts2, pos2)
           /\ map taskKey ts2 = map taskKey (fst (parseTasks rnd pos md))
           /\ Forall (fun t => t_hasId t = true) ts2.
Proof.
  destruct (migrationPass_spec rnd pos md) as (lines1 & pos1 & E & _ & Hne & Hlf & _).
  exists lines1, (existsb lacksCanonicalId (split_lines md)), pos1. split; [done|].
  unfold migrationPass, parseTasks in *.
  destruct (parseLines rnd pos 0 (split_lines md)) as [ts p1] eqn:Ep.
  destruct (migrate_tasks rnd (split_lines md) pos [] false ts p1 Ep)
    as (lines' & ch' & EF & HP).
  cbn [app] in EF. unfold migrate in E. rewrite EF in E. injection E as -> _ _.
  intros pos2. rewrite split_join by done. cbn [fst]. apply HP.
Qed.

(** * Looking a task up by its identifier *)

(** A run of hexadecimal digits is fixed by the text it starts. *)
Lemma hex_run_unique a : forall b x s y s',
  allb isHex a = true -> allb isHex b = true ->
  isHex x = false -> isHex y = false ->
  a ++ x :: s = b ++ y :: s' -> a = b.
Proof.
  induction a as [|c a IH]; intros [|d b] x s y s' Ha Hb Hx Hy E; simpl in *.
  - done.
  - injection E as -> _. apply andb_true_iff in Hb as [Hb _]. congruence.
  - injection E as -> _. apply andb_true_iff in Ha as [Ha _]. congruence.
  - injection E as -> E. apply andb_true_iff in Ha as [_ Ha].
    apply andb_true_iff in Hb as [_ Hb]. f_equal. by apply (IH b x s y s').
Qed.

Lemma space_not_hex x : isSpace x = true -> isHex x = false.
Proof.
  unfold isSpace, isHex. intros H.
  rewrite !orb_true_iff, !andb_true_iff, !N.eqb_eq, !N.leb_le in H.
  apply not_true_iff_false.
  rewrite !orb_true_iff, !andb_true_iff, !N.leb_le. lia.
Qed.

Lemma not_hex_head ws tl :
  allb isSpace ws = true -> exists x s, ws ++ 45%N :: tl = x :: s /\ isHex x = false.
Proof.
  destruct ws as [|x ws]; intros H.
  - by exists 45%N, tl.
  - exists x, (ws ++ 45%N :: tl). split; [done|].
    simpl in H. apply andb_true_iff in H as [H _]. by apply space_not_hex.
Qed.

(** In a line that ends with the canonical token of [id'] and whose text
    holds no opener of a token, the patterns of [lineHasTaskId] find [id']
    and no other identifier. *)
Lemma lineHasTaskId_exact P id id' :
  validId id -> validId id' ->
  includes HTML_OPEN P = false -> includes LEGACY_OPEN P = false ->
  lineHasTaskId (P ++ taskIdToken id') id = true -> id = id'.
Proof.
  intros [_ Hh] [_ Hh'] HP HL H. unfold lineHasTaskId in H.
  apply orb_true_iff in H as [H|H]; apply test_true in H
    as (p & q & u & rest & c & E & HM).
  - unfold SP, star in HM. norm_str_in HM. cbn [cat] in HM. inv_M.
    unfold taskIdToken in E. norm_str_in E.
    repeat rewrite <- app_assoc in E. cbn [app] in E.
    assert (p = P) as ->.
    { symmetry in E. apply app_eq_app in E as [l [[E1 E2]|[E1 E2]]].
      - destruct l as [|a l]; [by rewrite app_nil_r in E1|].
        exfalso. simpl in E2. injection E2 as <- E2.
        match type of E2 with _ = l ++ ?r => assert (60%N ∈ l ++ r) as Hin
          by (apply elem_of_app; right; by left) end.
        rewrite <- E2 in Hin.
        repeat match goal with
        | H : 60%N ∈ _ :: _ |- _ => apply elem_of_cons in H as [H|H]; [done|]
        | H : 60%N ∈ _ ++ _ |- _ => apply elem_of_app in H as [H|H]
        | H : 60%N ∈ [] |- _ => by inversion H
        | H : 60%N ∈ ?l, H' : allb isHex ?l = true |- _ =>
            by apply (allb_not_in _ _ _ H') in H
        end.
      - destruct l as [|a l]; [by rewrite app_nil_r in E1|].
        exfalso. simpl in E2. injection E2 as <- E2.
        destruct l as [|a l]; [done|]. simpl in E2. injection E2 as <- E2.
        destruct l as [|a l]; [done|]. simpl in E2. injection E2 as <- E2.
        destruct l as [|a l]; [done|]. simpl in E2. injection E2 as <- E2.
        unfold HTML_OPEN in HP. norm_str_in HP.
        apply (includes_none _ _ p l HP). by rewrite E1. }
    apply app_inv_head in E. injection E as E.
    match goal with H : allb isSpace ?w = true |- _ =>
      match type of E with context [w ++ 116%N :: _] => rename H into Hw; rename w into ws end end.
    destruct ws as [|x ws]; [done|]. simpl in E. injection E as <- E.
    destruct ws as [|x ws]; cycle 1.
    { simpl in E. injection E as <- _. simpl in Hw. done. }
    simpl in E. injection E as E.
    match goal with H : allb isSpace ?w = true |- _ =>
      match type of E with context [w ++ 45%N :: _] => rename H into Hw'; rename w into ws' end end.
    destruct (not_hex_head ws' (45 :: 62 :: rest)%N Hw') as (x & tl & Ex & Hx).
    rewrite Ex in E.
    exact (hex_run_unique _ _ x tl 32%N [45; 45; 62]%N Hh Hh' Hx eq_refl (eq_sym E)).
  - exfalso. norm_str_in HM. cbn [cat] in HM. inv_M.
    unfold taskIdToken in E. norm_str_in E.
    repeat rewrite <- app_assoc in E. cbn [app] in E.
    match type of E with _ = p ++ 123%N :: 35%N :: 116%N :: 58%N :: ?r =>
      change (123 :: 35 :: 116 :: 58 :: r)%N with ([123; 35; 116; 58]%N ++ r) in E end.
    symmetry in E.
    destruct (occurrence_sep _ _ _ _ _ _ E) as [[q' E']|(p' & _ & E')].
    + intros Hin. repeat (apply elem_of_cons in Hin as [Hin|Hin]; [done|]). by inversion Hin.
    + unfold LEGACY_OPEN in HL. norm_str_in HL. exact (includes_none _ _ _ _ HL E').
    + match type of E' with _ = p' ++ ?r => assert (123%N ∈ p' ++ r) as Hin
        by (apply elem_of_app; right; by left) end.
      rewrite <- E' in Hin.
      repeat match goal with
      | H : 123%N ∈ _ :: _ |- _ => apply elem_of_cons in H as [H|H]; [done|]
      | H : 123%N ∈ _ ++ _ |- _ => apply elem_of_app in H as [H|H]
      | H : 123%N ∈ [] |- _ => by inversion H
      | H : 123%N ∈ ?l, H' : allb isHex ?l = true |- _ =>
          by apply (allb_not_in _ _ _ H') in H
      end.
Qed.

(** X20.  The lookup by identifier is exact on canonical lines: in a line
    that ends with the canonical token of [id'] and whose text holds no
    opener of a token, [lineHasTaskId] finds [id] exactly when [id] is
    [id'].  In particular an identifier that starts or ends another one
    is not found. *)
Theorem X20_lookup_is_exact P id id' :
  validId id -> validId id' ->
  includes HTML_OPEN P = false -> includes LEGACY_OPEN P = false ->
  (lineHasTaskId (P ++ taskIdToken id') id = true <-> id = id').
Proof.
  intros Hv Hv' HP HL. split.
  - by apply lineHasTaskId_exact.
  - intros ->. apply lineHasTaskId_token.
Qed.

Lemma X20_lookup_is_exact_witness :
  (lineHasTaskId (str "- [ ] a" ++ taskIdToken (str "abcdef12")) (str "abcdef") = true
   <-> str "abcdef" = str "abcdef12").
Proof.
  apply X20_lookup_is_exact.
  - split; [simpl; lia|reflexivity].
  - split; [simpl; lia|reflexivity].
  - reflexivity.
  - reflexivity.
Defined.

(** * Giving a line another identifier *)

Lemma stripTaskIdToken_no_legacy line :
  includes LEGACY_OPEN line = false ->
  stripTaskIdToken line = trim (replace STRIP_HTML_RE [] line)
  /\ includes LEGACY_OPEN (stripTaskIdToken line) = false.
Proof.
  intros HL.
  assert (includes LEGACY_OPEN (replace STRIP_HTML_RE [] line) = false) as HR.
  { destruct (replace_STRIP_HTML line) as [->|(a & W & E & -> & _)]; [done|].
    destruct (includes LEGACY_OPEN a) eqn:Ha; [|done].
    by rewrite E, (includes_app_l _ _ W Ha) in HL. }
  unfold stripTaskIdToken. rewrite (STRIP_LEGACY_none _ HR).
  split; [done|]. by apply includes_trim.
Qed.

(** X21.  On a line without opener of a legacy token, the token that
    [ensureTaskIdOnLine] appends is the only thing it adds: stripping it
    gives the stripped line again, and ensuring another identifier
    replaces the token instead of stacking a second one. *)
Theorem X21_identifier_is_replaced line id id' :
  validId id -> includes LEGACY_OPEN line = false ->
  stripTaskIdToken (ensureTaskIdOnLine line id) = stripTaskIdToken line
  /\ ensureTaskIdOnLine (ensureTaskIdOnLine line id) id' = ensureTaskIdOnLine line id'.
Proof.
  intros Hv HL.
  destruct (stripTaskIdToken_no_legacy line HL) as [EX HX].
  assert (stripTaskIdToken (ensureTaskIdOnLine line id) = stripTaskIdToken line) as E.
  { rewrite ensureTaskIdOnLine_shape. unfold stripTaskIdToken at 1.
    rewrite (STRIP_HTML_built _ id Hv).
    rewrite trimEnd_app_spaces by done.
    assert (clean (stripTaskIdToken line)) as Hc by apply trim_clean.
    rewrite (clean_trimEnd _ Hc), (STRIP_LEGACY_none _ HX). exact Hc. }
  split; [done|]. unfold ensureTaskIdOnLine at 1 3. by rewrite E.
Qed.

Lemma X21_identifier_is_replaced_witness :
  stripTaskIdToken (ensureTaskIdOnLine (str "- [ ] a <!-- tid:abcdef -->") (str "0123456789"))
    = stripTaskIdToken (str "- [ ] a <!-- tid:abcdef -->")
  /\ ensureTaskIdOnLine (ensureTaskIdOnLine (str "- [ ] a <!-- tid:abcdef -->") (str "0123456789"))
       (str "fedcba") = ensureTaskIdOnLine (str "- [ ] a <!-- tid:abcdef -->") (str "fedcba").
Proof.
  apply X21_identifier_is_replaced.
  - split; [simpl; lia|reflexivity].
  - reflexivity.
Defined.

(** * The drafts of the task fields *)

Lemma fold_drafts ts : forall (m : gmap jsstring TaskMetaDraft) id,
  fold_left (fun m t => <[t_id t := draftOfTask t]> m) ts m !! id
  = match lastWithId id ts with
    | Some t => Some (draftOfTask t)
    | None => m !! id
    end.
Proof.
  unfold lastWithId.
  induction ts as [|t ts IH] using rev_ind; intros m id; [done|].
  rewrite fold_left_app, filter_app. cbn [fold_left].
  destruct (decide (t_id t = id)) as [E|E].
  - rewrite (filter_cons_True (fun t => t_id t = id) t [] E), filter_nil, last_snoc.
    by rewrite E, lookup_insert_eq.
  - rewrite (filter_cons_False (fun t => t_id t = id) t [] E), filter_nil, app_nil_r.
    rewrite lookup_insert_ne by done. apply IH.
Qed.

Lemma nextMetaDrafts_concat ds : forall m : gmap jsstring TaskMetaDraft,
  fold_left
    (fun m day => fold_left (fun m t => <[t_id t := draftOfTask t]> m) (tasks day) m) ds m
  = fold_left (fun m t => <[t_id t := draftOfTask t]> m) (concat (map tasks ds)) m.
Proof.
  induction ds as [|d ds IH]; intros m; [done|].
  cbn [map concat fold_left]. by rewrite fold_left_app, IH.
Qed.

Lemma nextMetaDrafts_lookup ds id :
  nextMetaDrafts ds !! id = draftOfTask <$> lastWithId id (concat (map tasks ds)).
Proof.
  unfold nextMetaDrafts. rewrite nextMetaDrafts_concat, fold_drafts.
  by destruct (lastWithId _ _).
Qed.

Lemma loadWeek_metaDrafts w :
  metaDraftByTask (snd (loadWeek w)) = nextMetaDrafts (days (snd (loadWeek w))).
Proof.
  rewrite loadWeek_unfold. cbv zeta.
  set (w1 := setError None (setBusy true (emit EvLoadWeek w))).
  destruct (nonEmpty (todoDir w)); [|done].
  destruct (loadDays_invariants [0; 1; 2; 3; 4; 5; 6]%Z w1) as (ds & w2 & E & _).
  by rewrite E.
Qed.

Lemma lastWithId_elem id ts t :
  lastWithId id ts = Some t -> t ∈ ts /\ t_id t = id.
Proof.
  unfold lastWithId. intros H. apply last_Some in H as [l H].
  assert (t ∈ filter (fun t => t_id t = id) ts) as Hin.
  { rewrite H. apply elem_of_app. right. by left. }
  by apply list_elem_of_filter in Hin as [? ?].
Qed.

Lemma NoDup_map_inj {A B} (f : A -> B) (l : list A) x y :
  NoDup (map f l) -> x ∈ l -> y ∈ l -> f x = f y -> x = y.
Proof.
  induction l as [|a l IH]; intros Hnd Hx Hy E; [by inversion Hx|].
  cbn [map] in Hnd. apply NoDup_cons in Hnd as [Ha Hnd].
  apply elem_of_cons in Hx as [->|Hx]; apply elem_of_cons in Hy as [->|Hy].
  - done.
  - exfalso. apply Ha. rewrite E. by apply list_elem_of_fmap_2.
  - exfalso. apply Ha. rewrite <- E. by apply list_elem_of_fmap_2.
  - by apply IH.
Qed.

Lemma lastWithId_unique ts t :
  NoDup (map t_id ts) -> t ∈ ts -> lastWithId (t_id t) ts = Some t.
Proof.
  intros Hnd Hin. destruct (lastWithId (t_id t) ts) as [t'|] eqn:E.
  - apply lastWithId_elem in E as [Hin' E'].
    by rewrite (NoDup_map_inj t_id ts t' t Hnd Hin' Hin E').
  - exfalso. unfold lastWithId in E. apply last_None in E.
    assert (t ∈ filter (fun t0 => t_id t0 = t_id t) ts) as H
      by (by apply list_elem_of_filter).
    rewrite E in H. by inversion H.
Qed.

(** X22.  After [loadWeek] the stored drafts of the task fields are
    those of the tasks shown, and nothing else: the draft of an
    identifier is made from the last task shown that carries it, an
    identifier that no task shown carries has none, so that what was typed
    and not saved is gone.  When the identifiers shown are distinct each
    task has the draft of its own values.  The drafts of the new-task
    inputs are left as they are. *)
Theorem X22_drafts_after_load w :
  let w' := snd (loadWeek w) in
  (forall id, metaDraftByTask w' !! id = draftOfTask <$> lastWithId id (shownTasks w'))
  /\ (forall task, NoDup (map t_id (shownTasks w')) -> task ∈ shownTasks w' ->
       metaDraftByTask w' !! t_id task = Some (draftOfTask task)
       /\ getTaskMetaDraft w' task = draftOfTask task)
  /\ newTaskByDay w' = newTaskByDay w.
Proof.
  cbv zeta.
  assert (forall id, metaDraftByTask (snd (loadWeek w)) !! id
            = draftOfTask <$> lastWithId id (shownTasks (snd (loadWeek w)))) as H.
  { intros id. rewrite loadWeek_metaDrafts. apply nextMetaDrafts_lookup. }
  split; [exact H|]. split; [|apply loadWeek_drafts].
  intros task Hnd Hin. unfold getTaskMetaDraft.
  by rewrite H, (lastWithId_unique _ _ Hnd Hin).
Qed.

(** X23.  [setTaskMetaDraft] changes the fields of the patch in the
    stored draft of the task and keeps the others; the drafts of the other
    identifiers, the files and the trace are untouched.  For a task
    without stored draft the fields outside the patch become empty: they
    do not take the values of the task that [getTaskMetaDraft] shows for
    it. *)
Theorem X23_patched_draft w task patch :
  let w' := snd (setTaskMetaDraft (t_id task) patch w) in
  (is_Some (metaDraftByTask w !! t_id task) ->
     getTaskMetaDraft w' task = spread (getTaskMetaDraft w task) patch)
  /\ (metaDraftByTask w !! t_id task = None ->
       getTaskMetaDraft w task = draftOfTask task
       /\ getTaskMetaDraft w' task = spread emptyDraft patch)
  /\ (forall other, t_id other <> t_id task ->
       getTaskMetaDraft w' other = getTaskMetaDraft w other)
  /\ files w' = files w /\ trace w' = trace w /\ days w' = days w
  /\ newTaskByDay w' = newTaskByDay w.
Proof.
  cbv zeta. unfold setTaskMetaDraft, act, getTaskMetaDraft.
  cbn [snd metaDraftByTask setMetaDraftByTask].
  split; [|split; [|split; [|done]]].
  - intros [d Hd]. by rewrite lookup_insert_eq, Hd.
  - intros Hd. by rewrite lookup_insert_eq, Hd.
  - intros other Hne. by rewrite lookup_insert_ne.
Qed.

(** * Choosing the folder *)

Lemma trailing_slashes s :
  exists a sl, s = a ++ sl /\ allb isSlash sl = true /\ noTrailingSlash a.
Proof.
  induction s as [|x s IH] using rev_ind.
  - by exists [], [].
  - destruct IH as (a & sl & -> & Hsl & Ha).
    destruct (isSlash x) eqn:Hx.
    + exists a, (sl ++ [x]). rewrite <- app_assoc. split; [done|].
      split; [|done]. rewrite allb_app, Hsl. simpl. by rewrite Hx.
    + exists ((a ++ sl) ++ [x]), []. rewrite app_nil_r. split; [done|].
      split; [done|]. unfold noTrailingSlash. rewrite last_snoc.
      intros [= ->]. done.
Qed.

Lemma all_slashes_last q : q <> [] -> allb isSlash q = true -> last q = Some 47%N.
Proof.
  intros Hq H. destruct (exists_last Hq) as (q0 & z & ->).
  rewrite allb_app in H. apply andb_true_iff in H as [_ H]. simpl in H.
  rewrite andb_true_r in H. apply N.eqb_eq in H as ->. apply last_snoc.
Qed.

Lemma last_app_nonempty {A} (p q : list A) : q <> [] -> last (p ++ q) = last q.
Proof.
  intros Hq. destruct (exists_last Hq) as (q0 & z & ->).
  by rewrite app_assoc, !last_snoc.
Qed.

(** [replace(/\/+$/, "")] takes the slashes at the end away, all of them. *)
Lemma replace_TRAILING_SLASHES a sl :
  allb isSlash sl = true -> noTrailingSlash a ->
  replace TRAILING_SLASHES_RE [] (a ++ sl) = a.
Proof.
  intros Hsl Ha. unfold replace.
  destruct sl as [|x sl].
  - rewrite app_nil_r.
    assert (match_ TRAILING_SLASHES_RE a = None) as ->; [|done].
    unfold match_. apply search_None_intro. intros p q -> . apply run_at_None.
    intros u rest c HM. unfold TRAILING_SLASHES_RE, plus in HM. cbn [cat] in HM.
    inv_M. rewrite app_nil_r in *.
    match goal with H : allb isSlash ?v = true, H' : 1 <= length ?v |- _ =>
      assert (v <> []) as Hv by (intros ->; simpl in H'; lia);
      apply Ha; rewrite (last_app_nonempty _ _ Hv);
      by apply all_slashes_last end.
  - assert (exists whole, match_ TRAILING_SLASHES_RE (a ++ x :: sl)
               = Some {| index := 0 + length a; matched := whole;
                         after := []; groups := [] |}) as [whole ->].
    { eexists. unfold match_. eapply search_first.
      - intros p q -> Hq. apply run_at_None. intros u rest c HM.
        unfold TRAILING_SLASHES_RE, plus in HM. cbn [cat] in HM.
        inv_M. rewrite app_nil_r in *.
        match goal with H : allb isSlash (_ ++ _) = true |- _ => rename H into Hu
        | H : allb isSlash ?v = true, E : ?v = q ++ _ |- _ => rewrite E in H; rename H into Hu
        | H : allb isSlash ?v = true, E : q ++ _ = ?v |- _ => rewrite <- E in H; rename H into Hu
        end.
        rewrite allb_app in Hu. apply andb_true_iff in Hu as [Hu _].
        apply Ha. rewrite last_app_nonempty by done. by apply all_slashes_last.
      - unfold run_at, TRAILING_SLASHES_RE, plus. cbn [cat run].
        rewrite <- (app_nil_r (x :: sl)) at 1.
        apply (rep_greedy isSlash (x :: sl)); [done|simpl; lia|done|done|].
        reflexivity. }
    cbn [index after Nat.add]. by rewrite take_app_length, !app_nil_r.
Qed.

Lemma trim_head_nonSpace x s : isSpace x = false -> nonEmpty (trim (x :: s)) = true.
Proof.
  intros Hx. unfold trim. rewrite (trimStart_id x s Hx).
  pose proof (trimEnd_keep [] x s Hx) as H. cbn [app] in H. by rewrite H.
Qed.

(** X24.  [chooseTodoDir] sets the folder only to a path inside
    /Users/ without slash at its end, that is the selected path minus
    the slashes at its end, and stores the same path; in every other case
    (the dialog dismissed or failed, a blank selection, a path outside
    /Users/, /Users/ itself) the folder and the stored item stay as they
    are.  Conversely a selection that is such a path followed by slashes
    is accepted. *)
Theorem X24_chosen_folder answer sh :
  let sh' := chooseTodoDir answer sh in
  ((todoDir (world sh') = todoDir (world sh) /\ storedDir sh' = storedDir sh)
   \/ (exists rest sl,
         answer = Picked (USERS ++ rest ++ sl)
         /\ rest <> [] /\ noTrailingSlash rest /\ allb isSlash sl = true
         /\ todoDir (world sh') = USERS ++ rest
         /\ storedDir sh' = Some (USERS ++ rest)
         /\ error (world sh') = error (world sh)))
  /\ (forall rest sl,
        rest <> [] -> noTrailingSlash rest -> allb isSlash sl = true ->
        answer = Picked (USERS ++ rest ++ sl) ->
        todoDir (world sh') = USERS ++ rest /\ storedDir sh' = Some (USERS ++ rest)).
Proof.
  cbv zeta. split.
  - destruct answer as [selected| |e]; [|by left|by left].
    unfold chooseTodoDir.
    destruct (nonEmpty (trim selected)); [|by left].
    destruct (trailing_slashes selected) as (a & sl & -> & Hsl & Ha).
    rewrite (replace_TRAILING_SLASHES a sl Hsl Ha).
    destruct (isPrefix USERS a) eqn:Hp; [|by left].
    right. apply isPrefix_true in Hp as [rest ->].
    exists rest, sl. rewrite <- app_assoc. split; [done|].
    assert (rest <> []) as Hne.
    { intros ->. apply Ha. by rewrite app_nil_r. }
    split; [done|]. split; [|done].
    unfold noTrailingSlash in *. by rewrite last_app_nonempty in Ha.
  - intros rest sl Hne Hr Hsl ->. unfold chooseTodoDir.
    assert (nonEmpty (trim (USERS ++ rest ++ sl)) = true) as ->
      by (by apply (trim_head_nonSpace 47%N)).
    rewrite app_assoc, replace_TRAILING_SLASHES; [|done|].
    + by rewrite isPrefix_app.
    + unfold noTrailingSlash. by rewrite last_app_nonempty.
Qed.

(** * The completion percentage *)

Lemma roundHalfEven_near n d :
  (0 < d)%Z ->
  (- d <= 2 * (roundHalfEven n d * d - n) <= d)%Z.
Proof.
  intros Hd. unfold roundHalfEven.
  pose proof (Z.div_mod n d ltac:(lia)) as E.
  pose proof (Z.mod_pos_bound n d Hd) as Hr.
  destruct (Z.ltb_spec (2 * (n mod d)) d); [nia|].
  destruct (Z.ltb_spec d (2 * (n mod d))); [nia|].
  destruct (Z.even (n / d)); nia.
Qed.

Lemma roundHalfEven_le n d c :
  (0 < d)%Z -> (n <= c * d)%Z -> (roundHalfEven n d <= c)%Z.
Proof. intros Hd H. pose proof (roundHalfEven_near n d Hd). nia. Qed.

Lemma binade_le n d : (binade n d <= Z.log2 n - Z.log2 d)%Z.
Proof. unfold binade. destruct (_ <=? _)%Z; lia. Qed.

(** A quotient that is at most [2 ^ b] is rounded at a binade that is at
    most [b]: the result is [m / 2 ^ s] with [s >= 52 - b], and [m] is
    within one half of the scaled quotient. *)
Lemma RN_small n d b :
  (0 < n)%Z -> (0 < d)%Z -> (Z.log2 n - Z.log2 d <= b)%Z -> (b <= 51)%Z ->
  exists m s,
    RN n d = {| dy_mant := m; dy_shift := s |}
    /\ (52 - b <= s)%Z
    /\ (- d <= 2 * (m * d - n * 2 ^ s) <= d)%Z.
Proof.
  intros Hn Hd Hk Hb. unfold RN.
  destruct (Z.eqb_spec n 0); [lia|].
  pose proof (binade_le n d) as Hbin.
  destruct (Z.leb_spec 0 (binade n d - 52)); [lia|].
  eexists _, _. split; [reflexivity|]. split; [lia|].
  by apply roundHalfEven_near.
Qed.

(** The percentage is within one half of the exact one, for lists below
    the length limit of an array. *)
Lemma percent_near done total :
  0 < total -> done <= total -> (Z.of_nat total < 2 ^ 32)%Z ->
  (- Z.of_nat total
   <= 2 * (percent done total * Z.of_nat total - 100 * Z.of_nat done)
   <= Z.of_nat total)%Z.
Proof.
  intros Ht Hdt Hlim. unfold percent.
  destruct (Nat.eqb_spec total 0); [lia|].
  assert (0 < Z.of_nat total)%Z by lia.
  assert (0 <= Z.of_nat done <= Z.of_nat total)%Z by lia.
  generalize dependent (Z.of_nat total). intros t Hlim Htpos.
  generalize dependent (Z.of_nat done). intros d Hd.
  destruct (Z.eqb_spec d 0) as [E0|Hd0].
  { rewrite E0.
    assert (Math_round (fmul (fdiv 0 t) 100) = 0%Z) as -> by (by vm_compute).
    lia. }
  assert (0 < d)%Z by lia.
  (* the quotient *)
  destruct (RN_small d t 0) as (m1 & s1 & E1 & Hs1 & Hm1); [done|done| |lia|].
  { pose proof (Z.log2_le_mono d t ltac:(lia)). lia. }
  unfold fdiv, fmul. rewrite E1. cbn [dy_mant dy_shift].
  set (A := (2 ^ s1)%Z) in *.
  assert (2 ^ 52 <= A)%Z as HA by (apply Z.pow_le_mono_r; lia).
  assert (0 < m1)%Z as Hm1pos by nia.
  assert (m1 <= A)%Z as Hm1le by nia.
  (* the product *)
  destruct (RN_small (m1 * 100) A 6) as (m2 & s2 & E2 & Hs2 & Hm2); [lia|lia| |lia|].
  { assert (Z.log2 (m1 * 100) < s1 + 7)%Z; [|unfold A; rewrite Z.log2_pow2; lia].
    apply Z.log2_lt_pow2; [lia|]. rewrite Z.pow_add_r by lia. fold A. lia. }
  rewrite E2. unfold Math_round. cbn [dy_mant dy_shift].
  set (B := (2 ^ s2)%Z) in *.
  assert (2 ^ 46 <= B)%Z as HB by (apply Z.pow_le_mono_r; lia).
  replace (2 ^ (s2 + 1))%Z with (2 * B)%Z by (unfold B; rewrite Z.pow_add_r; lia).
  set (p := ((2 * m2 + B) / (2 * B))%Z).
  pose proof (Z.div_mod (2 * m2 + B) (2 * B) ltac:(lia)) as Ep.
  pose proof (Z.mod_pos_bound (2 * m2 + B) (2 * B) ltac:(lia)) as Hp.
  fold p in Ep.
  (* the three roundings together *)
  assert (100 * t * B + A * t < A * B)%Z as Hsmall.
  { assert (100 * t * B <= 2 ^ 39 * B)%Z by nia.
    assert (A * t <= A * 2 ^ 32)%Z by nia.
    assert (2 ^ 39 * B + A * 2 ^ 32 < A * B)%Z; [|lia].
    assert (2 ^ 40 * B <= A * B)%Z by nia.
    assert (A * 2 ^ 33 <= A * B)%Z by nia. nia. }
  assert (A * B * (2 * (p * t) - 200 * d - t) <= 100 * t * B + A * t)%Z as Hup by nia.
  assert (A * B * (200 * d - 2 * (p * t) - t) <= 100 * t * B + A * t)%Z as Hlo by nia.
  assert (0 < A * B)%Z by nia.
  split.
  - destruct (Z.le_gt_cases (200 * d - 2 * (p * t) - t) 0) as [?|Hc]; [lia|].
    exfalso. assert (A * B * 1 <= A * B * (200 * d - 2 * (p * t) - t))%Z
      by (apply Z.mul_le_mono_nonneg_l; lia). lia.
  - destruct (Z.le_gt_cases (2 * (p * t) - 200 * d - t) 0) as [?|Hc]; [lia|].
    exfalso. assert (A * B * 1 <= A * B * (2 * (p * t) - 200 * d - t))%Z
      by (apply Z.mul_le_mono_nonneg_l; lia). lia.
Qed.

Lemma percent_facts done total :
  done <= total -> (Z.of_nat total < 2 ^ 32)%Z ->
  nearestPercent (percent done total) done total
  /\ (0 <= percent done total <= 100)%Z
  /\ (done = 0 -> percent done total = 0%Z)
  /\ (0 < total -> done = total -> percent done total = 100%Z).
Proof.
  intros Hle Hlim. unfold nearestPercent.
  destruct (Nat.eq_dec total 0) as [->|Hne].
  - assert (done = 0) as -> by lia. unfold percent. cbn [Nat.eqb]. lia.
  - pose proof (percent_near done total ltac:(lia) Hle Hlim) as H.
    split; [exact H|]. split; [nia|]. split; [intros ->; nia|intros _ ->; nia].
Qed.

(** Binary64 at work: one tenth is 0x1.999999999999ap-4, and 29 tasks
    done out of 200 give 14, since the product 0.145 * 100 falls just
    below 14.5. *)
Lemma percent_examples :
  fdiv 1 10 = {| dy_mant := 7205759403792794; dy_shift := 56 |}
  /\ percent 29 200 = 14%Z /\ percent 1 8 = 13%Z /\ percent 199 200 = 100%Z.
Proof. by vm_compute. Qed.

(** ** The statistics *)

Lemma mapDayStats_elem s ds : forall i,
  s ∈ mapDayStats i ds -> exists d j, d ∈ ds /\ s = dayStats d j.
Proof.
  induction ds as [|d ds IH]; intros i H; cbn [mapDayStats] in H.
  - by inversion H.
  - apply elem_of_cons in H as [->|H].
    + exists d, i. split; [by left|done].
    + destruct (IH _ H) as (d' & j & Hin & ->). exists d', j. split; [by right|done].
Qed.

Lemma filter_length_bound {A} (f : A -> bool) l : length (List.filter f l) <= length l.
Proof. induction l as [|x l IH]; [done|]. simpl. destruct (f x); simpl; lia. Qed.

Lemma sumMinutes_from values : forall a,
  fold_left (fun s v => match v with Some n => (s + n)%N | None => s end) values a
  = (a + sumMinutes values)%N.
Proof.
  unfold sumMinutes. induction values as [|v values IH]; intros a; cbn [fold_left].
  - lia.
  - rewrite IH, (IH (match v with Some n => (0 + n)%N | None => 0%N end)).
    destruct v; lia.
Qed.

Lemma sumMinutes_app l1 l2 :
  sumMinutes (l1 ++ l2) = (sumMinutes l1 + sumMinutes l2)%N.
Proof. unfold sumMinutes at 1. by rewrite fold_left_app, sumMinutes_from. Qed.

Lemma totals_fold ds : forall i a b c (x y : N),
  fold_left (fun a s => a + st_total s) (mapDayStats i ds) a = a + length (allTasks ds)
  /\ fold_left (fun a s => a + st_done s) (mapDayStats i ds) b
     = b + length (List.filter t_done (allTasks ds))
  /\ fold_left (fun a s => a + st_overruns s) (mapDayStats i ds) c
     = c + length (List.filter isOverrun (allTasks ds))
  /\ fold_left (fun a s => (a + st_estSum s)%N) (mapDayStats i ds) x
     = (x + sumMinutes (map t_estMin (allTasks ds)))%N
  /\ fold_left (fun a s => (a + st_actSum s)%N) (mapDayStats i ds) y
     = (y + sumMinutes (map t_actMin (allTasks ds)))%N.
Proof.
  unfold allTasks. induction ds as [|d ds IH]; intros i a b c x y.
  - cbn. repeat split; lia.
  - cbn [mapDayStats fold_left map concat].
    destruct (IH (S i) (a + st_total (dayStats d i)) (b + st_done (dayStats d i))
                (c + st_overruns (dayStats d i)) (x + st_estSum (dayStats d i))%N
                (y + st_actSum (dayStats d i))%N) as (-> & -> & -> & -> & ->).
    cbn [dayStats st_total st_done st_overruns st_estSum st_actSum].
    rewrite !List.filter_app, !map_app, !length_app, !sumMinutes_app.
    repeat split; lia.
Qed.

Lemma mapDayStats_ymd ds : forall i, map st_ymd (mapDayStats i ds) = map ymd ds.
Proof. induction ds as [|d ds IH]; intros i; [done|]. cbn. by rewrite IH. Qed.

Lemma mapDayStats_label ds : forall i j s,
  mapDayStats i ds !! j = Some s -> st_label s = weekdayLabel (i + j).
Proof.
  induction ds as [|d ds IH]; intros i j s H; [done|].
  destruct j as [|j]; cbn in H.
  - injection H as <-. cbn. by rewrite Nat.add_0_r.
  - rewrite (IH _ _ _ H). f_equal. lia.
Qed.

(** X25.  The completion percentages of [computeWeekStats] are what the
    source says of them, 0 to 100: for every day, and for the week, with
    fewer tasks than an array can hold, the percentage is an integer from
    0 to 100 within one half of the exact [100 * done / total], it is 0
    when no task is done (also when there is no task) and 100 when all
    are. *)
Theorem X25_completion_percentage days :
  let ws := computeWeekStats days in
  (forall s, s ∈ perDay ws -> (Z.of_nat (st_total s) < 2 ^ 32)%Z ->
     st_done s <= st_total s
     /\ nearestPercent (st_pct s) (st_done s) (st_total s)
     /\ (0 <= st_pct s <= 100)%Z
     /\ (st_done s = 0 -> st_pct s = 0%Z)
     /\ (0 < st_total s -> st_done s = st_total s -> st_pct s = 100%Z))
  /\ ((Z.of_nat (totalTasks ws) < 2 ^ 32)%Z ->
      doneTasks ws <= totalTasks ws
      /\ nearestPercent (weekPct ws) (doneTasks ws) (totalTasks ws)
      /\ (0 <= weekPct ws <= 100)%Z
      /\ (doneTasks ws = 0 -> weekPct ws = 0%Z)
      /\ (0 < totalTasks ws -> doneTasks ws = totalTasks ws -> weekPct ws = 100%Z)).
Proof.
  cbv zeta. unfold computeWeekStats.
  cbn [perDay totalTasks doneTasks weekPct]. split.
  - intros s Hs Hlim. apply mapDayStats_elem in Hs as (d & j & _ & ->).
    cbn [dayStats st_total st_done st_pct] in *.
    pose proof (filter_length_bound t_done (tasks d)) as Hle.
    split; [done|]. by apply percent_facts.
  - intros Hlim.
    destruct (totals_fold days 0 0 0 0 0%N 0%N) as (Et & Ed & _).
    rewrite Et, Ed in *. cbn [Nat.add] in *.
    pose proof (filter_length_bound t_done (allTasks days)) as Hle.
    split; [done|]. by apply percent_facts.
Qed.


(** ** Showing minutes *)

Lemma digit_run_unique a : forall b x s y s',
  allb isDigit a = true -> allb isDigit b = true ->
  isDigit x = false -> isDigit y = false ->
  a ++ x :: s = b ++ y :: s' -> a = b /\ x :: s = y :: s'.
Proof.
  induction a as [|c a IH]; intros [|d b] x s y s' Ha Hb Hx Hy E; simpl in *.
  - done.
  - injection E as -> _. apply andb_true_iff in Hb as [Hb _]. congruence.
  - injection E as -> _. apply andb_true_iff in Ha as [Ha _]. congruence.
  - injection E as -> E. apply andb_true_iff in Ha as [_ Ha].
    apply andb_true_iff in Hb as [_ Hb].
    destruct (IH b x s y s' Ha Hb Hx Hy E) as [-> ?]. done.
Qed.

Lemma String__inj a b : String_ a = String_ b -> a = b.
Proof. intros E. by rewrite <- (decimalVal_String_ a), E, decimalVal_String_. Qed.

(** The three shapes of a shown duration. *)
Lemma formatMin_shape n :
  let h := (n / 60)%N in
  let m := (n mod 60)%N in
  (h = 0%N /\ formatMin n = String_ m ++ [109%N])
  \/ (h <> 0%N /\ m = 0%N /\ formatMin n = String_ h ++ [104%N])
  \/ (h <> 0%N /\ m <> 0%N
      /\ formatMin n = String_ h ++ 104%N :: 32%N :: String_ m ++ [109%N]).
Proof.
  cbv zeta. unfold formatMin. norm_str.
  destruct (N.leb_spec n 0) as [H0|H0].
  - assert (n = 0%N) as -> by lia. left. split; [done|]. by vm_compute.
  - destruct (N.leb_spec (n / 60) 0) as [Hh|Hh].
    + left. apply N.le_0_r in Hh. by split.
    + assert ((n / 60)%N <> 0%N) as Hh' by (intros E; rewrite E in Hh; lia).
      right. destruct (N.eqb_spec (n mod 60) 0) as [Hm|Hm].
      * left. by split.
      * right. by split.
Qed.

(** X27.  [formatMin] shows different totals differently, with minutes
    below 60 whenever hours are shown: from the text shown the number of
    minutes can be told. *)
Theorem X27_shown_minutes_differ a b : formatMin a = formatMin b -> a = b.
Proof.
  intros E.
  pose proof (N.div_mod a 60 ltac:(lia)) as Ea.
  pose proof (N.div_mod b 60 ltac:(lia)) as Eb.
  destruct (formatMin_shape a) as [[Ha Fa]|[(Ha & Ma & Fa)|(Ha & Ma & Fa)]];
  destruct (formatMin_shape b) as [[Hb Fb]|[(Hb & Mb & Fb)|(Hb & Mb & Fb)]];
  rewrite Fa, Fb in E;
  apply digit_run_unique in E as [E1 E2];
  try apply String__digits; try done;
  apply String__inj in E1.
  - lia.
  - lia.
  - injection E2 as E2.
    apply (digit_run_unique _ _ 109%N [] 109%N []) in E2 as [E2 _];
      try apply String__digits; try done.
    apply String__inj in E2. lia.
Qed.

Lemma X27_shown_minutes_differ_witness : 135%N = 135%N.
Proof. apply X27_shown_minutes_differ. reflexivity. Defined.

(** * The names of the days *)

Transparent toYMD hashString addDays weekStart.

(** The civil date of a day number: a month from 1 to 12 and a day of the
    month from 1 to 31. *)
Lemma civil_date z :
  (1 <= snd (civilYearMonth z) <= 12
   /\ 1 <= z - daysFromCivil (fst (civilYearMonth z)) (snd (civilYearMonth z)) 1 + 1 <= 31)%Z.
Proof.
  unfold civilYearMonth. cbn [fst snd].
  pose proof (Z.div_mod (z + 719468) 146097 ltac:(lia)) as E0.
  pose proof (Z.mod_pos_bound (z + 719468) 146097 ltac:(lia)) as B0.
  remember ((z + 719468) / 146097)%Z as era eqn:Eera.
  remember (z + 719468 - era * 146097)%Z as doe eqn:Edoe.
  assert (0 <= doe <= 146096)%Z as Hdoe by lia.
  clear E0 B0 Eera.
  remember ((doe - doe / 1460 + doe / 36524 - doe / 146096) / 365)%Z as yoe eqn:Eyoe.
  assert (0 <= yoe <= 399)%Z as Hyoe by (subst yoe; Z.div_mod_to_equations; lia).
  remember (doe - (365 * yoe + yoe / 4 - yoe / 100))%Z as doy eqn:Edoy.
  assert (0 <= doy <= 365)%Z as Hdoy by (subst doy yoe; Z.div_mod_to_equations; lia).
  clear Eyoe.
  remember ((5 * doy + 2) / 153)%Z as mp eqn:Emp.
  assert (0 <= mp <= 11)%Z as Hmp by (subst mp; Z.div_mod_to_equations; lia).
  assert (153 * mp <= 5 * doy + 2 < 153 * mp + 153)%Z as Hmpd
    by (subst mp; Z.div_mod_to_equations; lia).
  clear Emp.
  unfold daysFromCivil.
  destruct (Z.ltb_spec mp 10) as [Hlt|Hge].
  - split; [lia|].
    assert ((if mp + 3 <=? 2 then yoe + era * 400 + 1 else yoe + era * 400)
            = yoe + era * 400)%Z as ->
      by (destruct (Z.leb_spec (mp + 3) 2); lia).
    assert ((if mp + 3 <=? 2 then yoe + era * 400 - 1 else yoe + era * 400)
            = yoe + era * 400)%Z as ->
      by (destruct (Z.leb_spec (mp + 3) 2); lia).
    assert ((if 2 <? mp + 3 then mp + 3 - 3 else mp + 3 + 9) = mp)%Z as ->
      by (destruct (Z.ltb_spec 2 (mp + 3)); lia).
    replace ((yoe + era * 400) / 400)%Z with era by (Z.div_mod_to_equations; lia).
    replace (yoe + era * 400 - era * 400)%Z with yoe by lia.
    Z.div_mod_to_equations. lia.
  - split; [lia|].
    assert ((if mp - 9 <=? 2 then yoe + era * 400 + 1 else yoe + era * 400)
            = yoe + era * 400 + 1)%Z as ->
      by (destruct (Z.leb_spec (mp - 9) 2); lia).
    assert ((if mp - 9 <=? 2 then yoe + era * 400 + 1 - 1 else yoe + era * 400 + 1)
            = yoe + era * 400)%Z as ->
      by (destruct (Z.leb_spec (mp - 9) 2); lia).
    assert ((if 2 <? mp - 9 then mp - 9 - 3 else mp - 9 + 9) = mp)%Z as ->
      by (destruct (Z.ltb_spec 2 (mp - 9)); lia).
    replace ((yoe + era * 400) / 400)%Z with era by (Z.div_mod_to_equations; lia).
    replace (yoe + era * 400 - era * 400)%Z with yoe by lia.
    Z.div_mod_to_equations. lia.
Qed.

(** Months and days of the month are padded to two digits. *)
Lemma pad2_digits n :
  (1 <= n <= 31)%Z ->
  pad2 n = [Z.to_N (48 + n / 10); Z.to_N (48 + n mod 10)].
Proof.
  intros H.
  assert (forallb (fun k => bool_decide
            (pad2 k = [Z.to_N (48 + k / 10); Z.to_N (48 + k mod 10)]))
            (seqZ 1 31) = true) as HT by (by vm_compute).
  rewrite forallb_forall in HT.
  assert (In n (seqZ 1 31)) as Hin by (apply list_elem_of_In, elem_of_seqZ; lia).
  specialize (HT n Hin). by apply bool_decide_eq_true_1 in HT.
Qed.

Lemma pad2_inj n n' :
  (1 <= n <= 31)%Z -> (1 <= n' <= 31)%Z -> pad2 n = pad2 n' -> n = n'.
Proof.
  intros H H' E. rewrite (pad2_digits n H), (pad2_digits n' H') in E.
  injection E as E1 E2.
  assert (48 + n / 10 = 48 + n' / 10)%Z by (apply Z2N.inj; [| |done]; Z.div_mod_to_equations; lia).
  assert (48 + n mod 10 = 48 + n' mod 10)%Z by (apply Z2N.inj; [| |done]; Z.div_mod_to_equations; lia).
  Z.div_mod_to_equations. lia.
Qed.

Lemma String__head n : exists c s, String_ n = c :: s /\ isDigit c = true.
Proof.
  pose proof (String__digits n) as H. pose proof (String__nonempty n) as Hne.
  destruct (String_ n) as [|c s]; [done|]. exists c, s. split; [done|].
  simpl in H. by apply andb_true_iff in H as [H _].
Qed.

Lemma String_Z_inj a b : String_Z a = String_Z b -> a = b.
Proof.
  unfold String_Z.
  destruct (Z.ltb_spec a 0), (Z.ltb_spec b 0); intros E.
  - injection E as E. apply String__inj in E. lia.
  - destruct (String__head (Z.to_N b)) as (c & s & Ec & Hc). rewrite Ec in E.
    injection E as <- _. done.
  - destruct (String__head (Z.to_N a)) as (c & s & Ec & Hc). rewrite Ec in E.
    injection E as -> _. done.
  - apply String__inj in E. lia.
Qed.

Lemma toYMD_inj d d' : toYMD d = toYMD d' -> dayNumber d = dayNumber d'.
Proof.
  unfold toYMD. norm_str.
  destruct (civil_date (dayNumber d)) as [Hm Hd].
  destruct (civil_date (dayNumber d')) as [Hm' Hd'].
  assert (forall x, getMonth x + 1 = snd (civilYearMonth (dayNumber x)))%Z as Em
    by (intros x; unfold getMonth; lia).
  assert (forall x, getDate x
            = dayNumber x - daysFromCivil (fst (civilYearMonth (dayNumber x)))
                              (snd (civilYearMonth (dayNumber x))) 1 + 1)%Z as Ed
    by (intros x; unfold getDate; by rewrite Em).
  rewrite <- !Em in Hm, Hm'. rewrite <- !Ed in Hd, Hd'.
  assert (1 <= getMonth d + 1 <= 31)%Z as Hm31 by lia.
  assert (1 <= getMonth d' + 1 <= 31)%Z as Hm31' by lia.
  clear Hm Hm'. rename Hm31 into Hm. rename Hm31' into Hm'.
  rewrite (pad2_digits _ Hm), (pad2_digits _ Hm'), (pad2_digits _ Hd), (pad2_digits _ Hd').
  cbn [app]. intros E. apply app_inj_2 in E as [EY E]; [|done].
  apply String_Z_inj in EY.
  assert (pad2 (getMonth d + 1) = pad2 (getMonth d' + 1)) as EM.
  { rewrite (pad2_digits _ Hm), (pad2_digits _ Hm'). by injection E as -> -> _ _. }
  assert (pad2 (getDate d) = pad2 (getDate d')) as ED.
  { rewrite (pad2_digits _ Hd), (pad2_digits _ Hd'). by injection E as _ _ -> ->. }
  apply pad2_inj in EM; [|done|done]. apply pad2_inj in ED; [|done|done].
  unfold getDate in ED. rewrite EM, EY in ED. lia.
Qed.

Lemma addDays_name_inj (d : Date) i j :
  toYMD (addDays d i) = toYMD (addDays d j) -> i = j.
Proof.
  intros E. apply toYMD_inj in E.
  rewrite (addDays_day d i), (addDays_day d j) in E.
  cbn [dayNumber] in E. lia.
Qed.

Lemma dayYmd_inj w i j : dayYmd w i = dayYmd w j -> i = j.
Proof. apply addDays_name_inj. Qed.

Lemma toYMD_same_day d d' : dayNumber d = dayNumber d' -> toYMD d = toYMD d'.
Proof.
  intros E. unfold toYMD.
  assert (getFullYear d = getFullYear d') as -> by (unfold getFullYear; by rewrite E).
  assert (getMonth d = getMonth d') as -> by (unfold getMonth; by rewrite E).
  assert (getDate d = getDate d') as ->; [|done].
  unfold getDate, getMonth, getFullYear. by rewrite E.
Qed.


Opaque toYMD hashString addDays weekStart.

(** * Saving the fields of a task *)

Lemma buildTaskLine_noLF checked text meta id :
  validId id -> allb dot (trim (meta_reason meta)) = true ->
  noLF (buildTaskLine checked text meta id).
Proof.
  intros Hid Hr. rewrite buildTaskLine_shape.
  destruct (built_parts text meta Hr) as [HP _].
  apply allb_dot_noLF. cbn [app allb].
  rewrite allb_app, HP, (taskIdToken_dot _ (proj2 Hid)). by destruct checked.
Qed.

(** X29.  Saving drafts that pass the checks, for a task whose line is in
    the file: [saveTaskMeta] reads the file, writes it back with that one
    line rebuilt from its mark, its cleaned text and the drafts, and
    reloads the week.  The rebuilt line keeps the mark (an upper-case X
    becomes x) and carries the identifier, so the task is found again;
    when the trimmed reason holds no line terminator the file keeps its
    number of lines and every other line. *)
Theorem X29_save_frame w day task md idx line m :
  let d := getTaskMetaDraft w task in
  let est := parseDraftMinutes (draft_estMin d) in
  let act_ := parseDraftMinutes (draft_actMin d) in
  let reason := trim (draft_reason d) in
  isNaN est = false -> isNaN act_ = false ->
  overrun est act_ && negb (nonEmpty reason) = false ->
  files w !! filePath day = Some md ->
  findIndex (fun l => lineHasTaskId l (t_id task)) (split_lines md) = Some idx ->
  split_lines md !! idx = Some line ->
  match_ TASK_RE line = Some m ->
  let checked := streq (toLowerCase (group 1 (groups m))) (str "x") in
  let newLine :=
    buildTaskLine checked (cleanedText (trim (group 2 (groups m))))
      {| meta_estMin := minutes est; meta_actMin := minutes act_;
         meta_reason := reason |} (t_id task) in
  saveTaskMeta day task w
    = (Ok tt, setBusy false (snd (loadWeek (afterSave w day md idx newLine))))
  /\ (exists P, newLine
        = [45; 32; 91; markOf checked; 93; 32]%N ++ P ++ taskIdToken (t_id task))
  /\ lineHasTaskId newLine (t_id task) = true
  /\ (validId (t_id task) -> allb dot reason = true ->
      split_lines (join_lines (<[idx := newLine]> (split_lines md)))
        = <[idx := newLine]> (split_lines md)
      /\ length (<[idx := newLine]> (split_lines md)) = length (split_lines md)
      /\ <[idx := newLine]> (split_lines md) !! idx = Some newLine
      /\ forall j, j <> idx ->
           <[idx := newLine]> (split_lines md) !! j = split_lines md !! j).
Proof.
  cbv zeta. intros He Ha Ho Hf Hidx Hline Hm.
  set (d := getTaskMetaDraft w task) in *.
  split; [|split; [|split]].
  - unfold saveTaskMeta. fold d. rewrite He, Ha, Ho.
    unfold tryCatchFinally, bind, act, readTextFile, writeTextFile. simpl.
    rewrite Hf. simpl. rewrite Hidx. rewrite Hline. simpl.
    rewrite Hm. rewrite (loadWeek_eta (emit _ _)). simpl. done.
  - rewrite buildTaskLine_shape. by eexists.
  - rewrite buildTaskLine_shape, app_assoc. apply lineHasTaskId_token.
  - intros Hid Hr.
    assert (idx < length (split_lines md)) as Hlt by (by apply lookup_lt_Some in Hline).
    split; [|split; [by rewrite length_insert|split]].
    + apply split_join.
      * intros E. apply (f_equal length) in E. rewrite length_insert in E.
        simpl in E. lia.
      * apply Forall_insert; [apply split_lines_noLF|].
        apply buildTaskLine_noLF; [done|]. cbn [meta_reason].
        by rewrite (trim_clean (draft_reason d)).
    + by apply list_lookup_insert_eq.
    + intros j Hj. by apply list_lookup_insert_ne.
Qed.

Lemma X29_save_frame_witness :
  exists newLine,
    saveTaskMeta exampleDay exampleTask (draftWorld (str "30") (str " 20 ") [])
    = (Ok tt, setBusy false (snd (loadWeek
         (afterSave (draftWorld (str "30") (str " 20 ") []) exampleDay exampleFile 2
            newLine))))
    /\ lineHasTaskId newLine (str "abcdef12") = true.
Proof.
  destruct (match_ TASK_RE (str "- [ ] write <!-- tid:abcdef12 -->")) as [m|] eqn:Hm;
    [|by vm_compute in Hm].
  eexists.
  pose proof (X29_save_frame (draftWorld (str "30") (str " 20 ") []) exampleDay
                exampleTask exampleFile 2 (str "- [ ] write <!-- tid:abcdef12 -->") m
                eq_refl eq_refl eq_refl eq_refl eq_refl eq_refl Hm) as (H1 & _ & H3 & _).
  exact (conj H1 H3).
Defined.

(** * The first task of a day *)

Lemma newTaskLine_facts text id rnd pos i :
  text <> [] -> clean text -> allb dot text = true -> validId id ->
  settled (newTaskLine text id)
  /\ noLF (newTaskLine text id)
  /\ exists t, parseLine rnd pos i (newTaskLine text id) = (Some t, pos)
       /\ t_id t = id /\ t_hasId t = true /\ t_done t = false /\ t_lineIndex t = i.
Proof.
  intros Hne Hc Hd Hid. unfold newTaskLine. norm_str.
  assert (Hs : startsNonSpace ((text ++ [32%N]) ++ taskIdToken id)).
  { destruct text as [|c text]; [done|]. by eapply clean_head. }
  assert (Hbody : allb dot ((text ++ [32%N]) ++ taskIdToken id) = true).
  { rewrite !allb_app, Hd. cbn [allb andb]. by apply taskIdToken_dot, Hid. }
  destruct (TASK_RE_forward [] [32%N] 32%N [32%N] ((text ++ [32%N]) ++ taskIdToken id))
    as [whole Hm]; auto.
  cbn [app] in Hm. rewrite <- !app_assoc in Hm. cbn [app] in Hm.
  destruct (TASK_ID_HTML_RE_at_end (text ++ [32%N]) id Hid) as [tok Hex].
  assert (Htrim : trim ((text ++ [32%N]) ++ taskIdToken id)
                  = (text ++ [32%N]) ++ taskIdToken id)
    by (by apply taskIdToken_clean_after).
  rewrite <- !app_assoc in Htrim, Hex, Hbody. cbn [app] in Htrim, Hex, Hbody.
  split; [|split].
  - unfold settled, lacksCanonicalId. cbn [app]. rewrite Hm.
    cbn [groups group Nat.eqb]. rewrite Htrim.
    unfold hasCanonicalTaskId, test. by rewrite Hex.
  - apply allb_dot_noLF. cbn [app allb]. by rewrite Hbody.
  - unfold parseLine. cbn [app]. rewrite Hm. cbn [groups group Nat.eqb]. rewrite Htrim.
    unfold extractTaskId, hasCanonicalTaskId, test. rewrite Hex.
    cbn [groups group Nat.eqb].
    destruct (parseMeta (text ++ 32%N :: taskIdToken id)) as [pm dt].
    eexists. split; [reflexivity|]. by cbn.
Qed.

Lemma addTask_first day w :
  files w !! filePath day = None ->
  nonEmpty (trim (getDraft w (ymd day))) = true ->
  exists w2,
    addTask day w = (Ok tt, setBusy false (snd (loadWeek w2)))
    /\ files w2
       = <[filePath day := firstTaskFile (trim (getDraft w (ymd day)))
                             (fst (genTaskId (rnd w) (rndPos w)))]>
           (<[filePath day := TEMPLATE]> (files w))
    /\ newTaskByDay w2 = <[ymd day := []]> (newTaskByDay w).
Proof.
  intros Hf Htext. unfold addTask. rewrite Htext. cbn [negb].
  unfold tryCatchFinally, bind, act, exists_, readTextFile, writeTextFile,
    genTaskIdM, setDraft, ret.
  cbn [files emit setBusy setError]. rewrite Hf.
  rewrite bool_decide_eq_false_2 by (by intros [? ?]). cbn [negb].
  cbn [files emit setBusy setError setFiles]. rewrite lookup_insert_eq.
  cbn [rnd rndPos emit setBusy setError setFiles].
  destruct (genTaskId (rnd w) (rndPos w)) as [id pos] eqn:G.
  unfold act. cbn beta iota.
  rewrite (loadWeek_eta (setNewTaskByDay _ _)).
  eexists. split; [reflexivity|].
  cbn [files newTaskByDay setNewTaskByDay emit setFiles setRndPos setBusy setError fst].
  split; [|done]. f_equal.
Qed.

Lemma firstTaskFile_lines text id :
  noLF (newTaskLine text id) ->
  split_lines (firstTaskFile text id) = [str "## Todo"; []; []; newTaskLine text id].
Proof.
  intros H. unfold firstTaskFile. apply split_join; [done|].
  repeat (constructor; [by apply allb_dot_noLF|]). by constructor.
Qed.

(** X30.  The first task of a day without file: [addTask] with a draft
    that is not blank and holds no line terminator creates the file from
    the template and appends the task line behind the heading and its two
    blank lines.  After the reload that ends [addTask] the file is exactly
    that, it reads as one open task, on line 3, with the generated
    identifier, and the draft of the day is empty. *)
Theorem X30_first_task_of_a_day day w :
  let text := trim (getDraft w (ymd day)) in
  let id := fst (genTaskId (rnd w) (rndPos w)) in
  let w' := snd (addTask day w) in
  files w !! filePath day = None ->
  text <> [] -> allb dot text = true ->
  fst (addTask day w) = Ok tt
  /\ files w' !! filePath day = Some (firstTaskFile text id)
  /\ split_lines (firstTaskFile text id) = [str "## Todo"; []; []; newTaskLine text id]
  /\ (forall rnd0 pos0, exists t,
        parseTasks rnd0 pos0 (firstTaskFile text id) = ([t], pos0)
        /\ t_id t = id /\ t_lineIndex t = 3 /\ t_done t = false /\ t_hasId t = true)
  /\ getDraft w' (ymd day) = [].
Proof.
  cbv zeta. intros Hf Hne Hd.
  set (text := trim (getDraft w (ymd day))) in *.
  set (id := fst (genTaskId (rnd w) (rndPos w))).
  assert (Hid : validId id) by apply genTaskId_valid.
  assert (Hc : clean text) by apply trim_clean.
  assert (Htext : nonEmpty text = true) by (by destruct text).
  destruct (addTask_first day w Hf Htext) as (w2 & E & Hfiles & Hdraft).
  fold text id in Hfiles.
  destruct (newTaskLine_facts text id (rnd w) 0 3 Hne Hc Hd Hid) as (Hs & Hlf & _).
  pose proof (firstTaskFile_lines text id Hlf) as Hlines.
  rewrite E. cbn [fst snd].
  split; [done|]. split; [|split; [done|split]].
  - cbn [files setBusy]. apply loadWeek_keeps.
    + by rewrite Hfiles, lookup_insert_eq.
    + unfold settledText. rewrite Hlines. cbn [existsb]. rewrite Hs. by vm_compute.
  - intros rnd0 pos0.
    destruct (newTaskLine_facts text id rnd0 pos0 3 Hne Hc Hd Hid)
      as (_ & _ & t & Et & H1 & H2 & H3 & H4).
    exists t. unfold parseTasks. rewrite Hlines. cbn [parseLines].
    rewrite !parseLine_no_task by (by vm_compute). rewrite Et. done.
  - unfold getDraft. cbn [newTaskByDay setBusy].
    by rewrite loadWeek_drafts, Hdraft, lookup_insert_eq.
Qed.

Lemma X30_first_task_of_a_day_witness :
  fst (addTask exampleDay
         (setNewTaskByDay {[ ymd exampleDay := str " call Ada " ]}
            (setFiles ∅ exampleWorld))) = Ok tt
  /\ getDraft (snd (addTask exampleDay
         (setNewTaskByDay {[ ymd exampleDay := str " call Ada " ]}
            (setFiles ∅ exampleWorld)))) (ymd exampleDay) = [].
Proof.
  pose proof (X30_first_task_of_a_day exampleDay
                (setNewTaskByDay {[ ymd exampleDay := str " call Ada " ]}
                   (setFiles ∅ exampleWorld))
                eq_refl ltac:(by vm_compute) eq_refl) as (H1 & _ & _ & _ & H5).
  exact (conj H1 H5).
Defined.
